(** * Anomaly classification engine of the hybrid-solar back end

    A shallow embedding of [application/background/anomaly-detection.ts]:
    the daylight classifier, the four detectors, the persistence step
    [createAnomalyIfNotExists] and the orchestrator [runAnomalyDetection].

    Conventions of the embedding.
    - A JavaScript [number] is the rational value of a finite IEEE double
      ([Q]).  Every arithmetic operation of the source rounds its exact
      result to the nearest double, ties to even ([JS.round]), and a
      decimal literal of the source is the double nearest to it
      ([JS.num]); comparisons, [Math.min], [Math.max], [Math.abs] and
      [Math.round] are exact on doubles.  NaN, the infinities and the sign
      of zero are outside the model: a result beyond the largest double
      keeps 53 significant bits, and the only unguarded division of the
      source, [energyGenerated / panelCapacity], is meaningful for a
      non-zero capacity only.
    - A [Date] is its epoch value in milliseconds ([Z]).  Local time is UTC
      shifted by a fixed offset [tz] (milliseconds east of Greenwich);
      daylight-saving changes are not modelled.
    - A date-only ISO string ["YYYY-MM-DD"] is the number of its UTC day
      (days since the epoch): [toISOString().split('T')[0]] is [isoDate]
      and [new Date("YYYY-MM-DD")] is [parseIsoDate].
    - The record store is an external collaborator: queries on solar units
      and generation records are oracles of an environment, each of which
      may reject; the anomaly collection is explicit state.
    - The [description] and [recommendation] texts of a result play no
      role in any decision; they are left out of the records.
    - Detector calls are pure in the source; the orchestrator of the
      embedding records each of them in its log ([Evaluated]), next to the
      console lines, so that what was and was not evaluated can be
      stated. *)

From Stdlib Require Import Ascii String DecimalString DecimalNat.
From Stdlib Require Import ZArith QArith Qminmax Qabs Qround Qpower.
From Stdlib Require Import List Bool Lia Lqa.
Import ListNotations.

Local Open Scope Z_scope.

(** ** JavaScript helpers *)

Module JS.

(** *** Double precision

    [ilog2 x] is the binary exponent of a non-zero [x], the integer [e]
    with [2 ^ e <= |x| < 2 ^ (e + 1)]. *)
Definition ilog2 (x : Q) : Z :=
  let k := Z.log2 (Z.abs (Qnum x)) - Z.log2 (Zpos (Qden x)) in
  if Qle_bool (2 ^ k) (Qabs x) then k else k - 1.

(** The nearest integer, a half going to the even neighbour. *)
Definition rne (x : Q) : Z :=
  let f := Qfloor x in
  match (x - inject_Z f ?= 1 # 2)%Q with
  | Lt => f
  | Gt => f + 1
  | Eq => if Z.even f then f else f + 1
  end.

(** The exponent of the last place of the double nearest to [x]: 53
    significant bits, and no exponent below that of the subnormal
    numbers. *)
Definition exponent (x : Q) : Z := Z.max (ilog2 x - 52) (-1074).

(** The double nearest to [x], ties to even: a multiple of the unit in
    the last place, as a fraction in lowest terms. *)
Definition nearest (x : Q) : Q :=
  let s := exponent x in
  (inject_Z (rne (x / 2 ^ s)) * 2 ^ s)%Q.

Definition round (x : Q) : Q := Qred (nearest x).

(** A decimal literal of the source. *)
Definition num (literal : Q) : Q := round literal.

(** [x + y], [x - y], [x * y] and [x / y] on numbers. *)
Definition add (x y : Q) : Q := round (x + y).
Definition sub (x y : Q) : Q := round (x - y).
Definition mul (x y : Q) : Q := round (x * y).
Definition div (x y : Q) : Q := round (x / y).

(** [Math.sqrt] of a non-negative number, correctly rounded: the root
    lies in the binade of exponent [ilog2 v / 2], and [m] is its integer
    part in units of the last place. *)
Definition Math_sqrt (v : Q) : Q :=
  if Qle_bool v 0 then 0%Q
  else
    let s := ilog2 v / 2 - 52 in
    let y := (v / 2 ^ (2 * s))%Q in
    let m := Z.sqrt (Qfloor y) in
    let mid := (inject_Z m + (1 # 2))%Q in
    let m' :=
      match (y ?= mid * mid)%Q with
      | Lt => m
      | Gt => m + 1
      | Eq => if Z.even m then m else m + 1
      end in
    Qred (inject_Z m' * 2 ^ s)%Q.

(** [Math.pow(x, 2)], taken as the rounded product [x * x]: the language
    leaves the precision of [Math.pow] to the implementation. *)
Definition Math_pow2 (x : Q) : Q := mul x x.

(** *** Comparisons and arrays *)

(** [x < y] on numbers. *)
Definition ltb (x y : Q) : bool := negb (Qle_bool y x).

(** [x > y] on numbers. *)
Definition gtb (x y : Q) : bool := ltb y x.

(** [a.slice(-n)]: the last [n] elements (all of them when there are
    fewer). *)
Definition slice_last {A : Type} (n : nat) (a : list A) : list A :=
  skipn (length a - n) a.

(** [a.slice(0, n)]. *)
Definition slice_first {A : Type} (n : nat) (a : list A) : list A :=
  firstn n a.

(** Membership of a number in a [Set] (SameValueZero, here numeric
    equality). *)
Fixpoint set_has (x : Q) (s : list Q) : bool :=
  match s with
  | [] => false
  | y :: s' => Qeq_bool x y || set_has x s'
  end.

(** [new Set(a)], as the list of its elements in insertion order. *)
Fixpoint new_Set_from (seen : list Q) (a : list Q) : list Q :=
  match a with
  | [] => seen
  | x :: a' =>
      if set_has x seen then new_Set_from seen a'
      else new_Set_from (seen ++ [x]) a'
  end.

Definition new_Set (a : list Q) : list Q := new_Set_from [] a.

(** [a.reduce((s, v) => s + v, 0)]. *)
Definition sum (a : list Q) : Q := fold_left add a 0%Q.

(** [Math.round]: the nearest integer, halves going up (exact on
    doubles). *)
Definition Math_round (x : Q) : Q := inject_Z (Qfloor (x + (1 # 2))%Q).

(** [v || d] for an optional numeric field: [undefined] and [0] are
    falsy. *)
Definition or_default (v : option Q) (d : Q) : Q :=
  match v with
  | Some x => if Qeq_bool x 0 then d else x
  | None => d
  end.

End JS.

(** ** Dates *)

Definition MS_PER_HOUR : Z := 3600000.
Definition MS_PER_DAY : Z := 24 * MS_PER_HOUR.

Definition IsoDate : Type := Z.

(** [new Date(t).toISOString().split('T')[0]]: the UTC calendar date. *)
Definition isoDate (t : Z) : IsoDate := t / MS_PER_DAY.

(** [new Date("YYYY-MM-DD")]: midnight UTC of that date. *)
Definition parseIsoDate (d : IsoDate) : Z := d * MS_PER_DAY.

Section Engine.

(** Offset of local time from UTC, in milliseconds. *)
Variable tz : Z.

(** Midnight (local time) of the local day of [t]. *)
Definition localMidnight (t : Z) : Z :=
  (t + tz) / MS_PER_DAY * MS_PER_DAY - tz.

(** Milliseconds elapsed since local midnight at [t]. *)
Definition localTimeOfDay (t : Z) : Z := (t + tz) mod MS_PER_DAY.

(** [d.setHours(h, m, s, ms)]: same local day, given local time. *)
Definition setHours (d : Z) (h m s ms : Z) : Z :=
  localMidnight d + h * MS_PER_HOUR + m * 60000 + s * 1000 + ms.

Definition getSunTimes (date : Z) : Z * Z :=
  let d := date in
  let sunrise := setHours d 6 0 0 0 in
  let sunset := setHours d 18 0 0 0 in
  (sunrise, sunset).

Definition isDaytime (timestamp : Z) : bool :=
  let '(sunrise, sunset) := getSunTimes timestamp in
  (sunrise <=? timestamp) && (timestamp <=? sunset).

(** ** Data model *)

Inductive AnomalyType : Type :=
| COMPLETE_FAILURE
| DEGRADATION
| WEATHER_RELATED
| SENSOR_MALFUNCTION.

Inductive Severity : Type := CRITICAL | HIGH | MEDIUM | LOW.

Inductive AnomalyStatus : Type := ACTIVE | ACKNOWLEDGED | RESOLVED.

Definition AnomalyType_eqb (a b : AnomalyType) : bool :=
  match a, b with
  | COMPLETE_FAILURE, COMPLETE_FAILURE
  | DEGRADATION, DEGRADATION
  | WEATHER_RELATED, WEATHER_RELATED
  | SENSOR_MALFUNCTION, SENSOR_MALFUNCTION => true
  | _, _ => false
  end.

Definition Severity_eqb (a b : Severity) : bool :=
  match a, b with
  | CRITICAL, CRITICAL | HIGH, HIGH | MEDIUM, MEDIUM | LOW, LOW => true
  | _, _ => false
  end.

(** One entry of the [issues] array of the sensor check. *)
Record Issue : Type := mkIssue {
  issue : string;
  issue_severity : Severity;
  issue_confidence : Q
}.

(** The [details] object, one shape per detector. *)
Inductive Details : Type :=
| FailureDetails (generationPercent cloudCoverage : Q) (isDay : bool)
| DegradationDetails
    (currentGeneration historicalAverage performanceRatio degradationPercent : Q)
| WeatherDetails
    (weatherSeverity expectedReduction actualReduction cloudCoverage
       precipitation : Q) (isPanelIssue : bool)
| SensorDetails
    (issues : list Issue) (currentReading panelCapacity : Q) (isNight : bool).

(** A result with [anomalyDetected: true]. *)
Record Detection : Type := mkDetection {
  anomalyType : AnomalyType;
  severity : Severity;
  confidence : Q;
  details : Details
}.

(** [DetectionResult]: [None] is [{ anomalyDetected: false }], whose other
    fields are absent. *)
Definition DetectionResult : Type := option Detection.

Definition anomalyDetected (r : DetectionResult) : bool :=
  match r with Some _ => true | None => false end.

(** ** Detectors *)

(** Anomaly type 1: complete panel failure. *)
Definition detectCompleteFailure
    (energyGenerated panelCapacity : Q) (timestamp : Z) (cloudCoverage : Q)
    : DetectionResult :=
  let isDay := isDaytime timestamp in
  let generationPercent :=
    JS.mul (JS.div energyGenerated panelCapacity) 100 in
  let zeroGeneration := JS.ltb generationPercent (JS.num 0.5) in
  let notHeavilyClouded := JS.ltb cloudCoverage 90 in
  if isDay && zeroGeneration && notHeavilyClouded then
    Some {| anomalyType := COMPLETE_FAILURE;
            severity := CRITICAL;
            confidence := JS.num 0.95;
            details := FailureDetails generationPercent cloudCoverage isDay |}
  else None.

(** Anomaly type 2: panel degradation ([degradationThreshold] defaults to
    15 in the source). *)
Definition detectPanelDegradation
    (currentGeneration historicalAverage degradationThreshold : Q)
    : DetectionResult :=
  if Qle_bool historicalAverage 0 then None
  else
    let performanceRatio :=
      JS.mul (JS.div currentGeneration historicalAverage) 100 in
    let degradation := JS.sub 100 performanceRatio in
    if JS.gtb degradation degradationThreshold then
      let severity := if JS.gtb degradation 25 then HIGH else MEDIUM in
      let confidence :=
        Qmin (JS.num 0.85)
          (JS.add (JS.num 0.6) (JS.mul degradation (JS.num 0.01))) in
      Some {| anomalyType := DEGRADATION;
              severity := severity;
              confidence := confidence;
              details := DegradationDetails currentGeneration historicalAverage
                           performanceRatio degradation |}
    else None.

(** Anomaly type 3: weather-related low generation. *)
Definition cloudImpact (cloudCoverage : Q) : Q :=
  JS.mul (JS.div cloudCoverage 100) (JS.num 0.7).

Definition rainImpact (precipitation : Q) : Q :=
  Qmin (JS.num 0.8) (JS.mul precipitation (JS.num 0.2)).

Definition weatherSeverity (cloudCoverage precipitation : Q) : Q :=
  Qmin (JS.num 0.9)
    (JS.add (cloudImpact cloudCoverage) (rainImpact precipitation)).

Definition actualReduction (energyGenerated expectedGeneration : Q) : Q :=
  if JS.gtb expectedGeneration 0
  then JS.mul
         (JS.div (JS.sub expectedGeneration energyGenerated)
            expectedGeneration)
         100
  else 0%Q.

Definition classifyWeatherImpact
    (energyGenerated expectedGeneration cloudCoverage precipitation : Q)
    : DetectionResult :=
  let weatherSeverity := weatherSeverity cloudCoverage precipitation in
  let expectedReduction := JS.mul weatherSeverity 100 in
  let actualReduction := actualReduction energyGenerated expectedGeneration in
  let reductionMatch :=
    JS.ltb (Qabs (JS.sub actualReduction expectedReduction)) 20 in
  if JS.gtb weatherSeverity (JS.num 0.4) && reductionMatch then
    Some {| anomalyType := WEATHER_RELATED;
            severity := LOW;
            confidence := JS.num 0.8;
            details := WeatherDetails weatherSeverity expectedReduction
                         actualReduction cloudCoverage precipitation false |}
  else if JS.gtb weatherSeverity (JS.num 0.4) && negb reductionMatch
          && JS.gtb actualReduction (JS.add expectedReduction 20) then
    Some {| anomalyType := WEATHER_RELATED;
            severity := MEDIUM;
            confidence := JS.num 0.7;
            details := WeatherDetails weatherSeverity expectedReduction
                         actualReduction cloudCoverage precipitation true |}
  else None.

(** Anomaly type 4: sensor malfunction.  The five checks, each pushing at
    most one issue, in the order of the source. *)
Definition nightIssue : Issue :=
  mkIssue "Night-time generation detected" CRITICAL (JS.num 0.98).
Definition capacityIssue : Issue :=
  mkIssue "Generation exceeds panel capacity" CRITICAL (JS.num 0.99).
Definition stuckIssue : Issue :=
  mkIssue "Sensor reading stuck at same value" HIGH (JS.num 0.9).
Definition erraticIssue : Issue :=
  mkIssue "Erratic sensor readings detected" MEDIUM (JS.num 0.75).
Definition negativeIssue : Issue :=
  mkIssue "Negative generation reading" CRITICAL 1.0.

Definition checkNight (energyGenerated : Q) (timestamp : Z) : list Issue :=
  let isDay := isDaytime timestamp in
  if negb isDay && JS.gtb energyGenerated (JS.num 0.01)
  then [nightIssue] else [].

Definition checkCapacity (energyGenerated panelCapacity : Q) : list Issue :=
  if JS.gtb energyGenerated (JS.mul panelCapacity (JS.num 1.05))
  then [capacityIssue] else [].

Definition checkStuck (recentReadings : list Q) : list Issue :=
  if (6 <=? length recentReadings)%nat then
    let uniqueValues := JS.new_Set (JS.slice_last 6 recentReadings) in
    if (length uniqueValues =? 1)%nat
       && negb (Qeq_bool (nth 0 recentReadings 0%Q) 0)
    then [stuckIssue] else []
  else [].

Definition checkErratic (recentReadings : list Q) : list Issue :=
  if (4 <=? length recentReadings)%nat then
    let recent := JS.slice_last 4 recentReadings in
    let len := inject_Z (Z.of_nat (length recent)) in
    let mean := JS.div (JS.sum recent) len in
    if JS.gtb mean 0 then
      let variance :=
        JS.div
          (fold_left
             (fun sum val => JS.add sum (JS.Math_pow2 (JS.sub val mean)))
             recent 0%Q)
          len in
      let stdDev := JS.Math_sqrt variance in
      let coefficientOfVariation := JS.div stdDev mean in
      if JS.gtb coefficientOfVariation (JS.num 1.5)
      then [erraticIssue] else []
    else []
  else [].

Definition checkNegative (energyGenerated : Q) : list Issue :=
  if JS.ltb energyGenerated 0 then [negativeIssue] else [].

Definition sensorIssues
    (energyGenerated panelCapacity : Q) (timestamp : Z)
    (recentReadings : list Q) : list Issue :=
  checkNight energyGenerated timestamp
    ++ checkCapacity energyGenerated panelCapacity
    ++ checkStuck recentReadings
    ++ checkErratic recentReadings
    ++ checkNegative energyGenerated.

(** [severityOrder.indexOf]. *)
Definition severityOrder_indexOf (s : Severity) : Z :=
  match s with LOW => 0 | MEDIUM => 1 | HIGH => 2 | CRITICAL => 3 end.

(** [issues.reduce((highest, current) => ...)] without an initial value. *)
Definition pickHigher (highest current : Issue) : Issue :=
  if severityOrder_indexOf (issue_severity current)
       >? severityOrder_indexOf (issue_severity highest)
  then current else highest.

Definition highestSeverity (first : Issue) (rest : list Issue) : Issue :=
  fold_left pickHigher rest first.

(** [Math.max(...issues.map(i => i.confidence))] on a non-empty array. *)
Definition maxConfidence (first : Issue) (rest : list Issue) : Q :=
  fold_left Qmax (map issue_confidence rest) (issue_confidence first).

Definition detectSensorMalfunction
    (energyGenerated panelCapacity : Q) (timestamp : Z)
    (recentReadings : list Q) : DetectionResult :=
  let isDay := isDaytime timestamp in
  match sensorIssues energyGenerated panelCapacity timestamp recentReadings
  with
  | [] => None
  | first :: rest =>
      Some {| anomalyType := SENSOR_MALFUNCTION;
              severity := issue_severity (highestSeverity first rest);
              confidence := maxConfidence first rest;
              details := SensorDetails (first :: rest) energyGenerated
                           panelCapacity (negb isDay) |}
  end.

(** The issues a result reports in [details.issues]. *)
Definition reportedIssues (r : DetectionResult) : list Issue :=
  match r with
  | Some {| details := SensorDetails issues _ _ _ |} => issues
  | _ => []
  end.

(** ** Records of the store *)

Record SolarUnit : Type := mkSolarUnit {
  unit_id : Z;
  serialNumber : string;
  capacity : option Q
}.

Record EnergyGenerationRecord : Type := mkEnergyRecord {
  egr_energyGenerated : Q;
  egr_timestamp : Z;
  egr_cloudCoverage : option Q;
  egr_precipitation : option Q
}.

Record AnomalyRecord : Type := mkAnomaly {
  rec_solarUnitId : Z;
  rec_anomalyType : AnomalyType;
  rec_severity : Severity;
  rec_status : AnomalyStatus;
  rec_detectedAt : Z;
  affectedPeriod_start : Z;
  affectedPeriod_end : Z;
  rec_confidence : Q;
  rec_details : Details
}.

(** The anomaly collection, in insertion order. *)
Definition Store : Type := list AnomalyRecord.

(** ** Daily buckets *)

(** A value of the [dailyTotals] map. *)
Record DayData : Type := mkDayData {
  total : Q;
  records : list EnergyGenerationRecord;
  avgCloud : Q;
  avgPrecip : Q
}.

(** The [Map] from date strings to day data, in insertion order. *)
Definition DailyTotals : Type := list (IsoDate * DayData).

Fixpoint Map_has (date : IsoDate) (m : DailyTotals) : bool :=
  match m with
  | [] => false
  | (k, _) :: m' => (k =? date) || Map_has date m'
  end.

(** Mutation of the object stored under [date]. *)
Fixpoint Map_modify (date : IsoDate) (f : DayData -> DayData)
    (m : DailyTotals) : DailyTotals :=
  match m with
  | [] => []
  | (k, v) :: m' =>
      if k =? date then (k, f v) :: m' else (k, v) :: Map_modify date f m'
  end.

Definition addRecord (dailyTotals : DailyTotals)
    (record : EnergyGenerationRecord) : DailyTotals :=
  let date := isoDate (egr_timestamp record) in
  let dailyTotals :=
    if Map_has date dailyTotals then dailyTotals
    else dailyTotals ++ [(date, mkDayData 0 [] 0 0)] in
  Map_modify date
    (fun dayData =>
       {| total := JS.add (total dayData) (egr_energyGenerated record);
          records := records dayData ++ [record];
          avgCloud := avgCloud dayData;
          avgPrecip := avgPrecip dayData |})
    dailyTotals.

Definition averageWeather (dayData : DayData) : DayData :=
  let recordCount := length (records dayData) in
  if (0 <? recordCount)%nat then
    let n := inject_Z (Z.of_nat recordCount) in
    {| total := total dayData;
       records := records dayData;
       avgCloud :=
         JS.div
           (fold_left
              (fun sum r => JS.add sum (JS.or_default (egr_cloudCoverage r) 50))
              (records dayData) 0%Q)
           n;
       avgPrecip :=
         JS.div
           (fold_left
              (fun sum r => JS.add sum (JS.or_default (egr_precipitation r) 0))
              (records dayData) 0%Q)
           n |}
  else dayData.

Definition buildDailyTotals (records : list EnergyGenerationRecord)
    : DailyTotals :=
  map (fun entry => (fst entry, averageWeather (snd entry)))
      (fold_left addRecord records []).

(** ** Effects: store state, rejections and the log *)

Definition Error : Type := string.

(** A detector call with its arguments. *)
Inductive Call : Type :=
| CallSensor (energyGenerated panelCapacity : Q) (timestamp : Z)
    (recentReadings : list Q)
| CallFailure (energyGenerated panelCapacity : Q) (timestamp : Z)
    (cloudCoverage : Q)
| CallWeather (energyGenerated expectedGeneration cloudCoverage
    precipitation : Q)
| CallDegradation (currentGeneration historicalAverage : Q).

(** What a run leaves behind besides the store: the console lines, and
    for every detector call a record of the unit, the bucket, the
    arguments and whether it fired. *)
Inductive Event : Type :=
| LogStarting
| LogProcessing (serial : string)
| LogNoRecords (serial : string)
| LogBucket (date : IsoDate) (energy cloud precip : Q)
| LogCreated (type : AnomalyType) (date : IsoDate)
| LogCompleted
| LogFailed (error : Error)
| Evaluated (unit : Z) (date : IsoDate) (call : Call) (fired : bool).

Inductive Outcome (A : Type) : Type :=
| Ok (a : A)
| Throw (e : Error).
Arguments Ok {A} a.
Arguments Throw {A} e.

(** An asynchronous computation over the anomaly collection: its outcome,
    the collection it leaves and what it logged. *)
Definition M (A : Type) : Type := Store -> Outcome A * Store * list Event.

Definition ret {A : Type} (a : A) : M A := fun s => (Ok a, s, []).

Definition throw {A : Type} (e : Error) : M A := fun s => (Throw e, s, []).

Definition tell (e : Event) : M unit := fun s => (Ok tt, s, [e]).

Definition bind {A B : Type} (c : M A) (k : A -> M B) : M B :=
  fun s =>
    match c s with
    | (Ok a, s1, l1) =>
        let '(r, s2, l2) := k a s1 in (r, s2, l1 ++ l2)
    | (Throw e, s1, l1) => (Throw e, s1, l1)
    end.

Notation "x <- c ;; k" := (bind c (fun x => k))
  (at level 61, c at next level, right associativity).
Notation "c ;;; k" := (bind c (fun _ => k))
  (at level 61, right associativity).

(** [try { c } catch (error) { handler(error) }]. *)
Definition tryCatch {A : Type} (c : M A) (handler : Error -> M A) : M A :=
  fun s =>
    match c s with
    | (Ok a, s1, l1) => (Ok a, s1, l1)
    | (Throw e, s1, l1) =>
        let '(r, s2, l2) := handler e s1 in (r, s2, l1 ++ l2)
    end.

(** [for (const x of xs) { body(x) }]; a [continue] ends [body]. *)
Fixpoint forOf {A : Type} (xs : list A) (body : A -> M unit) : M unit :=
  match xs with
  | [] => ret tt
  | x :: xs' => body x ;;; forOf xs' body
  end.

(** An awaited query whose answer the environment fixes. *)
Definition await {A : Type} (answer : Outcome A) : M A :=
  fun s => (answer, s, []).

Definition outcome {A : Type} (r : Outcome A * Store * list Event) :=
  fst (fst r).
Definition store_of {A : Type} (r : Outcome A * Store * list Event) : Store :=
  snd (fst r).
Definition log_of {A : Type} (r : Outcome A * Store * list Event)
    : list Event := snd r.

(** ** The environment of a run *)

Record Env : Type := mkEnv {
  (** the clock, [new Date()] *)
  now : Z;
  (** [SolarUnit.find({ status: "ACTIVE" })] *)
  SolarUnit_find_active : Outcome (list SolarUnit);
  (** [EnergyGenerationRecord.find({ solarUnitId, timestamp: { $gte } })
      .sort({ timestamp: -1 })] *)
  Records_find_since : Z -> Z -> Outcome (list EnergyGenerationRecord);
  (** [EnergyGenerationRecord.find({ solarUnitId,
      timestamp: { $gte, $lt } })] *)
  Records_find_between : Z -> Z -> Z -> Outcome (list EnergyGenerationRecord);
  (** whether [Anomaly.findOne] rejects for this unit, type and period *)
  Anomaly_findOne_rejects : Z -> AnomalyType -> Z -> Z -> option Error;
  (** whether [anomaly.save()] rejects for this document *)
  Anomaly_save_rejects : AnomalyRecord -> option Error
}.

Variable env : Env.

(** ** Persistence *)

(** The filter of the lookup: same unit, same type, [affectedPeriod.start]
    between [startOfDay] and [endOfDay]. *)
Definition matchesFilter (solarUnitId : Z) (type : AnomalyType)
    (startOfDay endOfDay : Z) (r : AnomalyRecord) : bool :=
  (rec_solarUnitId r =? solarUnitId)
  && AnomalyType_eqb (rec_anomalyType r) type
  && (startOfDay <=? affectedPeriod_start r)
  && (affectedPeriod_start r <=? endOfDay).

Definition Anomaly_findOne (solarUnitId : Z) (type : AnomalyType)
    (startOfDay endOfDay : Z) : M (option AnomalyRecord) :=
  fun s =>
    match Anomaly_findOne_rejects env solarUnitId type startOfDay endOfDay with
    | Some e => (Throw e, s, [])
    | None =>
        (Ok (find (matchesFilter solarUnitId type startOfDay endOfDay) s),
         s, [])
    end.

Definition Anomaly_save (anomaly : AnomalyRecord) : M unit :=
  fun s =>
    match Anomaly_save_rejects env anomaly with
    | Some e => (Throw e, s, [])
    | None => (Ok tt, s ++ [anomaly], [])
    end.

Definition createAnomalyIfNotExists (solarUnitId : Z) (detection : Detection)
    (date : IsoDate) : M unit :=
  let startOfDay := setHours (parseIsoDate date) 0 0 0 0 in
  let endOfDay := setHours (parseIsoDate date) 23 59 59 999 in
  existingAnomaly <-
    Anomaly_findOne solarUnitId (anomalyType detection) startOfDay endOfDay ;;
  match existingAnomaly with
  | Some _ => ret tt
  | None =>
      let anomaly :=
        {| rec_solarUnitId := solarUnitId;
           rec_anomalyType := anomalyType detection;
           rec_severity := severity detection;
           rec_status := ACTIVE;
           rec_detectedAt := now env;
           affectedPeriod_start := startOfDay;
           affectedPeriod_end := endOfDay;
           rec_confidence := confidence detection;
           rec_details := details detection |} in
      Anomaly_save anomaly ;;;
      tell (LogCreated (anomalyType detection) date)
  end.

(** ** The orchestrator *)

(** [r.anomalyDetected ? [r] : []]: what [detections.push] adds. *)
Definition pushed (r : DetectionResult) : list Detection :=
  match r with Some d => [d] | None => [] end.

(** The body of the loop over the daily buckets of one unit. *)
Definition processBucket (solarUnit : SolarUnit) (historicalAverage : Q)
    (recentReadings : list Q) (entry : IsoDate * DayData) : M unit :=
  let '(date, dayData) := entry in
  let panelCapacity := JS.or_default (capacity solarUnit) 5 in
  let energyGenerated := total dayData in
  let timestamp := parseIsoDate date in
  let cloudCoverage := JS.Math_round (avgCloud dayData) in
  let precipitation := avgPrecip dayData in
  tell (LogBucket date energyGenerated cloudCoverage precipitation) ;;;
  (* 1. Sensor malfunction *)
  let sensorCheck :=
    detectSensorMalfunction energyGenerated panelCapacity timestamp
      recentReadings in
  tell (Evaluated (unit_id solarUnit) date
          (CallSensor energyGenerated panelCapacity timestamp recentReadings)
          (anomalyDetected sensorCheck)) ;;;
  match sensorCheck with
  | Some sensorCheck =>
      (* skip the other checks: [continue] *)
      createAnomalyIfNotExists (unit_id solarUnit) sensorCheck date
  | None =>
      (* 2. Complete failure *)
      let failureCheck :=
        detectCompleteFailure energyGenerated panelCapacity timestamp
          cloudCoverage in
      tell (Evaluated (unit_id solarUnit) date
              (CallFailure energyGenerated panelCapacity timestamp
                 cloudCoverage)
              (anomalyDetected failureCheck)) ;;;
      let detections := pushed failureCheck in
      (* 3. Weather impact *)
      let expectedGeneration := JS.mul panelCapacity (JS.num 0.5) in
      let weatherCheck :=
        classifyWeatherImpact energyGenerated expectedGeneration
          cloudCoverage precipitation in
      tell (Evaluated (unit_id solarUnit) date
              (CallWeather energyGenerated expectedGeneration cloudCoverage
                 precipitation)
              (anomalyDetected weatherCheck)) ;;;
      let detections := detections ++ pushed weatherCheck in
      (* 4. Degradation, only if no critical issue was found *)
      detections <-
        (if negb (existsb (fun d => Severity_eqb (severity d) CRITICAL)
                    detections)
            && JS.gtb historicalAverage 0
         then
           let degradationCheck :=
             detectPanelDegradation energyGenerated historicalAverage 15 in
           tell (Evaluated (unit_id solarUnit) date
                   (CallDegradation energyGenerated historicalAverage)
                   (anomalyDetected degradationCheck)) ;;;
           ret (detections ++ pushed degradationCheck)
         else ret detections) ;;
      forOf detections
        (fun detection =>
           createAnomalyIfNotExists (unit_id solarUnit) detection date)
  end.

(** The body of the loop over the solar units. *)
Definition processUnit (solarUnit : SolarUnit) : M unit :=
  tell (LogProcessing (serialNumber solarUnit)) ;;;
  let sevenDaysAgo := now env - 7 * MS_PER_DAY in
  records <- await (Records_find_since env (unit_id solarUnit) sevenDaysAgo) ;;
  if (length records =? 0)%nat then
    tell (LogNoRecords (serialNumber solarUnit))
  else
    let thirtyDaysAgo := now env - 30 * MS_PER_DAY in
    historicalRecords <-
      await (Records_find_between env (unit_id solarUnit) thirtyDaysAgo
               sevenDaysAgo) ;;
    let historicalAverage :=
      if (0 <? length historicalRecords)%nat
      then JS.div
             (fold_left (fun sum r => JS.add sum (egr_energyGenerated r))
                historicalRecords 0%Q)
             (inject_Z (Z.of_nat (length historicalRecords)))
      else 0%Q in
    let recentReadings :=
      map egr_energyGenerated (JS.slice_first 10 records) in
    let dailyTotals := buildDailyTotals records in
    forOf dailyTotals
      (processBucket solarUnit historicalAverage recentReadings).

Definition runAnomalyDetection : M unit :=
  tell LogStarting ;;;
  tryCatch
    (solarUnits <- await (SolarUnit_find_active env) ;;
     forOf solarUnits processUnit ;;;
     tell LogCompleted)
    (fun error => tell (LogFailed error) ;;; throw error).

End Engine.

Arguments Ok {A} a.
Arguments Throw {A} e.

(** ** Definitions used to state the properties *)

(** What a result says, without its diagnostic values: type, severity,
    confidence and, for the weather classifier, [details.isPanelIssue]. *)
Definition weatherVerdict (r : DetectionResult)
    : option (AnomalyType * Severity * Q * bool) :=
  match r with
  | Some {| anomalyType := t; severity := s; confidence := c;
            details := WeatherDetails _ _ _ _ _ isPanelIssue |} =>
      Some (t, s, c, isPanelIssue)
  | _ => None
  end.

(** The decision table of the weather classifier as the specification
    words it, its formulas read in exact arithmetic; [literal] is the
    reading of its decimal constants (the decimal itself, or the double
    nearest to it), and the confidence of a verdict is the number the
    program stores. *)
Definition weatherDecisionTable (literal : Q -> Q)
    (energyGenerated expectedGeneration cloudCoverage precipitation : Q)
    : option (AnomalyType * Severity * Q * bool) :=
  let ws := (Qmin (literal 0.9)
               (cloudCoverage / 100 * literal 0.7
                + Qmin (literal 0.8) (precipitation * literal 0.2)))%Q in
  let expected := (ws * 100)%Q in
  let actual :=
    if Qlt_le_dec 0 expectedGeneration
    then ((expectedGeneration - energyGenerated) / expectedGeneration * 100)%Q
    else 0%Q in
  if Qlt_le_dec (literal 0.4%Q) ws then
    if Qlt_le_dec (Qabs (actual - expected)) 20
    then Some (WEATHER_RELATED, LOW, JS.num 0.8, false)
    else if Qlt_le_dec (expected + 20) actual
         then Some (WEATHER_RELATED, MEDIUM, JS.num 0.7, true)
         else None
  else None.

(** The same table with its formulas read in double precision: every
    literal is the nearest double and every operation rounds. *)
Definition weatherDecisionTableDouble
    (energyGenerated expectedGeneration cloudCoverage precipitation : Q)
    : option (AnomalyType * Severity * Q * bool) :=
  let ws :=
    Qmin (JS.num 0.9)
      (JS.add (JS.mul (JS.div cloudCoverage 100) (JS.num 0.7))
         (Qmin (JS.num 0.8) (JS.mul precipitation (JS.num 0.2)))) in
  let expected := JS.mul ws 100 in
  let actual :=
    if Qlt_le_dec 0 expectedGeneration
    then JS.mul
           (JS.div (JS.sub expectedGeneration energyGenerated)
              expectedGeneration)
           100
    else 0%Q in
  if Qlt_le_dec (JS.num 0.4) ws then
    if Qlt_le_dec (Qabs (JS.sub actual expected)) 20
    then Some (WEATHER_RELATED, LOW, JS.num 0.8, false)
    else if Qlt_le_dec (JS.add expected 20) actual
         then Some (WEATHER_RELATED, MEDIUM, JS.num 0.7, true)
         else None
  else None.

(** A number that is a double. *)
Definition isDouble (x : Q) : Prop := (JS.round x == x)%Q.

(** The two neighbouring doubles between which the quotient
    [energyGenerated / panelCapacity] decides the complete-failure test:
    the double below 0.005 and the double nearest to 0.005. *)
Definition failureQuotientBelow : Q :=
  2882303761517117 # 576460752303423488.
Definition failureQuotientAbove : Q := JS.num 0.005.

(** All readings of [l] carry one value, and it is not zero. *)
Definition identicalNonZero (l : list Q) : Prop :=
  exists v : Q, ~ (v == 0)%Q /\ Forall (fun x => (x == v)%Q) l.

(** An issue of the given name is among the reported ones. *)
Definition reports (name : string) (r : DetectionResult) : Prop :=
  exists i, In i (reportedIssues r) /\ issue i = name.

(** The first and last instants of the affected period that
    [createAnomalyIfNotExists] computes for a bucket. *)
Definition startOfDay (tz : Z) (date : IsoDate) : Z :=
  setHours tz (parseIsoDate date) 0 0 0 0.

Definition endOfDay (tz : Z) (date : IsoDate) : Z :=
  setHours tz (parseIsoDate date) 23 59 59 999.

(** The local calendar day of an instant, as a day number. *)
Definition localDay (tz : Z) (t : Z) : Z := (t + tz) / MS_PER_DAY.

(** The deduplication key of a record: unit, type and calendar day of
    [affectedPeriod.start]. *)
Definition tripleOf (tz : Z) (r : AnomalyRecord) : Z * AnomalyType * Z :=
  (rec_solarUnitId r, rec_anomalyType r,
   localDay tz (affectedPeriod_start r)).

(** No two records of the collection share their key. *)
Definition Deduplicated (tz : Z) (s : Store) : Prop :=
  NoDup (map (tripleOf tz) s).

(** The document that [createAnomalyIfNotExists] saves. *)
Definition newAnomaly (tz : Z) (env : Env) (solarUnitId : Z)
    (detection : Detection) (date : IsoDate) : AnomalyRecord :=
  {| rec_solarUnitId := solarUnitId;
     rec_anomalyType := anomalyType detection;
     rec_severity := severity detection;
     rec_status := ACTIVE;
     rec_detectedAt := now env;
     affectedPeriod_start := startOfDay tz date;
     affectedPeriod_end := endOfDay tz date;
     rec_confidence := confidence detection;
     rec_details := details detection |}.

(** Whether some record passes the filter of a lookup. *)
Definition present (s : Store) (solarUnitId : Z) (type : AnomalyType)
    (from to : Z) : bool :=
  existsb (matchesFilter solarUnitId type from to) s.

(** Every lookup that succeeds on [s] succeeds on [s']. *)
Definition Covers (s' s : Store) : Prop :=
  forall solarUnitId type from to,
    present s solarUnitId type from to = true ->
    present s' solarUnitId type from to = true.

(** The detector call that an event records, evaluated again. *)
Definition callResult (tz : Z) (call : Call) : DetectionResult :=
  match call with
  | CallSensor e cap ts rr => detectSensorMalfunction tz e cap ts rr
  | CallFailure e cap ts cloud => detectCompleteFailure tz e cap ts cloud
  | CallWeather e x cloud precip => classifyWeatherImpact e x cloud precip
  | CallDegradation cur hist => detectPanelDegradation cur hist 15
  end.

(** What the queries of a run answer for one unit (nothing when the
    query rejects). *)
Definition unitRecords (env : Env) (u : SolarUnit)
    : list EnergyGenerationRecord :=
  match Records_find_since env (unit_id u) (now env - 7 * MS_PER_DAY) with
  | Ok records => records
  | Throw _ => []
  end.

Definition unitBuckets (env : Env) (u : SolarUnit) : DailyTotals :=
  buildDailyTotals (unitRecords env u).

Definition unitRecentReadings (env : Env) (u : SolarUnit) : list Q :=
  map egr_energyGenerated (JS.slice_first 10 (unitRecords env u)).

Definition activeUnits (env : Env) : list SolarUnit :=
  match SolarUnit_find_active env with
  | Ok units => units
  | Throw _ => []
  end.

(** The sensor check of a bucket, as the orchestrator calls it. *)
Definition bucketSensorCall (u : SolarUnit) (recentReadings : list Q)
    (date : IsoDate) (data : DayData) : Call :=
  CallSensor (total data) (JS.or_default (capacity u) 5) (parseIsoDate date)
    recentReadings.

(** A detector call that belongs to the bucket [(date, data)] of unit [u]:
    the sensor check on the bucket, or another detector after a sensor
    check that did not fire; sensor and failure checks receive
    [new Date(date)]. *)
Definition BucketCall (tz : Z) (u : SolarUnit) (recentReadings : list Q)
    (date : IsoDate) (data : DayData) (call : Call) (fired : bool) : Prop :=
  fired = anomalyDetected (callResult tz call)
  /\ match call with
     | CallSensor _ _ _ _ =>
         call = bucketSensorCall u recentReadings date data
     | CallFailure e cap ts _ =>
         callResult tz (bucketSensorCall u recentReadings date data) = None
         /\ e = total data /\ cap = JS.or_default (capacity u) 5
         /\ ts = parseIsoDate date
     | CallWeather _ _ _ _ | CallDegradation _ _ =>
         callResult tz (bucketSensorCall u recentReadings date data) = None
     end.

(** A record created for the bucket [(date, data)] of unit [u]. *)
Definition BucketRecord (tz : Z) (u : SolarUnit) (recentReadings : list Q)
    (date : IsoDate) (data : DayData) (r : AnomalyRecord) : Prop :=
  rec_solarUnitId r = unit_id u
  /\ affectedPeriod_start r = startOfDay tz date
  /\ affectedPeriod_end r = endOfDay tz date
  /\ rec_status r = ACTIVE
  /\ (callResult tz (bucketSensorCall u recentReadings date data) <> None ->
      rec_anomalyType r = SENSOR_MALFUNCTION).

(** An event of the processing of the bucket [(date, data)] of [u]. *)
Definition BucketEvent (tz : Z) (u : SolarUnit) (recentReadings : list Q)
    (date : IsoDate) (data : DayData) (ev : Event) : Prop :=
  match ev with
  | Evaluated unit date' call fired =>
      unit = unit_id u /\ date' = date
      /\ BucketCall tz u recentReadings date data call fired
  | _ => True
  end.

(** Events and records of a run come from the buckets of its units. *)
Definition RunEvent (tz : Z) (env : Env) (ev : Event) : Prop :=
  match ev with
  | Evaluated unit date call fired =>
      exists u data,
        In u (activeUnits env) /\ unit_id u = unit
        /\ In (date, data) (unitBuckets env u)
        /\ BucketCall tz u (unitRecentReadings env u) date data call fired
  | _ => True
  end.

Definition RunRecord (tz : Z) (env : Env) (r : AnomalyRecord) : Prop :=
  exists u date data,
    In u (activeUnits env)
    /\ In (date, data) (unitBuckets env u)
    /\ BucketRecord tz u (unitRecentReadings env u) date data r.

(** A computation whose events satisfy [PE] and which only appends
    records satisfying [PR] to the collection. *)
Definition Emits {A : Type} (PE : Event -> Prop) (PR : AnomalyRecord -> Prop)
    (c : M A) : Prop :=
  forall s,
    Forall PE (log_of (c s))
    /\ exists created, store_of (c s) = s ++ created /\ Forall PR created.

(** A computation that keeps an invariant of the collection. *)
Definition Preserves {A : Type} (Inv : Store -> Prop) (c : M A) : Prop :=
  forall s, Inv s -> Inv (store_of (c s)).

(** A computation that, started again on any collection covering the one
    it left (and covered by it when it ended in a rejection), ends the same
    way and leaves that collection as it is. *)
Definition Settled {A : Type} (c : M A) : Prop :=
  forall s s',
    Covers s' (store_of (c s)) ->
    (forall e, outcome (c s) = Throw e -> Covers (store_of (c s)) s') ->
    outcome (c s') = outcome (c s) /\ store_of (c s') = s'.

(** *** Calls of the persistence step that overlap

    [createAnomalyIfNotExists] awaits twice, for the lookup and for the
    save, and nothing keeps the recurring schedule and the manual trigger
    from starting a run while another one is suspended.  A call is at one
    of three points, and a step takes it through its next await on the
    shared collection. *)
Inductive CreatePoint : Type :=
| AtLookup
| AtSave (anomaly : AnomalyRecord)
| Returned (result : Outcome unit).

Definition createStep (tz : Z) (env : Env) (solarUnitId : Z)
    (detection : Detection) (date : IsoDate) (point : CreatePoint)
    (s : Store) : CreatePoint * Store :=
  match point with
  | AtLookup =>
      match Anomaly_findOne_rejects env solarUnitId (anomalyType detection)
              (startOfDay tz date) (endOfDay tz date) with
      | Some e => (Returned (Throw e), s)
      | None =>
          match find (matchesFilter solarUnitId (anomalyType detection)
                        (startOfDay tz date) (endOfDay tz date)) s with
          | Some _ => (Returned (Ok tt), s)
          | None => (AtSave (newAnomaly tz env solarUnitId detection date), s)
          end
      end
  | AtSave anomaly =>
      match Anomaly_save_rejects env anomaly with
      | Some e => (Returned (Throw e), s)
      | None => (Returned (Ok tt), s ++ [anomaly])
      end
  | Returned result => (Returned result, s)
  end.

(** Which of two calls in flight takes the next step. *)
Inductive Turn : Type := FirstCall | SecondCall.

(** Two calls with the same arguments, stepped in the order of a
    schedule, on one collection. *)
Fixpoint overlapped (tz : Z) (env : Env) (solarUnitId : Z)
    (detection : Detection) (date : IsoDate) (schedule : list Turn)
    (first second : CreatePoint) (s : Store)
    : CreatePoint * CreatePoint * Store :=
  match schedule with
  | [] => (first, second, s)
  | FirstCall :: rest =>
      let '(first', s') :=
        createStep tz env solarUnitId detection date first s in
      overlapped tz env solarUnitId detection date rest first' second s'
  | SecondCall :: rest =>
      let '(second', s') :=
        createStep tz env solarUnitId detection date second s in
      overlapped tz env solarUnitId detection date rest first second' s'
  end.

(** A detection used as a concrete input. *)
Definition failureDetection : Detection :=
  {| anomalyType := COMPLETE_FAILURE;
     severity := CRITICAL;
     confidence := JS.num 0.95;
     details := FailureDetails (JS.num 0.4) 25 true |}.

(** The environment of the two-unit run used for the failure semantics:
    the readings of the first unit cannot be loaded, the second unit has
    one negative reading. *)
Definition unitA : SolarUnit := mkSolarUnit 1 "SU-A" (Some 5%Q).
Definition unitB : SolarUnit := mkSolarUnit 2 "SU-B" (Some 5%Q).

Definition envFirstUnitFails : Env :=
  {| now := 10 * MS_PER_DAY;
     SolarUnit_find_active := Ok [unitA; unitB];
     Records_find_since := fun unit _ =>
       if unit =? 1 then Throw "store unavailable"%string
       else Ok [mkEnergyRecord (-1) (9 * MS_PER_DAY + 12 * MS_PER_HOUR)
                  (Some 20%Q) None];
     Records_find_between := fun _ _ _ => Ok [];
     Anomaly_findOne_rejects := fun _ _ _ _ => None;
     Anomaly_save_rejects := fun _ => None |}.

(** The same environment with the two units in the other order. *)
Definition envFailingUnitLast : Env :=
  {| now := now envFirstUnitFails;
     SolarUnit_find_active := Ok [unitB; unitA];
     Records_find_since := Records_find_since envFirstUnitFails;
     Records_find_between := Records_find_between envFirstUnitFails;
     Anomaly_findOne_rejects := Anomaly_findOne_rejects envFirstUnitFails;
     Anomaly_save_rejects := Anomaly_save_rejects envFirstUnitFails |}.

(** ** Definitions for the further properties of the engine *)

(** [l] is [l'] with some elements left out. *)
Inductive Subseq {A : Type} : list A -> list A -> Prop :=
| Subseq_nil : Subseq [] []
| Subseq_skip (x : A) (l l' : list A) : Subseq l l' -> Subseq l (x :: l')
| Subseq_keep (x : A) (l l' : list A) : Subseq l l' -> Subseq (x :: l) (x :: l').

(** The detections that the orchestrator collects for a bucket whose
    sensor check did not fire, in the order in which it persists them. *)
Definition quietDetections (tz : Z) (u : SolarUnit) (historicalAverage : Q)
    (date : IsoDate) (data : DayData) : list Detection :=
  let panelCapacity := JS.or_default (capacity u) 5 in
  let cloudCoverage := JS.Math_round (avgCloud data) in
  let detections :=
    pushed (detectCompleteFailure tz (total data) panelCapacity
              (parseIsoDate date) cloudCoverage)
    ++ pushed (classifyWeatherImpact (total data)
                 (JS.mul panelCapacity (JS.num 0.5))
                 cloudCoverage (avgPrecip data)) in
  if negb (existsb (fun d => Severity_eqb (severity d) CRITICAL) detections)
     && JS.gtb historicalAverage 0
  then detections ++ pushed (detectPanelDegradation (total data)
                               historicalAverage 15)
  else detections.

(** [records.reduce((sum, r) => sum + r.energyGenerated, 0)]. *)
Definition totalEnergy (records : list EnergyGenerationRecord) : Q :=
  fold_left (fun sum r => JS.add sum (egr_energyGenerated r)) records 0%Q.

(** The records whose timestamp falls on the UTC date [date]. *)
Definition recordsOn (date : IsoDate)
    (records : list EnergyGenerationRecord) : list EnergyGenerationRecord :=
  filter (fun r => isoDate (egr_timestamp r) =? date) records.

(** The map under construction holds the buckets of the records [seen]. *)
Definition BucketsOf (seen : list EnergyGenerationRecord) (m : DailyTotals)
    : Prop :=
  NoDup (map fst m)
  /\ (forall date data,
        In (date, data) m ->
        records data = recordsOn date seen
        /\ records data <> []
        /\ total data = totalEnergy (records data))
  /\ (forall r, In r seen -> In (isoDate (egr_timestamp r)) (map fst m)).

(** The conditions of the three CRITICAL sensor issues. *)
Definition criticalReading (tz : Z) (energyGenerated panelCapacity : Q)
    (timestamp : Z) : Prop :=
  (isDaytime tz timestamp = false /\ (JS.num 0.01 < energyGenerated)%Q)
  \/ (JS.mul panelCapacity (JS.num 1.05) < energyGenerated)%Q
  \/ (energyGenerated < 0)%Q.

(** An environment none of whose queries rejects. *)
Definition NoRejections (env : Env) : Prop :=
  (exists units, SolarUnit_find_active env = Ok units)
  /\ (forall unit since, exists rs, Records_find_since env unit since = Ok rs)
  /\ (forall unit from to,
        exists rs, Records_find_between env unit from to = Ok rs)
  /\ (forall unit type from to,
        Anomaly_findOne_rejects env unit type from to = None)
  /\ (forall r, Anomaly_save_rejects env r = None).

(** A computation that returns normally from every collection. *)
Definition Completes {A : Type} (c : M A) : Prop :=
  forall s, exists a, outcome (c s) = Ok a.

(** A record that a run creates: the document built from a detection [d]
    of some detector, for a bucket of an active unit. *)
Definition CreatedByRun (tz : Z) (env : Env) (r : AnomalyRecord) : Prop :=
  exists u date data d call,
    In u (activeUnits env)
    /\ In (date, data) (unitBuckets env u)
    /\ callResult tz call = Some d
    /\ r = newAnomaly tz env (unit_id u) d date.

(** An environment in which both units load: the first has a reading of
    0.02 kWh, the second a negative one. *)
Definition envBothUnitsLoad : Env :=
  {| now := now envFirstUnitFails;
     SolarUnit_find_active := Ok [unitA; unitB];
     Records_find_since := fun unit _ =>
       if unit =? 1
       then Ok [mkEnergyRecord (JS.num 0.02)
                  (9 * MS_PER_DAY + 12 * MS_PER_HOUR)
                  (Some 25%Q) None]
       else Ok [mkEnergyRecord (-1) (9 * MS_PER_DAY + 12 * MS_PER_HOUR)
                  (Some 20%Q) None];
     Records_find_between := fun _ _ _ => Ok [];
     Anomaly_findOne_rejects := fun _ _ _ _ => None;
     Anomaly_save_rejects := fun _ => None |}.

(** The collection that a first run at UTC leaves in that environment,
    a sensor detection, and the first bucket of a unit, used as concrete
    inputs. *)
Definition storeAfterRun : Store :=
  store_of (runAnomalyDetection 0 envBothUnitsLoad []).

Definition sensorDetection : Detection :=
  {| anomalyType := SENSOR_MALFUNCTION;
     severity := CRITICAL;
     confidence := JS.num 0.98;
     details := SensorDetails [nightIssue] (JS.num 0.02) 5 true |}.

Definition firstBucket (env : Env) (u : SolarUnit) : IsoDate * DayData :=
  hd (0, mkDayData 0 [] 0 0) (unitBuckets env u).

(** ** The anomaly API ([application/anomaly.ts])

    The handlers work on the stored documents: the record written by the
    detection run, its identifier, and the fields of its life cycle.  A
    handler answers with a JSON body or hands an error to [next]. *)

Record AnomalyDoc : Type := mkAnomalyDoc {
  doc_id : Z;
  doc_anomaly : AnomalyRecord;
  acknowledgedAt : option Z;
  acknowledgedBy : option string;
  resolvedAt : option Z;
  resolvedBy : option string;
  (** [details.resolutionNotes] *)
  resolutionNotes : option string
}.

Definition doc_status (d : AnomalyDoc) : AnomalyStatus :=
  rec_status (doc_anomaly d).

Inductive ApiError : Type :=
| AppError (message : string) (statusCode : Z)
| StoreFailure (e : Error).

Inductive Reply (B : Type) : Type :=
| Json (status : Z) (body : B)
| Next (error : ApiError).
Arguments Json {B} status body.
Arguments Next {B} error.

Record ApiEnv : Type := mkApiEnv {
  (** whether [Anomaly.findById] rejects for this identifier *)
  Anomaly_findById_rejects : Z -> option Error;
  (** whether saving this document rejects *)
  AnomalyDoc_save_rejects : AnomalyDoc -> option Error;
  (** [User.findOne({ clerkUserId })], as the identifier of the user *)
  User_findOne : string -> Outcome (option Z);
  (** [SolarUnit.find({ userId })], as the identifiers of the units *)
  SolarUnit_find_of_user : Z -> Outcome (list Z);
  (** whether the counting queries reject *)
  Anomaly_count_rejects : option Error
}.

Definition AnomalyStatus_eqb (a b : AnomalyStatus) : bool :=
  match a, b with
  | ACTIVE, ACTIVE | ACKNOWLEDGED, ACKNOWLEDGED | RESOLVED, RESOLVED => true
  | _, _ => false
  end.

(** Assignment to [anomaly.status]. *)
Definition setStatus (r : AnomalyRecord) (st : AnomalyStatus)
    : AnomalyRecord :=
  {| rec_solarUnitId := rec_solarUnitId r;
     rec_anomalyType := rec_anomalyType r;
     rec_severity := rec_severity r;
     rec_status := st;
     rec_detectedAt := rec_detectedAt r;
     affectedPeriod_start := affectedPeriod_start r;
     affectedPeriod_end := affectedPeriod_end r;
     rec_confidence := rec_confidence r;
     rec_details := rec_details r |}.

(** [Anomaly.findById(id)] on the collection. *)
Definition findById (id : Z) (db : list AnomalyDoc) : option AnomalyDoc :=
  find (fun d => doc_id d =? id) db.

(** [anomaly.save()] of a loaded document: it replaces the stored
    document of that identifier. *)
Fixpoint saveDoc (d : AnomalyDoc) (db : list AnomalyDoc) : list AnomalyDoc :=
  match db with
  | [] => []
  | x :: db' =>
      if doc_id x =? doc_id d then d :: db' else x :: saveDoc d db'
  end.

(** JavaScript truthiness of an optional string. *)
Definition truthy (v : option string) : bool :=
  match v with
  | Some EmptyString | None => false
  | Some _ => true
  end.

Definition acknowledgeAnomaly (env : ApiEnv) (at_ : Z) (id : Z)
    (userId : option string) (db : list AnomalyDoc)
    : Reply AnomalyDoc * list AnomalyDoc :=
  match Anomaly_findById_rejects env id with
  | Some e => (Next (StoreFailure e), db)
  | None =>
      match findById id db with
      | None => (Next (AppError "Anomaly not found" 404), db)
      | Some anomaly =>
          if AnomalyStatus_eqb (doc_status anomaly) RESOLVED then
            (Next (AppError "Cannot acknowledge a resolved anomaly" 400), db)
          else
            let anomaly :=
              {| doc_id := doc_id anomaly;
                 doc_anomaly := setStatus (doc_anomaly anomaly) ACKNOWLEDGED;
                 acknowledgedAt := Some at_;
                 acknowledgedBy := userId;
                 resolvedAt := resolvedAt anomaly;
                 resolvedBy := resolvedBy anomaly;
                 resolutionNotes := resolutionNotes anomaly |} in
            match AnomalyDoc_save_rejects env anomaly with
            | Some e => (Next (StoreFailure e), db)
            | None => (Json 200 anomaly, saveDoc anomaly db)
            end
      end
  end.

Definition resolveAnomaly (env : ApiEnv) (at_ : Z) (id : Z)
    (userId : option string) (notes : option string) (db : list AnomalyDoc)
    : Reply AnomalyDoc * list AnomalyDoc :=
  match Anomaly_findById_rejects env id with
  | Some e => (Next (StoreFailure e), db)
  | None =>
      match findById id db with
      | None => (Next (AppError "Anomaly not found" 404), db)
      | Some anomaly =>
          let anomaly :=
            {| doc_id := doc_id anomaly;
               doc_anomaly := setStatus (doc_anomaly anomaly) RESOLVED;
               acknowledgedAt := acknowledgedAt anomaly;
               acknowledgedBy := acknowledgedBy anomaly;
               resolvedAt := Some at_;
               resolvedBy := userId;
               resolutionNotes :=
                 if truthy notes then notes else resolutionNotes anomaly |} in
          match AnomalyDoc_save_rejects env anomaly with
          | Some e => (Next (StoreFailure e), db)
          | None => (Json 200 anomaly, saveDoc anomaly db)
          end
      end
  end.

(** A request to one of the two handlers, with the time it is served. *)
Inductive LifecycleRequest : Type :=
| Acknowledge (at_ : Z) (id : Z) (userId : option string)
| Resolve (at_ : Z) (id : Z) (userId : option string) (notes : option string).

Definition serve (env : ApiEnv) (db : list AnomalyDoc)
    (req : LifecycleRequest) : list AnomalyDoc :=
  match req with
  | Acknowledge at_ id userId => snd (acknowledgeAnomaly env at_ id userId db)
  | Resolve at_ id userId notes =>
      snd (resolveAnomaly env at_ id userId notes db)
  end.

(** The order of the life cycle: ACTIVE, ACKNOWLEDGED, RESOLVED. *)
Definition statusRank (st : AnomalyStatus) : Z :=
  match st with ACTIVE => 0 | ACKNOWLEDGED => 1 | RESOLVED => 2 end.

(** [d'] is [d] further along its life cycle: same identifier, same
    detection data, a status that is not earlier. *)
Definition Advanced (d d' : AnomalyDoc) : Prop :=
  doc_id d' = doc_id d
  /\ doc_anomaly d' = setStatus (doc_anomaly d) (doc_status d')
  /\ statusRank (doc_status d) <= statusRank (doc_status d').

(** The body of the statistics reply. *)
Record AnomalyStats : Type := mkAnomalyStats {
  stats_active : nat;
  stats_acknowledged : nat;
  stats_resolved : nat;
  stats_critical : nat;
  stats_high : nat;
  stats_medium : nat;
  stats_low : nat;
  stats_byType : list (AnomalyType * nat);
  stats_total : nat
}.

(** [solarUnitFilter]: no condition, or membership of the unit. *)
Definition matchesUnits (filter : option (list Z)) (d : AnomalyDoc) : bool :=
  match filter with
  | None => true
  | Some ids => existsb (Z.eqb (rec_solarUnitId (doc_anomaly d))) ids
  end.

(** [Anomaly.countDocuments({ ...solarUnitFilter, ...cond })]. *)
Definition countDocuments (unitFilter : option (list Z))
    (cond : AnomalyDoc -> bool) (db : list AnomalyDoc) : nat :=
  length (filter (fun d => matchesUnits unitFilter d && cond d) db).

Definition hasStatus (st : AnomalyStatus) (d : AnomalyDoc) : bool :=
  AnomalyStatus_eqb (doc_status d) st.

(** [status: { $ne: RESOLVED }]. *)
Definition notResolved (d : AnomalyDoc) : bool := negb (hasStatus RESOLVED d).

Definition hasSeverity (sv : Severity) (d : AnomalyDoc) : bool :=
  Severity_eqb (rec_severity (doc_anomaly d)) sv.

Definition hasType (t : AnomalyType) (d : AnomalyDoc) : bool :=
  AnomalyType_eqb (rec_anomalyType (doc_anomaly d)) t.

(** The filter on the units of the caller: none for an anonymous caller,
    an unknown user or a user without units. *)
Definition solarUnitFilterOf (env : ApiEnv) (userId : option string)
    : Outcome (option (list Z)) :=
  match userId with
  | Some uid =>
      if truthy userId then
        match User_findOne env uid with
        | Throw e => Throw e
        | Ok None => Ok None
        | Ok (Some user) =>
            match SolarUnit_find_of_user env user with
            | Throw e => Throw e
            | Ok units =>
                if (0 <? length units)%nat then Ok (Some units) else Ok None
            end
        end
      else Ok None
  | None => Ok None
  end.

(** The aggregation [$match] / [$group] by type: one group per type that
    occurs among the matching documents (the order of the groups is not
    specified by the store; the order of the declaration is taken). *)
Definition groupByType (unitFilter : option (list Z)) (db : list AnomalyDoc)
    : list (AnomalyType * nat) :=
  filter (fun g => (0 <? snd g)%nat)
    (map (fun t =>
            (t, countDocuments unitFilter
                  (fun d => notResolved d && hasType t d) db))
       [COMPLETE_FAILURE; DEGRADATION; WEATHER_RELATED; SENSOR_MALFUNCTION]).

(** [acc[key] = value] on an object, as an association list. *)
Fixpoint object_set (acc : list (AnomalyType * nat)) (key : AnomalyType)
    (value : nat) : list (AnomalyType * nat) :=
  match acc with
  | [] => [(key, value)]
  | (k, v) :: acc' =>
      if AnomalyType_eqb k key then (k, value) :: acc'
      else (k, v) :: object_set acc' key value
  end.

Definition getAnomalyStats (env : ApiEnv) (userId : option string)
    (db : list AnomalyDoc) : Reply AnomalyStats :=
  match solarUnitFilterOf env userId with
  | Throw e => Next (StoreFailure e)
  | Ok solarUnitFilter =>
      match Anomaly_count_rejects env with
      | Some e => Next (StoreFailure e)
      | None =>
          let count := countDocuments solarUnitFilter in
          let totalActive := count (hasStatus ACTIVE) db in
          let totalAcknowledged := count (hasStatus ACKNOWLEDGED) db in
          let totalResolved := count (hasStatus RESOLVED) db in
          let bySeverity sv :=
            count (fun d => hasSeverity sv d && notResolved d) db in
          let byType := groupByType solarUnitFilter db in
          Json 200
            {| stats_active := totalActive;
               stats_acknowledged := totalAcknowledged;
               stats_resolved := totalResolved;
               stats_critical := bySeverity CRITICAL;
               stats_high := bySeverity HIGH;
               stats_medium := bySeverity MEDIUM;
               stats_low := bySeverity LOW;
               stats_byType :=
                 fold_left (fun acc item => object_set acc (fst item) (snd item))
                   byType [];
               stats_total := (totalActive + totalAcknowledged)%nat |}
      end
  end.

(** An API environment in which nothing rejects and no user is known,
    and two stored documents, used as concrete inputs. *)
Definition apiEnvQuiet : ApiEnv :=
  mkApiEnv (fun _ => None) (fun _ => None) (fun _ => Ok None)
    (fun _ => Ok []) None.

Definition docResolved : AnomalyDoc :=
  mkAnomalyDoc 7
    (mkAnomaly 1 DEGRADATION HIGH RESOLVED 0 0 86399999 (JS.num 0.85)
       (DegradationDetails (JS.num 0.44) (JS.num 0.68) 64 36))
    None None (Some 5) (Some "admin"%string) None.

Definition docActive : AnomalyDoc :=
  mkAnomalyDoc 8
    (mkAnomaly 1 COMPLETE_FAILURE CRITICAL ACTIVE 0 0 86399999 (JS.num 0.95)
       (FailureDetails (JS.num 0.4) 25 true))
    None None None None None.

(** ** Monthly invoices ([application/background/generate-invoices.ts])

    The job reads the calendar through the clock and the [Date]
    constructor, which are taken from the environment, as are the queries
    on solar units and generation records; the invoice collection is
    explicit state. *)

Inductive PaymentStatus : Type := PENDING | PAID | FAILED.

Record Invoice : Type := mkInvoice {
  inv_solarUnitId : Z;
  inv_userId : Z;
  invoiceNumber : string;
  billingPeriodStart : Z;
  billingPeriodEnd : Z;
  dueDate : Z;
  totalEnergyGenerated : Q;
  ratePerKwh : Q;
  amount : Q;
  paymentStatus : PaymentStatus
}.

(** What the job reads of a solar unit. *)
Record BilledUnit : Type := mkBilledUnit {
  bu_id : Z;
  bu_userId : Z;
  bu_serialNumber : string;
  installationDate : Z
}.

Definition DEFAULT_RATE_PER_KWH : Q := JS.num 0.12.
Definition DUE_DATE_DAYS : Z := 15.

Record InvoiceEnv : Type := mkInvoiceEnv {
  (** [now.getMonth()], 0 for January *)
  nowMonth : Z;
  (** [now.getFullYear()] *)
  nowYear : Z;
  (** [new Date(year, month, day, hours, minutes, seconds, ms)] *)
  Date_local : Z -> Z -> Z -> Z -> Z -> Z -> Z -> Z;
  (** [SolarUnit.find({ status: "ACTIVE" })] *)
  SolarUnit_find_billed : Outcome (list BilledUnit);
  (** whether [Invoice.findOne] rejects for this unit and period *)
  Invoice_findOne_rejects : Z -> Z -> Z -> option Error;
  (** the aggregation of the energy of a unit over a period: the
      [totalEnergyGenerated] of its groups *)
  Energy_aggregate : Z -> Z -> Z -> Outcome (list Q);
  (** whether [Invoice.countDocuments] rejects *)
  Invoice_count_rejects : option Error;
  (** whether saving this invoice rejects *)
  Invoice_save_rejects : Invoice -> option Error
}.

(** [String(n)] for a natural number. *)
Definition String_of_nat (n : nat) : string :=
  NilEmpty.string_of_uint (Nat.to_uint n).

Fixpoint zeros (n : nat) : string :=
  match n with
  | O => EmptyString
  | S n' => String "0"%char (zeros n')
  end.

(** [s.padStart(targetLength, "0")]. *)
Definition padStart (s : string) (targetLength : nat) : string :=
  append (zeros (targetLength - String.length s)) s.

(** The number of an invoice created when the collection holds [count]
    invoices. *)
Definition invoiceNumberFor (count : nat) : string :=
  append "INV-"%string (padStart (String_of_nat (count + 1)) 4).

Definition generateInvoiceNumber (env : InvoiceEnv) (invoices : list Invoice)
    : Outcome string :=
  match Invoice_count_rejects env with
  | Some e => Throw e
  | None =>
      let count := length invoices in
      Ok (invoiceNumberFor count)
  end.

(** Reading the number back: the digits after the prefix. *)
Definition invoiceNumberValue (number : string) : option nat :=
  match number with
  | String _ (String _ (String _ (String _ digits))) =>
      option_map Nat.of_uint (NilEmpty.uint_of_string digits)
  | _ => None
  end.

Definition billingMonth (env : InvoiceEnv) : Z :=
  if nowMonth env =? 0 then 11 else nowMonth env - 1.

Definition billingYear (env : InvoiceEnv) : Z :=
  if nowMonth env =? 0 then nowYear env - 1 else nowYear env.

Definition calculateBillingPeriod (env : InvoiceEnv) (installationDate : Z)
    : Z * Z :=
  let periodStart :=
    Date_local env (billingYear env) (billingMonth env) 1 0 0 0 0 in
  let effectiveStart :=
    if installationDate >? periodStart then installationDate
    else periodStart in
  let periodEnd :=
    Date_local env (billingYear env) (billingMonth env + 1) 0 23 59 59 999 in
  (effectiveStart, periodEnd).

(** The console lines of the job. *)
Inductive InvoiceLine : Type :=
| LineFound (units : nat)
| LineExists (serial : string)
| LineNoEnergy (serial : string)
| LineCreated (number serial : string) (energy amount : Q)
| LineUnitError (serial : string) (e : Error)
| LineCompleted (created skipped : nat)
| LineJobError (e : Error).

(** The collection, the two counters and the console during a run. *)
Record InvoiceRun : Type := mkInvoiceRun {
  run_invoices : list Invoice;
  invoicesCreated : nat;
  invoicesSkipped : nat;
  run_lines : list InvoiceLine
}.

(** [invoicesSkipped++; continue] after a console line. *)
Definition skipUnit (st : InvoiceRun) (line : InvoiceLine) : InvoiceRun :=
  {| run_invoices := run_invoices st;
     invoicesCreated := invoicesCreated st;
     invoicesSkipped := S (invoicesSkipped st);
     run_lines := run_lines st ++ [line] |}.

(** The filter [{ solarUnitId, billingPeriodStart, billingPeriodEnd }]. *)
Definition sameInvoicePeriod (unit from to : Z) (i : Invoice) : bool :=
  (inv_solarUnitId i =? unit)
  && (billingPeriodStart i =? from)
  && (billingPeriodEnd i =? to).

(** The body of the [try] inside the loop, for one unit. *)
Definition invoiceUnitBody (env : InvoiceEnv) (solarUnit : BilledUnit)
    (st : InvoiceRun) : Outcome InvoiceRun :=
  let '(billingPeriodStart, billingPeriodEnd) :=
    calculateBillingPeriod env (installationDate solarUnit) in
  match Invoice_findOne_rejects env (bu_id solarUnit) billingPeriodStart
          billingPeriodEnd with
  | Some e => Throw e
  | None =>
      match find (sameInvoicePeriod (bu_id solarUnit) billingPeriodStart
                    billingPeriodEnd) (run_invoices st) with
      | Some _ => Ok (skipUnit st (LineExists (bu_serialNumber solarUnit)))
      | None =>
          match Energy_aggregate env (bu_id solarUnit) billingPeriodStart
                  billingPeriodEnd with
          | Throw e => Throw e
          | Ok energyRecords =>
              let totalEnergyGenerated :=
                match energyRecords with
                | group :: _ => group
                | [] => 0%Q
                end in
              if Qeq_bool totalEnergyGenerated 0 then
                Ok (skipUnit st (LineNoEnergy (bu_serialNumber solarUnit)))
              else
                let ratePerKwh := DEFAULT_RATE_PER_KWH in
                let amount :=
                  JS.div
                    (JS.Math_round
                       (JS.mul (JS.mul totalEnergyGenerated ratePerKwh) 100))
                    100 in
                let dueDate := billingPeriodEnd + DUE_DATE_DAYS * MS_PER_DAY in
                match generateInvoiceNumber env (run_invoices st) with
                | Throw e => Throw e
                | Ok invoiceNumber =>
                    let invoice :=
                      {| inv_solarUnitId := bu_id solarUnit;
                         inv_userId := bu_userId solarUnit;
                         invoiceNumber := invoiceNumber;
                         billingPeriodStart := billingPeriodStart;
                         billingPeriodEnd := billingPeriodEnd;
                         dueDate := dueDate;
                         totalEnergyGenerated := totalEnergyGenerated;
                         ratePerKwh := ratePerKwh;
                         amount := amount;
                         paymentStatus := PENDING |} in
                    match Invoice_save_rejects env invoice with
                    | Some e => Throw e
                    | None =>
                        Ok {| run_invoices := run_invoices st ++ [invoice];
                              invoicesCreated := S (invoicesCreated st);
                              invoicesSkipped := invoicesSkipped st;
                              run_lines :=
                                run_lines st
                                ++ [LineCreated invoiceNumber
                                      (bu_serialNumber solarUnit)
                                      totalEnergyGenerated amount] |}
                    end
                end
          end
      end
  end.

(** One iteration: the body, and the [catch] that logs and goes on. *)
Definition invoiceUnit (env : InvoiceEnv) (st : InvoiceRun)
    (solarUnit : BilledUnit) : InvoiceRun :=
  match invoiceUnitBody env solarUnit st with
  | Ok st' => st'
  | Throw unitError =>
      {| run_invoices := run_invoices st;
         invoicesCreated := invoicesCreated st;
         invoicesSkipped := invoicesSkipped st;
         run_lines :=
           run_lines st
           ++ [LineUnitError (bu_serialNumber solarUnit) unitError] |}
  end.

Definition invoiceLoop (env : InvoiceEnv) (units : list BilledUnit)
    (st : InvoiceRun) : InvoiceRun :=
  fold_left (invoiceUnit env) units st.

Definition generateInvoices (env : InvoiceEnv) (invoices : list Invoice)
    : Outcome (nat * nat) * list Invoice * list InvoiceLine :=
  match SolarUnit_find_billed env with
  | Throw error => (Throw error, invoices, [LineJobError error])
  | Ok activeSolarUnits =>
      let st :=
        invoiceLoop env activeSolarUnits
          {| run_invoices := invoices;
             invoicesCreated := 0;
             invoicesSkipped := 0;
             run_lines := [LineFound (length activeSolarUnits)] |} in
      (Ok (invoicesCreated st, invoicesSkipped st), run_invoices st,
       run_lines st
       ++ [LineCompleted (invoicesCreated st) (invoicesSkipped st)])
  end.

(** The collection and the counters of a run, without the console. *)
Definition runCore (st : InvoiceRun) : list Invoice * nat * nat :=
  (run_invoices st, invoicesCreated st, invoicesSkipped st).

Definition isUnitError (line : InvoiceLine) : bool :=
  match line with LineUnitError _ _ => true | _ => false end.

(** The key by which the job looks for an existing invoice. *)
Definition invoiceKey (i : Invoice) : Z * Z * Z :=
  (inv_solarUnitId i, billingPeriodStart i, billingPeriodEnd i).

(** An invoice as the job creates it for one of [units], [count] being
    the size of the collection at that time. *)
Definition CreatedInvoice (env : InvoiceEnv) (units : list BilledUnit)
    (count : nat) (i : Invoice) : Prop :=
  paymentStatus i = PENDING
  /\ ~ (totalEnergyGenerated i == 0)%Q
  /\ ratePerKwh i = DEFAULT_RATE_PER_KWH
  /\ amount i
     = JS.div
         (JS.Math_round
            (JS.mul (JS.mul (totalEnergyGenerated i) DEFAULT_RATE_PER_KWH)
               100))
         100
  /\ dueDate i = billingPeriodEnd i + 15 * MS_PER_DAY
  /\ invoiceNumber i = invoiceNumberFor count
  /\ exists u,
       In u units
       /\ inv_solarUnitId i = bu_id u
       /\ inv_userId i = bu_userId u
       /\ (billingPeriodStart i, billingPeriodEnd i)
          = calculateBillingPeriod env (installationDate u)
       /\ exists groups,
            Energy_aggregate env (bu_id u) (billingPeriodStart i)
              (billingPeriodEnd i)
            = Ok (totalEnergyGenerated i :: groups).

(** A calendar in which every month has thirty days, and an environment
    with two units used as a concrete input: the first has produced
    120 kWh in the billing period, the aggregation of the second
    rejects. *)
Definition invoiceEnvSample : InvoiceEnv :=
  {| nowMonth := 0;
     nowYear := 2025;
     Date_local := fun y m d h mi s ms =>
       (((y * 12 + m) * 30 + (d - 1)) * 24 + h) * MS_PER_HOUR
       + mi * 60000 + s * 1000 + ms;
     SolarUnit_find_billed :=
       Ok [mkBilledUnit 2 20 "SU-B" 0; mkBilledUnit 1 10 "SU-A" 0];
     Invoice_findOne_rejects := fun _ _ _ => None;
     Energy_aggregate := fun unit _ _ =>
       if unit =? 1 then Ok [120%Q] else Throw "aggregation failed"%string;
     Invoice_count_rejects := None;
     Invoice_save_rejects := fun _ => None |}.

(** Nothing is left to bill for a unit: the look-up for its period
    answers, and either the collection has an invoice of the unit and the
    period or the aggregation returns no energy. *)
Definition BillingSettled (env : InvoiceEnv) (invoices : list Invoice)
    (u : BilledUnit) : Prop :=
  let '(from, to) := calculateBillingPeriod env (installationDate u) in
  Invoice_findOne_rejects env (bu_id u) from to = None
  /\ (find (sameInvoicePeriod (bu_id u) from to) invoices <> None
      \/ exists groups,
           Energy_aggregate env (bu_id u) from to = Ok groups
           /\ Qeq_bool (match groups with g :: _ => g | [] => 0%Q end) 0
              = true).

(** The sample environment with an aggregation that answers for every
    unit: the second unit has produced nothing. *)
Definition invoiceEnvQuiet : InvoiceEnv :=
  {| nowMonth := nowMonth invoiceEnvSample;
     nowYear := nowYear invoiceEnvSample;
     Date_local := Date_local invoiceEnvSample;
     SolarUnit_find_billed := SolarUnit_find_billed invoiceEnvSample;
     Invoice_findOne_rejects := fun _ _ _ => None;
     Energy_aggregate := fun unit _ _ =>
       if unit =? 1 then Ok [120%Q] else Ok [];
     Invoice_count_rejects := None;
     Invoice_save_rejects := fun _ => None |}.

(** ** The admin dashboard

    [getAdminDashboardStats] counts in four collections.  The eight
    counts are awaited together; [rejected] is the error of the first of
    them to reject, if any. *)

Record Collections : Type := mkCollections {
  (** the status of each solar unit *)
  col_solarUnits : list string;
  (** the number of users *)
  col_users : nat;
  col_invoices : list Invoice;
  col_anomalies : list AnomalyDoc
}.

Record DashboardStats : Type := mkDashboardStats {
  solarUnits_total : nat;
  solarUnits_active : nat;
  solarUnits_maintenance : nat;
  solarUnits_inactive : nat;
  users_total : nat;
  invoices_pending : nat;
  anomalies_total : nat;
  anomalies_critical : nat;
  anomalies_high : nat
}.

Definition isPending (i : Invoice) : bool :=
  match paymentStatus i with PENDING => true | _ => false end.

Definition getAdminDashboardStats (rejected : option Error)
    (c : Collections) : Reply DashboardStats :=
  match rejected with
  | Some error => Next (StoreFailure error)
  | None =>
      let activeSolarUnits :=
        length (filter (String.eqb "ACTIVE") (col_solarUnits c)) in
      let maintenanceSolarUnits :=
        length (filter (String.eqb "MAINTENANCE") (col_solarUnits c)) in
      let inactiveSolarUnits :=
        length (filter (String.eqb "INACTIVE") (col_solarUnits c)) in
      let totalUsers := col_users c in
      let pendingInvoices := length (filter isPending (col_invoices c)) in
      let criticalAnomalies :=
        countDocuments None
          (fun d => hasSeverity CRITICAL d && notResolved d)
          (col_anomalies c) in
      let highAnomalies :=
        countDocuments None (fun d => hasSeverity HIGH d && notResolved d)
          (col_anomalies c) in
      let totalActiveAnomalies :=
        countDocuments None notResolved (col_anomalies c) in
      let totalSolarUnits :=
        (activeSolarUnits + maintenanceSolarUnits + inactiveSolarUnits)%nat in
      Json 200
        {| solarUnits_total := totalSolarUnits;
           solarUnits_active := activeSolarUnits;
           solarUnits_maintenance := maintenanceSolarUnits;
           solarUnits_inactive := inactiveSolarUnits;
           users_total := totalUsers;
           invoices_pending := pendingInvoices;
           anomalies_total := totalActiveAnomalies;
           anomalies_critical := criticalAnomalies;
           anomalies_high := highAnomalies |}
  end.

(** Collections used as a concrete input. *)
Definition collectionsSample : Collections :=
  mkCollections ["ACTIVE"%string; "INACTIVE"%string; "ACTIVE"%string] 2 []
    [docResolved; docActive].

(** The degradation that [detectPanelDegradation] computes for a positive
    historical average. *)
Definition degradationOf (currentGeneration historicalAverage : Q) : Q :=
  JS.sub 100 (JS.mul (JS.div currentGeneration historicalAverage) 100).

(** * Properties

    ** Double precision *)

Lemma pow2_pos (e : Z) : (0 < 2 ^ e)%Q.
Proof. apply Qpower_0_lt. reflexivity. Qed.

Lemma pow2_plus (a b : Z) : (2 ^ (a + b) == 2 ^ a * 2 ^ b)%Q.
Proof. apply Qpower_plus. discriminate. Qed.

Lemma pow2_le (a b : Z) : a <= b -> (2 ^ a <= 2 ^ b)%Q.
Proof. intro H. apply Qpower_le_compat_l; [exact H | discriminate]. Qed.

Lemma pow2_lt (a b : Z) : a < b -> (2 ^ a < 2 ^ b)%Q.
Proof. intro H. apply Qpower_lt_compat_l; [exact H | reflexivity]. Qed.

Lemma pow2_Z (a : Z) : 0 <= a -> (inject_Z (2 ^ a) == 2 ^ a)%Q.
Proof. intro H. apply (Zpower_Qpower 2 a H). Qed.

Lemma ilog2_spec (x : Q) :
  ~ (x == 0)%Q ->
  (2 ^ JS.ilog2 x <= Qabs x)%Q /\ (Qabs x < 2 ^ (JS.ilog2 x + 1))%Q.
Proof.
  intro NZ. unfold JS.ilog2.
  set (n := Z.abs (Qnum x)). set (d := Zpos (Qden x)).
  assert (0 < n) as Hn.
  { unfold n. destruct x as [[| p | p] q]; cbn; try lia.
    exfalso. apply NZ. reflexivity. }
  assert (0 < d) as Hd by (unfold d; lia).
  set (a := Z.log2 n). set (b := Z.log2 d).
  pose proof (Z.log2_spec n Hn) as (La & Ua).
  pose proof (Z.log2_spec d Hd) as (Lb & Ub).
  fold a in La, Ua. fold b in Lb, Ub.
  assert (0 <= a) as A0 by apply Z.log2_nonneg.
  assert (0 <= b) as B0 by apply Z.log2_nonneg.
  assert (Qabs x == inject_Z n / inject_Z d)%Q as E.
  { unfold Qabs, n, d. destruct x as [xn xd]. cbn [Qnum Qden].
    apply Qmake_Qdiv. }
  assert (0 < inject_Z d)%Q as Dpos.
  { change 0%Q with (inject_Z 0). rewrite <- Zlt_Qlt. exact Hd. }
  assert (inject_Z n < 2 ^ (a + 1))%Q as Un.
  { rewrite <- pow2_Z by lia. rewrite <- Zlt_Qlt. exact Ua. }
  assert (2 ^ a <= inject_Z n)%Q as Ln.
  { rewrite <- pow2_Z by lia. rewrite <- Zle_Qle. exact La. }
  assert (inject_Z d < 2 ^ (b + 1))%Q as Ud.
  { rewrite <- pow2_Z by lia. rewrite <- Zlt_Qlt. exact Ub. }
  assert (2 ^ b <= inject_Z d)%Q as Ld.
  { rewrite <- pow2_Z by lia. rewrite <- Zle_Qle. exact Lb. }
  destruct (Qle_bool (2 ^ (a - b)) (Qabs x)) eqn:C.
  - apply Qle_bool_iff in C. split; [exact C |].
    rewrite E. apply Qlt_shift_div_r; [exact Dpos |].
    eapply Qlt_le_trans; [exact Un |].
    replace (a + 1) with ((a - b + 1) + b) by lia.
    rewrite pow2_plus. apply Qmult_le_l; [apply pow2_pos | exact Ld].
  - assert (Qabs x < 2 ^ (a - b))%Q as C'.
    { apply Qnot_le_lt. intro L. apply Qle_bool_iff in L. congruence. }
    split.
    + rewrite E. apply Qle_shift_div_l; [exact Dpos |].
      eapply Qle_trans; [| exact Ln].
      replace a with ((a - b - 1) + (b + 1)) at 2 by lia.
      rewrite pow2_plus. apply Qmult_le_l; [apply pow2_pos |].
      apply Qlt_le_weak, Ud.
    + replace (a - b - 1 + 1) with (a - b) by lia. exact C'.
Qed.

Lemma ilog2_unique (x : Q) (e : Z) :
  (2 ^ e <= Qabs x)%Q -> (Qabs x < 2 ^ (e + 1))%Q -> JS.ilog2 x = e.
Proof.
  intros L U.
  assert (~ (x == 0)%Q) as NZ.
  { intro Z0. rewrite Z0 in L. pose proof (pow2_pos e) as P.
    change (Qabs 0) with 0%Q in L. lra. }
  destruct (ilog2_spec x NZ) as (L' & U').
  assert (JS.ilog2 x < e + 1).
  { apply (Qpower_lt_compat_l_inv 2); [| reflexivity].
    eapply Qle_lt_trans; [exact L' | exact U]. }
  assert (e < JS.ilog2 x + 1).
  { apply (Qpower_lt_compat_l_inv 2); [| reflexivity].
    eapply Qle_lt_trans; [exact L | exact U']. }
  lia.
Qed.

Lemma ilog2_comp (x y : Q) : (x == y)%Q -> ~ (x == 0)%Q -> JS.ilog2 x = JS.ilog2 y.
Proof.
  intros E NZ. symmetry. destruct (ilog2_spec x NZ) as (L & U).
  apply ilog2_unique; rewrite <- E; assumption.
Qed.

Lemma ilog2_mono (x y : Q) :
  (0 < x)%Q -> (x <= y)%Q -> JS.ilog2 x <= JS.ilog2 y.
Proof.
  intros P L.
  assert (~ (x == 0)%Q) as NX by (intro E; rewrite E in P; discriminate P).
  assert (~ (y == 0)%Q) as NY by (intro E; rewrite E in L; lra).
  destruct (ilog2_spec x NX) as (Lx & _), (ilog2_spec y NY) as (_ & Uy).
  rewrite Qabs_pos in Lx by lra. rewrite Qabs_pos in Uy by lra.
  assert (JS.ilog2 x < JS.ilog2 y + 1); [| lia].
  apply (Qpower_lt_compat_l_inv 2); [| reflexivity]. lra.
Qed.

(** ** Nearest integer, ties to even *)

Lemma rne_cases (x : Q) :
  (JS.rne x = Qfloor x /\ (x - inject_Z (Qfloor x) <= 1 # 2)%Q)
  \/ (JS.rne x = Qfloor x + 1 /\ (1 # 2 <= x - inject_Z (Qfloor x))%Q).
Proof.
  unfold JS.rne.
  destruct (x - inject_Z (Qfloor x) ?= 1 # 2)%Q eqn:C.
  - apply Qeq_alt in C.
    destruct (Z.even (Qfloor x)); [left | right]; split; try reflexivity; lra.
  - apply Qlt_alt in C. left. split; [reflexivity | lra].
  - apply Qgt_alt in C. right. split; [reflexivity | lra].
Qed.

Lemma rne_bounds (x : Q) :
  (inject_Z (JS.rne x) - (1 # 2) <= x)%Q /\ (x <= inject_Z (JS.rne x) + (1 # 2))%Q.
Proof.
  pose proof (Qfloor_le x) as L. pose proof (Qlt_floor x) as U.
  rewrite inject_Z_plus in U. change (inject_Z 1) with 1%Q in U.
  destruct (rne_cases x) as [(-> & H) | (-> & H)].
  - split; lra.
  - rewrite inject_Z_plus. change (inject_Z 1) with 1%Q. split; lra.
Qed.

Lemma rne_comp (x y : Q) : (x == y)%Q -> JS.rne x = JS.rne y.
Proof.
  intro E. unfold JS.rne. rewrite (Qfloor_comp x y E).
  assert ((x - inject_Z (Qfloor y) ?= 1 # 2)%Q
          = (y - inject_Z (Qfloor y) ?= 1 # 2)%Q) as ->
    by (apply Qcompare_comp; [rewrite E |]; reflexivity).
  reflexivity.
Qed.

Lemma rne_inject_Z (z : Z) : JS.rne (inject_Z z) = z.
Proof.
  unfold JS.rne. rewrite Qfloor_Z.
  assert ((inject_Z z - inject_Z z ?= 1 # 2)%Q = Lt) as ->; [| reflexivity].
  apply (proj1 (Qlt_alt _ _)). set (q := inject_Z z). lra.
Qed.

Lemma rne_mono (x y : Q) : (x <= y)%Q -> JS.rne x <= JS.rne y.
Proof.
  intro L.
  destruct (Z.le_gt_cases (JS.rne x) (JS.rne y)) as [H | H]; [exact H |].
  exfalso.
  pose proof (rne_bounds x) as (Lx & _). pose proof (rne_bounds y) as (_ & Uy).
  assert (inject_Z (JS.rne y) + 1 <= inject_Z (JS.rne x))%Q as G.
  { change 1%Q with (inject_Z 1). rewrite <- inject_Z_plus, <- Zle_Qle. lia. }
  set (rx := inject_Z (JS.rne x)) in *. set (ry := inject_Z (JS.rne y)) in *.
  assert (x == y)%Q as E by lra.
  rewrite (rne_comp x y E) in H. lia.
Qed.

Lemma Qfloor_opp_frac (x : Q) :
  ~ (x == inject_Z (Qfloor x))%Q -> Qfloor (- x) = - Qfloor x - 1.
Proof.
  intro NI.
  pose proof (Qfloor_le x) as L. pose proof (Qlt_floor x) as U.
  rewrite inject_Z_plus in U. change (inject_Z 1) with 1%Q in U.
  pose proof (Qfloor_le (- x)) as L'. pose proof (Qlt_floor (- x)) as U'.
  rewrite inject_Z_plus in U'. change (inject_Z 1) with 1%Q in U'.
  assert (inject_Z (Qfloor x) < x)%Q as LS.
  { apply Qle_lt_or_eq in L. destruct L as [L | L]; [exact L |].
    exfalso. apply NI. symmetry. exact L. }
  assert (inject_Z (Qfloor (- x)) < inject_Z (- Qfloor x))%Q as A.
  { rewrite inject_Z_opp. lra. }
  assert (inject_Z (- Qfloor x - 2) < inject_Z (Qfloor (- x)))%Q as B.
  { unfold Z.sub. rewrite !inject_Z_plus, !inject_Z_opp.
    change (inject_Z 2) with 2%Q. lra. }
  rewrite <- Zlt_Qlt in A, B. lia.
Qed.

Lemma rne_opp (x : Q) : JS.rne (- x) = - JS.rne x.
Proof.
  destruct (Qeq_dec x (inject_Z (Qfloor x))) as [I | NI].
  - rewrite (rne_comp x _ I), rne_inject_Z.
    rewrite (rne_comp (- x) (inject_Z (- Qfloor x)))
      by (rewrite inject_Z_opp, <- I; reflexivity).
    apply rne_inject_Z.
  - pose proof (Qfloor_opp_frac x NI) as F.
    pose proof (Qfloor_le x) as L. pose proof (Qlt_floor x) as U.
    rewrite inject_Z_plus in U. change (inject_Z 1) with 1%Q in U.
    unfold JS.rne. rewrite F.
    set (f := Qfloor x) in *.
    assert (inject_Z (- f - 1) == - inject_Z f - 1)%Q as IE.
    { unfold Z.sub. rewrite inject_Z_plus, !inject_Z_opp. reflexivity. }
    destruct (x - inject_Z f ?= 1 # 2)%Q eqn:C.
    + apply Qeq_alt in C.
      assert ((- x - inject_Z (- f - 1) ?= 1 # 2)%Q = Eq) as ->
        by (apply (proj1 (Qeq_alt _ _)); rewrite IE; lra).
      replace (- f - 1) with (- (f + 1)) by lia.
      rewrite Z.even_opp, Z.even_add. cbn [Z.even].
      destruct (Z.even f); cbn; lia.
    + apply Qlt_alt in C.
      assert ((- x - inject_Z (- f - 1) ?= 1 # 2)%Q = Gt) as ->
        by (apply (proj1 (Qgt_alt _ _)); rewrite IE; lra).
      lia.
    + apply Qgt_alt in C.
      assert ((- x - inject_Z (- f - 1) ?= 1 # 2)%Q = Lt) as ->
        by (apply (proj1 (Qlt_alt _ _)); rewrite IE; lra).
      lia.
Qed.

(** ** Rounding to double precision *)

Lemma exponent_comp (x y : Q) :
  (x == y)%Q -> ~ (x == 0)%Q -> JS.exponent x = JS.exponent y.
Proof.
  intros E NZ. unfold JS.exponent. rewrite (ilog2_comp x y E NZ). reflexivity.
Qed.

Lemma nearest_zero (x : Q) : (x == 0)%Q -> (JS.nearest x == 0)%Q.
Proof.
  intro E. unfold JS.nearest.
  rewrite (rne_comp (x / 2 ^ JS.exponent x) (inject_Z 0)).
  - rewrite rne_inject_Z. ring.
  - change (inject_Z 0) with 0%Q. unfold Qdiv.
    transitivity (0 * / 2 ^ JS.exponent x)%Q; [| ring].
    apply Qmult_comp; [exact E | reflexivity].
Qed.

Lemma nearest_comp (x y : Q) : (x == y)%Q -> (JS.nearest x == JS.nearest y)%Q.
Proof.
  intro E. destruct (Qeq_dec x 0) as [Z0 | NZ].
  - rewrite (nearest_zero x Z0), (nearest_zero y); [reflexivity |].
    rewrite <- E. exact Z0.
  - unfold JS.nearest. rewrite (exponent_comp x y E NZ).
    rewrite (rne_comp (x / 2 ^ JS.exponent y) (y / 2 ^ JS.exponent y));
      [reflexivity |].
    unfold Qdiv. apply Qmult_comp; [exact E | reflexivity].
Qed.

#[global] Instance nearest_Proper : Proper (Qeq ==> Qeq) JS.nearest.
Proof. intros x y E. apply nearest_comp, E. Qed.

Lemma ilog2_opp (x : Q) : JS.ilog2 (- x) = JS.ilog2 x.
Proof.
  destruct (Qeq_dec x 0) as [Z0 | NZ].
  - destruct x as [[| p | p] d]; [reflexivity | discriminate Z0 ..].
  - destruct (ilog2_spec x NZ) as (L & U).
    apply ilog2_unique; rewrite Qabs_opp; assumption.
Qed.

Lemma nearest_opp (x : Q) : (JS.nearest (- x) == - JS.nearest x)%Q.
Proof.
  unfold JS.nearest, JS.exponent. rewrite ilog2_opp.
  set (s := Z.max _ _).
  rewrite (rne_comp (- x / 2 ^ s) (- (x / 2 ^ s)))
    by (unfold Qdiv; ring).
  rewrite rne_opp, inject_Z_opp. ring.
Qed.

Lemma nearest_nonneg (x : Q) : (0 <= x)%Q -> (0 <= JS.nearest x)%Q.
Proof.
  intro P. unfold JS.nearest. set (s := JS.exponent x).
  pose proof (pow2_pos s) as PS.
  apply Qmult_le_0_compat; [| lra].
  change 0%Q with (inject_Z 0). rewrite <- Zle_Qle.
  rewrite <- (rne_inject_Z 0). apply rne_mono.
  change (inject_Z 0) with 0%Q. apply Qle_shift_div_l; [exact PS | lra].
Qed.

Lemma exponent_mono (x y : Q) :
  (0 < x)%Q -> (x <= y)%Q -> JS.exponent x <= JS.exponent y.
Proof.
  intros P L. unfold JS.exponent. pose proof (ilog2_mono x y P L). lia.
Qed.

Lemma nearest_mono_pos (x y : Q) :
  (0 < x)%Q -> (x <= y)%Q -> (JS.nearest x <= JS.nearest y)%Q.
Proof.
  intros P L.
  pose proof (exponent_mono x y P L) as S.
  assert (~ (x == 0)%Q) as NX by (intro E; rewrite E in P; discriminate P).
  assert (~ (y == 0)%Q) as NY by (intro E; rewrite E in L; lra).
  destruct (ilog2_spec x NX) as (_ & Ux), (ilog2_spec y NY) as (Ly & _).
  rewrite Qabs_pos in Ux by lra. rewrite Qabs_pos in Ly by lra.
  unfold JS.nearest.
  set (sx := JS.exponent x) in *. set (sy := JS.exponent y) in *.
  pose proof (pow2_pos sx) as PX. pose proof (pow2_pos sy) as PY.
  destruct (Z.eq_dec sx sy) as [E | NE].
  - rewrite E. apply Qmult_le_compat_r; [| lra].
    rewrite <- Zle_Qle. apply rne_mono.
    apply Qmult_le_compat_r; [exact L |].
    apply Qlt_le_weak, Qinv_lt_0_compat, PY.
  - assert (sx < sy) as LT by lia.
    assert (sy = JS.ilog2 y - 52) as SY by (unfold sy, sx, JS.exponent in *; lia).
    assert (JS.ilog2 x - 52 <= sx) as SX by (unfold sx, JS.exponent; lia).
    set (ey := JS.ilog2 y) in *. set (ex := JS.ilog2 x) in *.
    (* both sides compared with 2 ^ ey *)
    apply Qle_trans with (2 ^ ey)%Q.
    + assert (0 <= ey - sx) as K by lia.
      assert (inject_Z (JS.rne (x / 2 ^ sx)) <= inject_Z (2 ^ (ey - sx)))%Q as B.
      { rewrite <- Zle_Qle. rewrite <- (rne_inject_Z (2 ^ (ey - sx))).
        apply rne_mono. rewrite pow2_Z by exact K.
        apply Qle_shift_div_r; [exact PX |].
        rewrite <- pow2_plus. replace (ey - sx + sx) with ey by lia.
        apply Qlt_le_weak. eapply Qlt_le_trans; [exact Ux |].
        apply pow2_le. lia. }
      rewrite pow2_Z in B by exact K.
      assert (2 ^ ey == 2 ^ (ey - sx) * 2 ^ sx)%Q as EQ
        by (rewrite <- pow2_plus; replace (ey - sx + sx) with ey by lia;
            reflexivity).
      rewrite EQ. apply Qmult_le_compat_r; [exact B | lra].
    + assert (inject_Z (2 ^ 52) <= inject_Z (JS.rne (y / 2 ^ sy)))%Q as B.
      { rewrite <- Zle_Qle. rewrite <- (rne_inject_Z (2 ^ 52)) at 1.
        apply rne_mono. rewrite pow2_Z by lia.
        apply Qle_shift_div_l; [exact PY |].
        rewrite <- pow2_plus. replace (52 + sy) with ey by lia. exact Ly. }
      rewrite pow2_Z in B by lia.
      assert (2 ^ ey == 2 ^ 52 * 2 ^ sy)%Q as EQ
        by (rewrite <- pow2_plus; replace (52 + sy) with ey by lia;
            reflexivity).
      rewrite EQ. apply Qmult_le_compat_r; [exact B | lra].
Qed.

Lemma nearest_mono (x y : Q) : (x <= y)%Q -> (JS.nearest x <= JS.nearest y)%Q.
Proof.
  intro L.
  destruct (Qlt_le_dec 0 x) as [PX | NX].
  - apply nearest_mono_pos; assumption.
  - destruct (Qlt_le_dec y 0) as [NY | PY].
    + assert (JS.nearest (- y) <= JS.nearest (- x))%Q as H
        by (apply nearest_mono_pos; lra).
      rewrite !nearest_opp in H. lra.
    + pose proof (nearest_nonneg y PY) as RY.
      assert (0 <= JS.nearest (- x))%Q as RX by (apply nearest_nonneg; lra).
      rewrite nearest_opp in RX. lra.
Qed.

(** A rounded value is not changed by rounding it again. *)
Lemma nearest_idem_pos (x : Q) :
  (0 < x)%Q -> (JS.nearest (JS.nearest x) == JS.nearest x)%Q.
Proof.
  intro P.
  assert (~ (x == 0)%Q) as NX by (intro E; rewrite E in P; discriminate P).
  destruct (ilog2_spec x NX) as (Lx & Ux).
  rewrite Qabs_pos in Lx, Ux by lra.
  pose proof (nearest_nonneg x (Qlt_le_weak _ _ P)) as R0.
  unfold JS.nearest at 2 3. unfold JS.nearest in R0.
  set (s := JS.exponent x) in *. set (m := JS.rne (x / 2 ^ s)) in *.
  pose proof (pow2_pos s) as PS.
  assert (-1074 <= s) as S0 by (unfold s, JS.exponent; lia).
  assert (0 <= m) as M0.
  { unfold m. rewrite <- (rne_inject_Z 0). apply rne_mono.
    change (inject_Z 0) with 0%Q. apply Qle_shift_div_l; [exact PS | lra]. }
  assert (m <= 2 ^ 53) as M1.
  { unfold m. rewrite <- (rne_inject_Z (2 ^ 53)). apply rne_mono.
    rewrite pow2_Z by lia. apply Qle_shift_div_r; [exact PS |].
    rewrite <- pow2_plus. apply Qlt_le_weak.
    eapply Qlt_le_trans; [exact Ux |]. apply pow2_le.
    unfold s, JS.exponent. lia. }
  assert (JS.ilog2 x - 52 = s -> 2 ^ 52 <= m) as M2.
  { intro E. unfold m. rewrite <- (rne_inject_Z (2 ^ 52)). apply rne_mono.
    rewrite pow2_Z by lia. apply Qle_shift_div_l; [exact PS |].
    rewrite <- pow2_plus. replace (52 + s) with (JS.ilog2 x) by lia.
    exact Lx. }
  set (r := (inject_Z m * 2 ^ s)%Q) in *.
  destruct (Z.eq_dec m 0) as [Z0 | NZ].
  { assert (r == 0)%Q as E by (unfold r; rewrite Z0; ring).
    rewrite (nearest_zero r E). symmetry. exact E. }
  assert (forall k, 0 <= k -> 2 ^ k <= m -> (2 ^ (k + s) <= r)%Q) as LB.
  { intros k K Hk. unfold r. rewrite pow2_plus.
    apply Qmult_le_compat_r; [| apply Qlt_le_weak, PS].
    rewrite <- pow2_Z by exact K. rewrite <- Zle_Qle. exact Hk. }
  assert (forall k, 0 <= k -> m < 2 ^ k -> (r < 2 ^ (k + s))%Q) as UB.
  { intros k K Hk. unfold r. rewrite pow2_plus.
    apply Qmult_lt_compat_r; [exact PS |].
    rewrite <- pow2_Z by exact K. rewrite <- Zlt_Qlt. exact Hk. }
  assert (0 < r)%Q as RP.
  { assert (1 <= m) as M by lia.
    pose proof (LB 0 (Z.le_refl 0) M) as B.
    pose proof (pow2_pos (0 + s)) as B'.
    eapply Qlt_le_trans; [exact B' | exact B]. }
  assert (Qabs r == r)%Q as AR by (apply Qabs_pos; lra).
  assert (forall s', JS.exponent r = s' -> s' = s ->
                     (inject_Z (JS.rne (r / 2 ^ s')) * 2 ^ s' == r)%Q) as Same.
  { intros s' _ ->.
    rewrite (rne_comp (r / 2 ^ s) (inject_Z m))
      by (unfold r; field; lra).
    rewrite rne_inject_Z. reflexivity. }
  unfold JS.nearest. set (s' := JS.exponent r).
  destruct (Z.eq_dec m (2 ^ 53)) as [Top | NTop].
  - (* rounded up to the next power of two *)
    assert (JS.ilog2 r = 53 + s) as IL.
    { apply ilog2_unique; rewrite AR.
      - apply LB; lia.
      - replace (53 + s + 1) with (54 + s) by lia. apply UB; [lia |].
        rewrite Top. apply Z.pow_lt_mono_r; lia. }
    assert (s' = s + 1) as -> by (unfold s', JS.exponent; lia).
    rewrite (rne_comp (r / 2 ^ (s + 1)) (inject_Z (2 ^ 52))).
    + rewrite rne_inject_Z. unfold r. rewrite Top, pow2_plus.
      change (inject_Z (2 ^ 53)) with (inject_Z (2 ^ 52) * 2)%Q.
      change (2 ^ 1)%Q with 2%Q. ring.
    + unfold r. rewrite Top, pow2_plus.
      change (inject_Z (2 ^ 53)) with (inject_Z (2 ^ 52) * 2)%Q.
      change (2 ^ 1)%Q with 2%Q. field. lra.
  - destruct (Z.le_gt_cases (2 ^ 52) m) as [Norm | Sub].
    + assert (JS.ilog2 r = 52 + s) as IL.
      { apply ilog2_unique; rewrite AR.
        - apply LB; [lia | exact Norm].
        - replace (52 + s + 1) with (53 + s) by lia. apply UB; lia. }
      apply Same; [reflexivity |]. unfold s', JS.exponent. lia.
    + assert (s = -1074) as SV.
      { unfold s, JS.exponent in *. lia. }
      assert (JS.ilog2 r < 52 + s) as IL.
      { assert (~ (r == 0)%Q) as NR by lra.
        destruct (ilog2_spec r NR) as (Lr & _). rewrite AR in Lr.
        apply (Qpower_lt_compat_l_inv 2); [| reflexivity].
        eapply Qle_lt_trans; [exact Lr |]. apply UB; lia. }
      apply Same; [reflexivity |]. unfold s', JS.exponent. lia.
Qed.

Lemma nearest_idem (x : Q) : (JS.nearest (JS.nearest x) == JS.nearest x)%Q.
Proof.
  destruct (Qlt_le_dec 0 x) as [P | N].
  - apply nearest_idem_pos, P.
  - destruct (Qeq_dec x 0) as [Z0 | NZ].
    + rewrite (nearest_zero x Z0). apply nearest_zero. reflexivity.
    + assert (0 < - x)%Q as P by lra.
      pose proof (nearest_idem_pos (- x) P) as H.
      rewrite (nearest_comp (JS.nearest (- x)) (- JS.nearest x) (nearest_opp x)) in H.
      rewrite !nearest_opp in H. lra.
Qed.

(** [JS.round] is [JS.nearest] in lowest terms. *)
Lemma round_nearest (x : Q) : (JS.round x == JS.nearest x)%Q.
Proof. unfold JS.round. apply Qred_correct. Qed.

Lemma round_zero (x : Q) : (x == 0)%Q -> (JS.round x == 0)%Q.
Proof. intro E. rewrite round_nearest. apply nearest_zero, E. Qed.

Lemma round_comp (x y : Q) : (x == y)%Q -> (JS.round x == JS.round y)%Q.
Proof. intro E. rewrite !round_nearest. apply nearest_comp, E. Qed.

#[global] Instance round_Proper : Proper (Qeq ==> Qeq) JS.round.
Proof. intros x y E. apply round_comp, E. Qed.

Lemma round_opp (x : Q) : (JS.round (- x) == - JS.round x)%Q.
Proof. rewrite !round_nearest. apply nearest_opp. Qed.

Lemma round_nonneg (x : Q) : (0 <= x)%Q -> (0 <= JS.round x)%Q.
Proof. intro P. rewrite round_nearest. apply nearest_nonneg, P. Qed.

Lemma round_mono (x y : Q) : (x <= y)%Q -> (JS.round x <= JS.round y)%Q.
Proof. intro L. rewrite !round_nearest. apply nearest_mono, L. Qed.

Lemma round_idem (x : Q) : (JS.round (JS.round x) == JS.round x)%Q.
Proof.
  rewrite (round_comp (JS.round x) (JS.nearest x) (round_nearest x)).
  rewrite !round_nearest. apply nearest_idem.
Qed.

(** Rounding against a double. *)
Lemma round_isDouble (x : Q) : isDouble (JS.round x).
Proof. unfold isDouble. exact (round_idem x). Qed.

Lemma round_le_double (x c : Q) :
  isDouble c -> (x <= c)%Q -> (JS.round x <= c)%Q.
Proof.
  intros D L. unfold isDouble in D. rewrite <- D. apply round_mono, L.
Qed.

Lemma double_le_round (x c : Q) :
  isDouble c -> (c <= x)%Q -> (c <= JS.round x)%Q.
Proof.
  intros D L. unfold isDouble in D. rewrite <- D. apply round_mono, L.
Qed.

Lemma Qabs_scaled (k e : Z) :
  (Qabs (inject_Z k * 2 ^ e) == inject_Z (Z.abs k) * 2 ^ e)%Q.
Proof.
  rewrite Qabs_Qmult. rewrite (Qabs_pos (2 ^ e)).
  - reflexivity.
  - apply Qlt_le_weak, pow2_pos.
Qed.

(** A multiple of a power of two with a multiplier below [2 ^ 53] and an
    exponent of at least -1074 is a double. *)
Lemma isDouble_scaled (k e : Z) :
  Z.abs k < 2 ^ 53 -> -1074 <= e -> isDouble (inject_Z k * 2 ^ e).
Proof.
  intros K E. unfold isDouble. rewrite round_nearest.
  destruct (Z.eq_dec k 0) as [-> | NZ].
  { assert (inject_Z 0 * 2 ^ e == 0)%Q as Z0 by ring.
    rewrite (nearest_zero _ Z0). symmetry. exact Z0. }
  set (x := (inject_Z k * 2 ^ e)%Q).
  pose proof (pow2_pos e) as Pe.
  assert (~ (x == 0)%Q) as NX.
  { unfold x. intro Z0. apply Qmult_integral in Z0.
    destruct Z0 as [Z0 | Z0]; [| lra].
    apply NZ. unfold Qeq in Z0. cbn in Z0. lia. }
  destruct (ilog2_spec x NX) as (L & _).
  assert (JS.ilog2 x < 53 + e) as I.
  { apply (Qpower_lt_compat_l_inv 2); [| reflexivity].
    eapply Qle_lt_trans; [exact L |]. unfold x. rewrite Qabs_scaled.
    rewrite pow2_plus. apply Qmult_lt_compat_r; [exact Pe |].
    rewrite <- pow2_Z by lia. rewrite <- Zlt_Qlt. exact K. }
  unfold JS.nearest. set (s := JS.exponent x).
  assert (s <= e) as S by (unfold s, JS.exponent; lia).
  pose proof (pow2_pos s) as Ps.
  assert (2 ^ e == inject_Z (2 ^ (e - s)) * 2 ^ s)%Q as P.
  { rewrite pow2_Z by lia. rewrite <- pow2_plus.
    replace (e - s + s) with e by lia. reflexivity. }
  assert (x / 2 ^ s == inject_Z (k * 2 ^ (e - s)))%Q as D.
  { unfold x. rewrite P, inject_Z_mult. field. lra. }
  rewrite (rne_comp _ _ D), rne_inject_Z.
  unfold x. rewrite P, inject_Z_mult. ring.
Qed.

Lemma isDouble_int (z : Z) : Z.abs z < 2 ^ 53 -> isDouble (inject_Z z).
Proof.
  intro H. pose proof (isDouble_scaled z 0 H ltac:(lia)) as D.
  unfold isDouble in *.
  assert (inject_Z z * 2 ^ 0 == inject_Z z)%Q as E by (cbn; ring).
  rewrite E in D. exact D.
Qed.

(** ** Rounding errors *)

(** The error of a rounding is at most half a unit in the last place. *)
Lemma round_error (x : Q) :
  (Qabs (JS.round x - x) <= 2 ^ JS.exponent x * (1 # 2))%Q.
Proof.
  rewrite round_nearest. unfold JS.nearest.
  set (s := JS.exponent x). pose proof (pow2_pos s) as P.
  pose proof (rne_bounds (x / 2 ^ s)) as (L & U).
  set (r := inject_Z (JS.rne (x / 2 ^ s))) in *.
  assert (x == x / 2 ^ s * 2 ^ s)%Q as E by (field; lra).
  set (y := (x / 2 ^ s)%Q) in *. set (p := (2 ^ s)%Q) in *.
  apply Qabs_Qle_condition. split; nra.
Qed.

(** The unit in the last place of a number is at most [2 ^ -52] times the
    number, unless it is that of the subnormal numbers. *)
Lemma exponent_cases (x : Q) :
  ~ (x == 0)%Q ->
  (2 ^ JS.exponent x <= Qabs x * 2 ^ (-52))%Q \/ JS.exponent x = -1074.
Proof.
  intro NZ. unfold JS.exponent.
  destruct (Z.max_spec (JS.ilog2 x - 52) (-1074)) as [(_ & ->) | (_ & ->)];
    [right; reflexivity | left].
  destruct (ilog2_spec x NZ) as (L & _).
  replace (JS.ilog2 x - 52) with (JS.ilog2 x + -52) by lia.
  rewrite pow2_plus. apply Qmult_le_compat_r; [exact L |].
  apply Qlt_le_weak, pow2_pos.
Qed.

Lemma round_below_least (x : Q) :
  (0 <= x)%Q -> (x <= 2 ^ (-1075))%Q -> (JS.round x == 0)%Q.
Proof.
  intros L U. apply Qle_antisym.
  - assert (JS.round (2 ^ (-1075)) == 0)%Q as <- by (vm_compute; reflexivity).
    apply round_mono, U.
  - apply round_nonneg, L.
Qed.

(** Rounding at most doubles a number. *)
Lemma round_le_twice (x : Q) : (0 <= x)%Q -> (JS.round x <= 2 * x)%Q.
Proof.
  intro L. destruct (Qlt_le_dec (2 ^ (-1075)) x) as [B | B].
  - assert (~ (x == 0)%Q) as NZ.
    { intro Z0. rewrite Z0 in B. pose proof (pow2_pos (-1075)). lra. }
    pose proof (round_error x) as E. apply Qabs_Qle_condition in E.
    destruct (exponent_cases x NZ) as [C | C].
    + rewrite Qabs_pos in C by exact L.
      assert (2 ^ (-52) == 1 # 4503599627370496)%Q as P by reflexivity.
      rewrite P in C. set (p := (2 ^ JS.exponent x)%Q) in *. lra.
    + rewrite C in E.
      assert (2 ^ (-1074) * (1 # 2) == 2 ^ (-1075))%Q as P.
      { replace (-1074) with (-1075 + 1) by lia. rewrite pow2_plus.
        change (2 ^ 1)%Q with 2%Q. field. }
      rewrite P in E. set (t := (2 ^ (-1075))%Q) in *. lra.
  - rewrite (round_below_least x L B). lra.
Qed.

Lemma round_abs_le_twice (x : Q) : (Qabs (JS.round x) <= 2 * Qabs x)%Q.
Proof.
  destruct (Qlt_le_dec x 0) as [N | P].
  - assert (JS.round x == - JS.round (- x))%Q as E.
    { rewrite (round_opp x). ring. }
    pose proof (round_le_twice (- x) ltac:(lra)) as T.
    pose proof (round_nonneg (- x) ltac:(lra)) as R.
    rewrite E, Qabs_opp, (Qabs_pos _ R), (Qabs_neg x) by lra. exact T.
  - rewrite (Qabs_pos x P), (Qabs_pos _ (round_nonneg x P)).
    apply round_le_twice, P.
Qed.

(** The error of a rounding next to a number [v] of the normal range. *)
Lemma round_error_near (x v : Q) :
  (2 ^ (-1023) <= v)%Q ->
  (Qabs (JS.round x - x)
   <= Qabs x * (1 # 9007199254740992) + v * (1 # 4503599627370496))%Q.
Proof.
  intro V. pose proof (Qabs_nonneg x) as A.
  destruct (Qeq_dec x 0) as [Z0 | NZ].
  { rewrite (round_zero x Z0), Z0.
    pose proof (pow2_pos (-1023)).
    change (Qabs (0 - 0)) with 0%Q. change (Qabs 0) with 0%Q.
    set (t := (2 ^ (-1023))%Q) in *. lra. }
  pose proof (round_error x) as E.
  destruct (exponent_cases x NZ) as [C | C].
  - assert (2 ^ (-52) == 1 # 4503599627370496)%Q as P by reflexivity.
    rewrite P in C. set (p := (2 ^ JS.exponent x)%Q) in *.
    pose proof (pow2_pos (-1023)). set (t := (2 ^ (-1023))%Q) in *.
    set (a := Qabs x) in *. set (err := Qabs (JS.round x - x)) in *. lra.
  - rewrite C in E.
    assert (2 ^ (-1074) * (1 # 2) == 2 ^ (-1023) * (1 # 4503599627370496))%Q
      as P.
    { assert (1 # 4503599627370496 == 2 ^ (-52))%Q as -> by reflexivity.
      rewrite <- pow2_plus.
      replace (-1074) with (-1075 + 1) by lia. rewrite pow2_plus.
      change (2 ^ 1)%Q with 2%Q.
      replace (-1023 + -52) with (-1075) by lia. field. }
    rewrite P in E. set (t := (2 ^ (-1023))%Q) in *.
    set (a := Qabs x) in *. set (err := Qabs (JS.round x - x)) in *. lra.
Qed.

(** ** The square root *)

Lemma Math_sqrt_nonpos (v : Q) : (v <= 0)%Q -> JS.Math_sqrt v = 0%Q.
Proof.
  intro H. unfold JS.Math_sqrt.
  rewrite (proj2 (Qle_bool_iff v 0) H). reflexivity.
Qed.

(** The computed root is not negative and its square at most twice the
    number. *)
Lemma Math_sqrt_bounds (v : Q) :
  (0 <= JS.Math_sqrt v)%Q
  /\ (JS.Math_sqrt v * JS.Math_sqrt v <= 2 * Qabs v)%Q.
Proof.
  destruct (Qlt_le_dec 0 v) as [P | N].
  2: { rewrite (Math_sqrt_nonpos v N). pose proof (Qabs_nonneg v).
       split; lra. }
  unfold JS.Math_sqrt.
  assert (Qle_bool v 0 = false) as ->.
  { apply not_true_is_false. rewrite Qle_bool_iff. lra. }
  cbv zeta.
  set (s := JS.ilog2 v / 2 - 52).
  set (y := (v / 2 ^ (2 * s))%Q).
  set (m := Z.sqrt (Qfloor y)).
  set (m' := match (y ?= _)%Q with Lt => m | Gt => m + 1 | Eq => _ end).
  rewrite !Qred_correct.
  pose proof (pow2_pos s) as Ps. pose proof (pow2_pos (2 * s)) as P2s.
  assert (~ (v == 0)%Q) as NZ by lra.
  destruct (ilog2_spec v NZ) as (L & _). rewrite Qabs_pos in L by lra.
  assert (2 ^ 104 <= y)%Q as Y.
  { unfold y. apply Qle_shift_div_l; [exact P2s |].
    rewrite <- pow2_plus. eapply Qle_trans; [| exact L].
    apply pow2_le. unfold s.
    pose proof (Z.div_mod (JS.ilog2 v) 2 ltac:(lia)).
    pose proof (Z.mod_pos_bound (JS.ilog2 v) 2 ltac:(lia)). lia. }
  assert (9 <= Qfloor y) as F9.
  { rewrite <- (Qfloor_Z 9). apply Qfloor_resp_le.
    eapply Qle_trans; [| exact Y]. vm_compute. discriminate. }
  assert (0 <= Qfloor y) as F0 by lia.
  pose proof (Z.sqrt_spec (Qfloor y) F0) as (Lm & Um). fold m in Lm, Um.
  assert (3 <= m) as M3.
  { change 3 with (Z.sqrt 9). apply Z.sqrt_le_mono. exact F9. }
  assert (0 <= m' <= m + 1) as Mm.
  { unfold m'. destruct (y ?= _)%Q; [destruct (Z.even m) | |]; lia. }
  assert (m' * m' <= 2 * Qfloor y) as Sq by nia.
  assert (inject_Z (m' * m') <= 2 * y)%Q as SqQ.
  { eapply Qle_trans; [rewrite Zle_Qle in Sq; exact Sq |].
    rewrite inject_Z_mult. pose proof (Qfloor_le y).
    change (inject_Z 2) with 2%Q. lra. }
  split.
  - apply Qmult_le_0_compat; [| lra].
    change 0%Q with (inject_Z 0). rewrite <- Zle_Qle. lia.
  - rewrite Qabs_pos by lra.
    assert (v == y * 2 ^ (2 * s))%Q as ->.
    { unfold y. field. lra. }
    assert (2 ^ (2 * s) == 2 ^ s * 2 ^ s)%Q as ->.
    { replace (2 * s) with (s + s) by lia. apply pow2_plus. }
    rewrite inject_Z_mult in SqQ.
    set (q := inject_Z m') in *. set (p := (2 ^ s)%Q) in *.
    assert (0 < p * p)%Q by nra. nra.
Qed.

(** ** Operations on equal numbers *)

#[global] Instance add_Proper : Proper (Qeq ==> Qeq ==> Qeq) JS.add.
Proof.
  intros x x' E y y' F. unfold JS.add. apply round_comp.
  rewrite E, F. reflexivity.
Qed.

#[global] Instance sub_Proper : Proper (Qeq ==> Qeq ==> Qeq) JS.sub.
Proof.
  intros x x' E y y' F. unfold JS.sub. apply round_comp.
  rewrite E, F. reflexivity.
Qed.

#[global] Instance mul_Proper : Proper (Qeq ==> Qeq ==> Qeq) JS.mul.
Proof.
  intros x x' E y y' F. unfold JS.mul. apply round_comp.
  rewrite E, F. reflexivity.
Qed.

#[global] Instance isDouble_Proper : Proper (Qeq ==> iff) isDouble.
Proof.
  intros x y E. unfold isDouble. rewrite (round_comp x y E), E. reflexivity.
Qed.

(** A subnormal double is a multiple of the least one. *)
Lemma isDouble_subnormal (v : Q) :
  isDouble v -> (0 < v)%Q -> (v < 2 ^ (-1023))%Q ->
  exists k, 0 < k < 2 ^ 51 /\ (v == inject_Z k * 2 ^ (-1074))%Q.
Proof.
  intros D P U. unfold isDouble in D. rewrite round_nearest in D.
  assert (~ (v == 0)%Q) as NZ by lra.
  destruct (ilog2_spec v NZ) as (L & _). rewrite Qabs_pos in L by lra.
  assert (JS.ilog2 v < -1023) as I.
  { apply (Qpower_lt_compat_l_inv 2); [| reflexivity].
    eapply Qle_lt_trans; [exact L | exact U]. }
  unfold JS.nearest in D.
  assert (JS.exponent v = -1074) as S by (unfold JS.exponent; lia).
  rewrite S in D. set (k := JS.rne (v / 2 ^ (-1074))) in *.
  exists k. pose proof (pow2_pos (-1074)) as P0.
  assert (0 < inject_Z k)%Q as K0.
  { set (t := (2 ^ (-1074))%Q) in *. set (q := inject_Z k) in *.
    assert (0 < q * t)%Q as H by lra.
    destruct (Qlt_le_dec 0 q) as [G | G]; [exact G | exfalso; nra]. }
  assert (inject_Z k < inject_Z (2 ^ 51))%Q as K1.
  { rewrite pow2_Z by lia.
    assert (2 ^ (-1023) == 2 ^ 51 * 2 ^ (-1074))%Q as E
      by (rewrite <- pow2_plus; reflexivity).
    rewrite E, <- D in U.
    apply Qmult_lt_r in U; [exact U | exact P0]. }
  split; [| symmetry; exact D].
  change 0%Q with (inject_Z 0) in K0. rewrite <- Zlt_Qlt in K0, K1. lia.
Qed.

(** Rounding is computed, never unfolded, from here on. *)
Opaque JS.round JS.Math_sqrt.

(** ** Comparisons and dates *)

Lemma ltb_lt (x y : Q) : JS.ltb x y = true <-> (x < y)%Q.
Proof.
  unfold JS.ltb. rewrite negb_true_iff. split; intro H.
  - apply Qnot_le_lt. intro L. apply Qle_bool_iff in L. congruence.
  - apply not_true_is_false. intro L. apply Qle_bool_iff in L.
    apply (Qlt_not_le _ _ H L).
Qed.

Lemma gtb_gt (x y : Q) : JS.gtb x y = true <-> (y < x)%Q.
Proof. unfold JS.gtb. apply ltb_lt. Qed.

Lemma ltb_ge (x y : Q) : JS.ltb x y = false <-> (y <= x)%Q.
Proof.
  unfold JS.ltb. rewrite negb_false_iff. apply Qle_bool_iff.
Qed.

Lemma gtb_le (x y : Q) : JS.gtb x y = false <-> (x <= y)%Q.
Proof. unfold JS.gtb. apply ltb_ge. Qed.

Lemma MS_PER_DAY_pos : 0 < MS_PER_DAY.
Proof. reflexivity. Qed.

Lemma localMidnight_timeOfDay (tz t : Z) :
  localMidnight tz t = t - localTimeOfDay tz t.
Proof.
  unfold localMidnight, localTimeOfDay.
  pose proof (Z.div_mod (t + tz) MS_PER_DAY) as E.
  assert (MS_PER_DAY <> 0) as N by (unfold MS_PER_DAY, MS_PER_HOUR; lia).
  specialize (E N). lia.
Qed.

(** The daylight window is 06:00 to 18:00 local time, both ends included. *)
Lemma isDaytime_window (tz t : Z) :
  isDaytime tz t = true <->
  6 * MS_PER_HOUR <= localTimeOfDay tz t <= 18 * MS_PER_HOUR.
Proof.
  unfold isDaytime, getSunTimes, setHours.
  rewrite localMidnight_timeOfDay, andb_true_iff, !Z.leb_le.
  unfold MS_PER_HOUR. lia.
Qed.

Lemma localTimeOfDay_setHours (tz d h : Z) :
  0 <= h < 24 ->
  localTimeOfDay tz (setHours tz d h 0 0 0) = h * MS_PER_HOUR.
Proof.
  intro H. unfold setHours, localTimeOfDay, localMidnight.
  replace ((d + tz) / MS_PER_DAY * MS_PER_DAY - tz + h * MS_PER_HOUR
           + 0 * 60000 + 0 * 1000 + 0 + tz)
    with (h * MS_PER_HOUR + (d + tz) / MS_PER_DAY * MS_PER_DAY) by lia.
  rewrite Z.mod_add by (unfold MS_PER_DAY, MS_PER_HOUR; lia).
  apply Z.mod_small. unfold MS_PER_DAY, MS_PER_HOUR. lia.
Qed.

Lemma localTimeOfDay_parseIsoDate (tz : Z) (d : IsoDate) :
  localTimeOfDay tz (parseIsoDate d) = tz mod MS_PER_DAY.
Proof.
  unfold localTimeOfDay, parseIsoDate.
  rewrite Z.add_comm. apply Z.mod_add.
  unfold MS_PER_DAY, MS_PER_HOUR. lia.
Qed.

(** ** Complete-failure detector *)

Lemma num_half : (JS.num 0.5 == 0.5)%Q.
Proof. vm_compute. reflexivity. Qed.

Lemma ltb_num_half (x : Q) :
  JS.ltb x (JS.num 0.5) = true <-> (x < 0.5)%Q.
Proof.
  rewrite ltb_lt. pose proof num_half as H.
  set (h := JS.num 0.5) in *. split; intro; lra.
Qed.

Lemma failureQuotient_doubles :
  isDouble failureQuotientBelow /\ isDouble failureQuotientAbove
  /\ (JS.mul failureQuotientBelow 100 < 0.5)%Q
  /\ (0.5 <= JS.mul failureQuotientAbove 100)%Q
  /\ (failureQuotientBelow < 0.005 < failureQuotientAbove)%Q
  /\ (failureQuotientAbove - failureQuotientBelow < 1 # 1000000000000000000)%Q.
Proof.
  unfold isDouble. repeat split; vm_compute; (reflexivity || discriminate).
Qed.

(** C5, as amended.  For a positive panel capacity,
    [detectCompleteFailure] reports a detection exactly when the timestamp
    is in the daylight window, the percentage of the capacity, computed in
    double precision, is below 0.5 and the cloud coverage is below 90; a
    detection is COMPLETE_FAILURE, CRITICAL, confidence 0.95.  The
    computed percentage is below 0.5 whenever the quotient of generation
    and capacity is at most the double below 0.005, and is not whenever
    the quotient is at least the double nearest to 0.005.  And 0.02 kWh on
    a 5 kW panel at 14:00 local time under 25 percent clouds is such a
    detection. *)
Theorem detectCompleteFailure_fires_iff
    (tz : Z) (energyGenerated panelCapacity : Q) (timestamp : Z)
    (cloudCoverage : Q) :
  (0 < panelCapacity)%Q ->
  (anomalyDetected
     (detectCompleteFailure tz energyGenerated panelCapacity timestamp
        cloudCoverage) = true
   <-> isDaytime tz timestamp = true
       /\ (JS.mul (JS.div energyGenerated panelCapacity) 100 < 0.5)%Q
       /\ (cloudCoverage < 90)%Q)
  /\ ((energyGenerated / panelCapacity <= failureQuotientBelow)%Q ->
      (JS.mul (JS.div energyGenerated panelCapacity) 100 < 0.5)%Q)
  /\ ((failureQuotientAbove <= energyGenerated / panelCapacity)%Q ->
      (0.5 <= JS.mul (JS.div energyGenerated panelCapacity) 100)%Q)
  /\ (forall d,
        detectCompleteFailure tz energyGenerated panelCapacity timestamp
          cloudCoverage = Some d ->
        anomalyType d = COMPLETE_FAILURE /\ severity d = CRITICAL
        /\ confidence d = JS.num 0.95)
  /\ (forall day,
        exists d,
          detectCompleteFailure tz (JS.num 0.02) 5 (setHours tz day 14 0 0 0)
            25 = Some d
          /\ anomalyType d = COMPLETE_FAILURE /\ severity d = CRITICAL
          /\ confidence d = JS.num 0.95).
Proof.
  intros _.
  destruct failureQuotient_doubles as (DA & DB & FA & FB & _).
  unfold detectCompleteFailure. split; [| split; [| split; [| split]]].
  - rewrite <- ltb_num_half, <- ltb_lt.
    destruct (isDaytime tz timestamp), (JS.ltb _ (JS.num 0.5)),
      (JS.ltb cloudCoverage 90); cbn; intuition discriminate.
  - intro L. eapply Qle_lt_trans; [| exact FA].
    apply round_mono. apply Qmult_le_compat_r; [| discriminate].
    apply round_le_double; assumption.
  - intro L. eapply Qle_trans; [exact FB |].
    apply round_mono. apply Qmult_le_compat_r; [| discriminate].
    apply double_le_round; assumption.
  - intro d. destruct (_ && _ && _); [| discriminate].
    intro E. injection E as <-. repeat split.
  - intro day.
    assert (isDaytime tz (setHours tz day 14 0 0 0) = true) as D.
    { apply isDaytime_window. rewrite localTimeOfDay_setHours by lia.
      unfold MS_PER_HOUR. lia. }
    rewrite D.
    assert (JS.ltb (JS.mul (JS.div (JS.num 0.02) 5) 100) (JS.num 0.5) = true)
      as -> by (vm_compute; reflexivity).
    eexists. split; [reflexivity |]. repeat split.
Qed.

Lemma detectCompleteFailure_fires_iff_witness :
  (0 < 5)%Q
  /\ (JS.num 0.02 / 5 <= failureQuotientBelow)%Q
  /\ (JS.mul (JS.div (JS.num 0.02) 5) 100 < 0.5)%Q.
Proof.
  assert (0 < 5)%Q as C by reflexivity.
  assert (JS.num 0.02 / 5 <= failureQuotientBelow)%Q as L
    by (vm_compute; discriminate).
  split; [exact C |]. split; [exact L |].
  apply (detectCompleteFailure_fires_iff 0 (JS.num 0.02) 5 (12 * MS_PER_HOUR)
           10 C).
  exact L.
Defined.

(** C5 as the specification states it, with the exact quotient, fails at
    the daylight reading 0.015 kWh of a 3 kW panel under 10 percent
    clouds: the reading is the double nearest to 0.015, slightly below
    it, so the exact percentage is below 0.5; but the quotient rounds to
    the double nearest to 0.005, the percentage to 0.5, and nothing is
    detected. *)
Lemma detectCompleteFailure_exact_quotient_counterexample :
  ~ (anomalyDetected
       (detectCompleteFailure 0 (JS.num 0.015) 3 (12 * MS_PER_HOUR) 10) = true
     <-> isDaytime 0 (12 * MS_PER_HOUR) = true
         /\ (JS.num 0.015 / 3 * 100 < 0.5)%Q
         /\ (10 < 90)%Q).
Proof.
  intros [_ H].
  assert (anomalyDetected
            (detectCompleteFailure 0 (JS.num 0.015) 3 (12 * MS_PER_HOUR) 10)
          = false) as F by (vm_compute; reflexivity).
  rewrite F in H. discriminate H.
  split; [vm_compute; reflexivity |].
  split; vm_compute; reflexivity.
Qed.

(** In decimal terms the difference shows in the other direction:
    0.0045 kWh on a 0.9 kW panel is exactly 0.5 percent of the capacity,
    and the program, which receives the nearest doubles, computes
    0.49999999999999994 and detects a failure. *)
Example complete_failure_decimal_boundary :
  ~ (0.0045 / 0.9 * 100 < 0.5)%Q
  /\ anomalyDetected
       (detectCompleteFailure 0 (JS.num 0.0045) (JS.num 0.9)
          (12 * MS_PER_HOUR) 10) = true.
Proof. split; [vm_compute; discriminate | vm_compute; reflexivity]. Qed.

(** ** Weather-impact classifier *)

Lemma rainImpact_le (precipitation : Q) :
  (rainImpact precipitation <= JS.num 0.8)%Q.
Proof. unfold rainImpact. apply Q.le_min_l. Qed.

Lemma weatherSeverity_le (cloudCoverage precipitation : Q) :
  (weatherSeverity cloudCoverage precipitation <= JS.num 0.9)%Q.
Proof. unfold weatherSeverity. apply Q.le_min_l. Qed.

(** C9. For a cloud coverage between 0 and 100 and a non-negative
    precipitation the weather severity that [classifyWeatherImpact]
    computes, and reports in its details, is at most 0.9 and its
    precipitation term at most 0.8; at cloud coverage 100 and
    precipitation 100 the severity is 0.9.  The numbers 0.9 and 0.8 are
    those of the program, the doubles nearest to them, which exceed the
    decimals by less than 1e-16. *)
Theorem weatherSeverity_capped (cloudCoverage precipitation : Q) :
  (0 <= cloudCoverage <= 100)%Q -> (0 <= precipitation)%Q ->
  (weatherSeverity cloudCoverage precipitation <= JS.num 0.9)%Q
  /\ (rainImpact precipitation <= JS.num 0.8)%Q
  /\ (forall energyGenerated expectedGeneration d,
        classifyWeatherImpact energyGenerated expectedGeneration
          cloudCoverage precipitation = Some d ->
        exists ws er ar b,
          details d = WeatherDetails ws er ar cloudCoverage precipitation b
          /\ ws = weatherSeverity cloudCoverage precipitation
          /\ (ws <= JS.num 0.9)%Q)
  /\ (weatherSeverity 100 100 == JS.num 0.9)%Q
  /\ (0.9 <= JS.num 0.9 < 0.9 + (1 # 10000000000000000))%Q
  /\ (0.8 <= JS.num 0.8 < 0.8 + (1 # 10000000000000000))%Q.
Proof.
  intros _ _. split; [apply weatherSeverity_le |].
  split; [apply rainImpact_le |].
  split;
    [| split; [vm_compute; reflexivity |];
       split; split; vm_compute; (reflexivity || discriminate)].
  intros e x d. unfold classifyWeatherImpact.
  destruct (_ && _).
  - intro E. injection E as <-. cbn [details]. do 4 eexists.
    split; [reflexivity |]. split; [reflexivity | apply weatherSeverity_le].
  - destruct (_ && _ && _); [| discriminate].
    intro E. injection E as <-. cbn [details]. do 4 eexists.
    split; [reflexivity |]. split; [reflexivity | apply weatherSeverity_le].
Qed.

Lemma weatherSeverity_capped_witness :
  (weatherSeverity 85 8 <= JS.num 0.9)%Q /\ (rainImpact 8 <= JS.num 0.8)%Q.
Proof.
  assert (0 <= 85 <= 100)%Q as C by (split; discriminate).
  assert (0 <= 8)%Q as P by discriminate.
  destruct (weatherSeverity_capped 85 8 C P) as (S & R & _).
  exact (conj S R).
Defined.

Lemma actualReduction_isDouble (energyGenerated expectedGeneration : Q) :
  isDouble (actualReduction energyGenerated expectedGeneration).
Proof.
  unfold actualReduction. destruct (JS.gtb expectedGeneration 0).
  - apply round_isDouble.
  - unfold isDouble. apply round_zero. reflexivity.
Qed.

(** C6, as amended.  [classifyWeatherImpact] gives on every input the
    verdict of the decision table of the specification with its formulas
    read in double precision: LOW, 0.8, no panel issue when the severity
    exceeds 0.4 and the reductions differ by less than 20; MEDIUM, 0.7,
    panel issue when the severity exceeds 0.4 and the actual reduction
    exceeds the expected one by more than 20; nothing otherwise, in
    particular for a severity of at most 0.4 and for an actual reduction
    more than 20 below the expected one. *)
Theorem classifyWeatherImpact_decision_table
    (energyGenerated expectedGeneration cloudCoverage precipitation : Q) :
  weatherVerdict
    (classifyWeatherImpact energyGenerated expectedGeneration cloudCoverage
       precipitation)
  = weatherDecisionTableDouble energyGenerated expectedGeneration
      cloudCoverage precipitation
  /\ ((weatherSeverity cloudCoverage precipitation <= JS.num 0.4)%Q
       \/ (actualReduction energyGenerated expectedGeneration
             < JS.mul (weatherSeverity cloudCoverage precipitation) 100 - 20)%Q
      -> classifyWeatherImpact energyGenerated expectedGeneration
           cloudCoverage precipitation = None).
Proof.
  pose proof (actualReduction_isDouble energyGenerated expectedGeneration)
    as AD.
  unfold classifyWeatherImpact, weatherDecisionTableDouble.
  fold (cloudImpact cloudCoverage). fold (rainImpact precipitation).
  fold (weatherSeverity cloudCoverage precipitation).
  set (ws := weatherSeverity cloudCoverage precipitation).
  assert ((if Qlt_le_dec 0 expectedGeneration
           then JS.mul
                  (JS.div (JS.sub expectedGeneration energyGenerated)
                     expectedGeneration) 100
           else 0%Q)
          = actualReduction energyGenerated expectedGeneration) as ->.
  { unfold actualReduction.
    destruct (Qlt_le_dec 0 expectedGeneration) as [L | L].
    - rewrite (proj2 (gtb_gt _ _) L). reflexivity.
    - rewrite (proj2 (gtb_le _ _) L). reflexivity. }
  set (act := actualReduction energyGenerated expectedGeneration) in *.
  set (ex := JS.mul ws 100).
  set (gate := JS.num 0.4).
  destruct (Qlt_le_dec gate ws) as [S | S].
  - rewrite (proj2 (gtb_gt ws gate) S). cbn [andb].
    destruct (Qlt_le_dec (Qabs (JS.sub act ex)) 20) as [A | A].
    + rewrite (proj2 (ltb_lt _ _) A). split; [reflexivity |].
      intros [H | H]; [lra |]. exfalso.
      assert (JS.sub act ex <= - (20))%Q as B.
      { apply round_le_double; [| lra].
        unfold isDouble. vm_compute. reflexivity. }
      apply Qabs_Qlt_condition in A. lra.
    + rewrite (proj2 (ltb_ge _ _) A). cbn [negb andb].
      destruct (Qlt_le_dec (JS.add ex 20) act) as [B | B].
      * rewrite (proj2 (gtb_gt _ _) B). split; [reflexivity |].
        intros [H | H]; [lra |]. exfalso.
        assert (act <= JS.add ex 20)%Q as C.
        { unfold isDouble in AD. rewrite <- AD. apply round_mono. lra. }
        lra.
      * rewrite (proj2 (gtb_le _ _) B). split; reflexivity.
  - rewrite (proj2 (gtb_le ws gate) S). cbn [andb]. split; reflexivity.
Qed.

Lemma classifyWeatherImpact_decision_table_witness :
  (weatherSeverity 45 0 <= JS.num 0.4)%Q
  /\ classifyWeatherImpact (JS.num 0.9) (JS.num 3.8) 45 0 = None.
Proof.
  assert (weatherSeverity 45 0 <= JS.num 0.4)%Q as S
    by (vm_compute; discriminate).
  split; [exact S |].
  apply (classifyWeatherImpact_decision_table (JS.num 0.9) (JS.num 3.8) 45 0).
  left. exact S.
Defined.

(** C6 as the specification states it, with its formulas in exact
    arithmetic, fails at 5 kWh generated of 8 expected under 25 percent
    clouds and 2 mm of rain: exactly, the severity is 0.575 and the
    reductions, 37.5 and 57.5, differ by 20, so the table gives nothing,
    whether its constants are read as decimals or as the nearest
    doubles; the program computes the expected reduction
    57.49999999999999, finds the difference below 20 and classifies the
    reading WEATHER_RELATED, LOW. *)
Lemma classifyWeatherImpact_exact_table_counterexample :
  weatherVerdict (classifyWeatherImpact 5 8 25 2)
  = Some (WEATHER_RELATED, LOW, JS.num 0.8, false)
  /\ weatherDecisionTable (fun decimal => decimal) 5 8 25 2 = None
  /\ weatherDecisionTable JS.num 5 8 25 2 = None.
Proof. repeat split; vm_compute; reflexivity. Qed.

(** Likewise at 3 kWh of 10 expected under full cloud cover and 1 mm of
    rain, where the decimal severity is 0.9 and the reductions 70 and 90:
    the program adds 0.7 and 0.2 to 0.8999999999999999 and classifies the
    reading. *)
Example weather_decimal_boundary :
  weatherVerdict (classifyWeatherImpact 3 10 100 1)
  = Some (WEATHER_RELATED, LOW, JS.num 0.8, false)
  /\ weatherDecisionTable (fun decimal => decimal) 3 10 100 1 = None.
Proof. split; vm_compute; reflexivity. Qed.

(** ** Sensor-integrity checker *)

Lemma reportedIssues_detectSensorMalfunction
    (tz : Z) (e cap : Q) (ts : Z) (rr : list Q) :
  reportedIssues (detectSensorMalfunction tz e cap ts rr)
  = sensorIssues tz e cap ts rr.
Proof.
  unfold detectSensorMalfunction.
  destruct (sensorIssues tz e cap ts rr); reflexivity.
Qed.

Lemma anomalyDetected_detectSensorMalfunction
    (tz : Z) (e cap : Q) (ts : Z) (rr : list Q) :
  anomalyDetected (detectSensorMalfunction tz e cap ts rr) = true
  <-> sensorIssues tz e cap ts rr <> [].
Proof.
  unfold detectSensorMalfunction.
  destruct (sensorIssues tz e cap ts rr); cbn; split; congruence.
Qed.

(** Each check pushes its own issue or nothing. *)
Lemma checkNight_cases (tz : Z) (e : Q) (ts : Z) :
  checkNight tz e ts = [nightIssue] \/ checkNight tz e ts = [].
Proof. unfold checkNight. destruct (_ && _); auto. Qed.

Lemma checkCapacity_cases (e cap : Q) :
  checkCapacity e cap = [capacityIssue] \/ checkCapacity e cap = [].
Proof. unfold checkCapacity. destruct (JS.gtb _ _); auto. Qed.

Lemma checkStuck_cases (rr : list Q) :
  checkStuck rr = [stuckIssue] \/ checkStuck rr = [].
Proof.
  unfold checkStuck. destruct (6 <=? _)%nat; auto. destruct (_ && _); auto.
Qed.

Lemma checkErratic_cases (rr : list Q) :
  checkErratic rr = [erraticIssue] \/ checkErratic rr = [].
Proof.
  unfold checkErratic. destruct (4 <=? _)%nat; auto.
  destruct (JS.gtb _ 0); auto. destruct (JS.gtb _ _); auto.
Qed.

Lemma checkNegative_cases (e : Q) :
  checkNegative e = [negativeIssue] \/ checkNegative e = [].
Proof. unfold checkNegative. destruct (JS.ltb _ _); auto. Qed.

Lemma sensorIssues_members
    (tz : Z) (e cap : Q) (ts : Z) (rr : list Q) (i : Issue) :
  In i (sensorIssues tz e cap ts rr) ->
  (i = nightIssue /\ checkNight tz e ts = [nightIssue])
  \/ (i = capacityIssue /\ checkCapacity e cap = [capacityIssue])
  \/ (i = stuckIssue /\ checkStuck rr = [stuckIssue])
  \/ (i = erraticIssue /\ checkErratic rr = [erraticIssue])
  \/ (i = negativeIssue /\ checkNegative e = [negativeIssue]).
Proof.
  unfold sensorIssues. rewrite !in_app_iff.
  destruct (checkNight_cases tz e ts) as [-> | ->],
    (checkCapacity_cases e cap) as [-> | ->],
    (checkStuck_cases rr) as [-> | ->],
    (checkErratic_cases rr) as [-> | ->],
    (checkNegative_cases e) as [-> | ->]; cbn; intuition auto.
Qed.

Lemma pickHigher_ge_l (a b : Issue) :
  severityOrder_indexOf (issue_severity a)
  <= severityOrder_indexOf (issue_severity (pickHigher a b)).
Proof.
  unfold pickHigher.
  destruct (Z.gtb_spec (severityOrder_indexOf (issue_severity b))
              (severityOrder_indexOf (issue_severity a))); lia.
Qed.

Lemma pickHigher_ge_r (a b : Issue) :
  severityOrder_indexOf (issue_severity b)
  <= severityOrder_indexOf (issue_severity (pickHigher a b)).
Proof.
  unfold pickHigher.
  destruct (Z.gtb_spec (severityOrder_indexOf (issue_severity b))
              (severityOrder_indexOf (issue_severity a))); lia.
Qed.

(** The reduction returns an issue of the array whose severity no other
    issue exceeds. *)
Lemma highestSeverity_upper (rest : list Issue) :
  forall first i,
    In i (first :: rest) ->
    severityOrder_indexOf (issue_severity i)
    <= severityOrder_indexOf (issue_severity (highestSeverity first rest)).
Proof.
  unfold highestSeverity.
  induction rest as [| a rest IH]; intros first i H.
  - destruct H as [<- | []]. cbn. lia.
  - cbn [fold_left]. destruct H as [<- | [<- | H]].
    + etransitivity; [apply (pickHigher_ge_l first a) |].
      apply IH. left. reflexivity.
    + etransitivity; [apply (pickHigher_ge_r first a) |].
      apply IH. left. reflexivity.
    + apply IH. right. exact H.
Qed.

Lemma highestSeverity_member (rest : list Issue) :
  forall first, In (highestSeverity first rest) (first :: rest).
Proof.
  unfold highestSeverity.
  induction rest as [| a rest IH]; intro first.
  - left. reflexivity.
  - cbn [fold_left]. specialize (IH (pickHigher first a)).
    destruct IH as [E | IH].
    + rewrite <- E. unfold pickHigher.
      destruct (_ >? _); [right; left | left]; reflexivity.
    + right. right. exact IH.
Qed.

Lemma fold_Qmax_lower (l : list Q) :
  forall acc, (acc <= fold_left Qmax l acc)%Q.
Proof.
  induction l as [| x l IH]; intro acc; cbn.
  - apply Qle_refl.
  - eapply Qle_trans; [apply (Q.le_max_l acc x) | apply IH].
Qed.

Lemma fold_Qmax_upper (l : list Q) :
  forall acc x, In x l -> (x <= fold_left Qmax l acc)%Q.
Proof.
  induction l as [| y l IH]; intros acc x H; [destruct H |].
  cbn. destruct H as [<- | H].
  - eapply Qle_trans; [apply (Q.le_max_r acc y) | apply fold_Qmax_lower].
  - apply IH, H.
Qed.

Lemma fold_Qmax_bounded (l : list Q) (b : Q) :
  forall acc,
    (acc <= b)%Q -> (forall x, In x l -> (x <= b)%Q) ->
    (fold_left Qmax l acc <= b)%Q.
Proof.
  induction l as [| y l IH]; intros acc A H; cbn; [exact A |].
  apply IH.
  - apply Q.max_lub; [exact A | apply H; left; reflexivity].
  - intros x I. apply H. right. exact I.
Qed.

(** The confidence of the result bounds that of every issue. *)
Lemma maxConfidence_upper (first : Issue) (rest : list Issue) (i : Issue) :
  In i (first :: rest) ->
  (issue_confidence i <= maxConfidence first rest)%Q.
Proof.
  unfold maxConfidence. intros [<- | H].
  - apply fold_Qmax_lower.
  - apply fold_Qmax_upper, in_map, H.
Qed.

Lemma maxConfidence_bounded (first : Issue) (rest : list Issue) (b : Q) :
  (forall i, In i (first :: rest) -> (issue_confidence i <= b)%Q) ->
  (maxConfidence first rest <= b)%Q.
Proof.
  intro H. unfold maxConfidence. apply fold_Qmax_bounded.
  - apply H. left. reflexivity.
  - intros x I. apply in_map_iff in I. destruct I as (i & <- & I).
    apply H. right. exact I.
Qed.

Lemma sensorIssues_confidence_le_1
    (tz : Z) (e cap : Q) (ts : Z) (rr : list Q) (i : Issue) :
  In i (sensorIssues tz e cap ts rr) -> (issue_confidence i <= 1)%Q.
Proof.
  intro H. apply sensorIssues_members in H.
  destruct H as [[-> _] | [[-> _] | [[-> _] | [[-> _] | [-> _]]]]];
    vm_compute; discriminate.
Qed.

Lemma severityOrder_indexOf_max (s : Severity) :
  3 <= severityOrder_indexOf s -> s = CRITICAL.
Proof. destruct s; cbn; intro; (reflexivity || lia). Qed.

(** C7. A negative reading always makes [detectSensorMalfunction] fire,
    whatever the capacity, the timestamp and the recent readings: the
    result is SENSOR_MALFUNCTION, CRITICAL, confidence 1.0.  The
    negative-reading issue (CRITICAL, 1.0) is among the reported issues,
    and the severity and confidence of the result are the largest among
    the issues under LOW < MEDIUM < HIGH < CRITICAL. *)
Theorem negative_reading_is_critical
    (tz : Z) (energyGenerated panelCapacity : Q) (timestamp : Z)
    (recentReadings : list Q) :
  (energyGenerated < 0)%Q ->
  exists d,
    detectSensorMalfunction tz energyGenerated panelCapacity timestamp
      recentReadings = Some d
    /\ anomalyType d = SENSOR_MALFUNCTION
    /\ severity d = CRITICAL
    /\ (confidence d == 1.0)%Q
    /\ In negativeIssue (reportedIssues (Some d))
    /\ issue_severity negativeIssue = CRITICAL
    /\ issue_confidence negativeIssue = 1.0%Q
    /\ (forall i, In i (reportedIssues (Some d)) ->
          severityOrder_indexOf (issue_severity i)
          <= severityOrder_indexOf (severity d)
          /\ (issue_confidence i <= confidence d)%Q)
    /\ (exists i, In i (reportedIssues (Some d))
                  /\ issue_severity i = severity d).
Proof.
  intro N.
  assert (In negativeIssue
            (sensorIssues tz energyGenerated panelCapacity timestamp
               recentReadings)) as I.
  { unfold sensorIssues. rewrite !in_app_iff. do 4 right.
    unfold checkNegative. rewrite (proj2 (ltb_lt _ _) N). left. reflexivity. }
  pose proof (sensorIssues_confidence_le_1 tz energyGenerated panelCapacity
                timestamp recentReadings) as B.
  unfold detectSensorMalfunction.
  destruct (sensorIssues tz energyGenerated panelCapacity timestamp
              recentReadings) as [| first rest]; [destruct I |].
  eexists. split; [reflexivity |]. cbn.
  split; [reflexivity |].
  pose proof (highestSeverity_upper rest first negativeIssue I) as S.
  pose proof (maxConfidence_upper first rest negativeIssue I) as C.
  pose proof (maxConfidence_bounded first rest 1 B) as C'.
  split; [apply severityOrder_indexOf_max, S |].
  split; [change (issue_confidence negativeIssue) with 1.0%Q in C; lra |].
  split; [exact I |]. split; [reflexivity |]. split; [reflexivity |].
  split.
  - intros i Hi. split.
    + apply highestSeverity_upper, Hi.
    + apply maxConfidence_upper, Hi.
  - exists (highestSeverity first rest).
    split; [apply highestSeverity_member | reflexivity].
Qed.

Lemma negative_reading_is_critical_witness :
  (-1 < 0)%Q
  /\ exists d,
       detectSensorMalfunction 0 (-1) 5 (12 * MS_PER_HOUR) [] = Some d
       /\ severity d = CRITICAL /\ (confidence d == 1.0)%Q.
Proof.
  assert (-1 < 0)%Q as N by reflexivity.
  split; [exact N |].
  destruct (negative_reading_is_critical 0 (-1) 5 (12 * MS_PER_HOUR) [] N)
    as (d & E & _ & S & C & _).
  exists d. exact (conj E (conj S C)).
Defined.

(** The capacity issue is among the issues exactly when its check
    fired. *)
Lemma sensorIssues_capacity_iff
    (tz : Z) (e cap : Q) (ts : Z) (rr : list Q) :
  (In capacityIssue (sensorIssues tz e cap ts rr)
   <-> checkCapacity e cap = [capacityIssue])
  /\ (JS.gtb e (JS.mul cap (JS.num 1.05)) = true ->
      In capacityIssue (reportedIssues (detectSensorMalfunction tz e cap ts rr))).
Proof.
  split.
  - split.
    + intro I. apply sensorIssues_members in I.
      destruct I as [[E _] | [[_ K] | [[E _] | [[E _] | [E _]]]]];
        (exact K || discriminate E).
    + intro K. unfold sensorIssues. rewrite !in_app_iff, K.
      right. left. left. reflexivity.
  - intro G. rewrite reportedIssues_detectSensorMalfunction.
    unfold sensorIssues. rewrite !in_app_iff. right. left.
    unfold checkCapacity. rewrite G. left. reflexivity.
Qed.

Lemma num_1_05_above : (1.05 <= JS.num 1.05)%Q.
Proof. vm_compute. discriminate. Qed.

(** C8, as amended.  The capacity-violation issue (CRITICAL, confidence
    0.99) is reported exactly when the reading exceeds the product of the
    capacity and 1.05 as the program computes it, rounded to double
    precision; the comparison is strict: no issue of that name is
    reported when the reading equals that product, nor, for a reading
    that is a double and a capacity that is not negative, when the
    reading is at most 1.05 times the capacity exactly.  A reading that
    is a double and exceeds the exact product of the capacity and the
    program's 1.05 is reported unless it is the computed product
    itself. *)
Theorem capacity_violation_strict
    (tz : Z) (energyGenerated panelCapacity : Q) (timestamp : Z)
    (recentReadings : list Q) :
  (In capacityIssue
     (reportedIssues
        (detectSensorMalfunction tz energyGenerated panelCapacity timestamp
           recentReadings))
   <-> (JS.mul panelCapacity (JS.num 1.05) < energyGenerated)%Q)
  /\ issue_severity capacityIssue = CRITICAL
  /\ issue_confidence capacityIssue = JS.num 0.99
  /\ ((energyGenerated == JS.mul panelCapacity (JS.num 1.05))%Q ->
      ~ reports "Generation exceeds panel capacity"
          (detectSensorMalfunction tz energyGenerated panelCapacity timestamp
             recentReadings))
  /\ (isDouble energyGenerated -> (0 <= panelCapacity)%Q ->
      (energyGenerated <= panelCapacity * 1.05)%Q ->
      ~ reports "Generation exceeds panel capacity"
          (detectSensorMalfunction tz energyGenerated panelCapacity timestamp
             recentReadings))
  /\ (isDouble energyGenerated ->
      (panelCapacity * JS.num 1.05 < energyGenerated)%Q ->
      ~ (energyGenerated == JS.mul panelCapacity (JS.num 1.05))%Q ->
      In capacityIssue
        (reportedIssues
           (detectSensorMalfunction tz energyGenerated panelCapacity
              timestamp recentReadings))).
Proof.
  assert ((energyGenerated <= JS.mul panelCapacity (JS.num 1.05))%Q ->
          ~ reports "Generation exceeds panel capacity"
              (detectSensorMalfunction tz energyGenerated panelCapacity
                 timestamp recentReadings)) as Quiet.
  { unfold reports. rewrite reportedIssues_detectSensorMalfunction.
    intros L (i & I & Name).
    assert (checkCapacity energyGenerated panelCapacity = []) as K.
    { unfold checkCapacity. rewrite (proj2 (gtb_le _ _) L). reflexivity. }
    apply sensorIssues_members in I. rewrite K in I.
    destruct I as [[-> _] | [[_ F] | [[-> _] | [[-> _] | [-> _]]]]];
      discriminate. }
  assert ((JS.mul panelCapacity (JS.num 1.05) < energyGenerated)%Q ->
          In capacityIssue
            (reportedIssues
               (detectSensorMalfunction tz energyGenerated panelCapacity
                  timestamp recentReadings))) as Loud.
  { intro G. rewrite reportedIssues_detectSensorMalfunction.
    unfold sensorIssues. rewrite !in_app_iff. right. left.
    unfold checkCapacity. rewrite (proj2 (gtb_gt _ _) G). left. reflexivity. }
  split; [| split; [reflexivity | split; [reflexivity | split; [| split]]]].
  - split; [| exact Loud].
    rewrite reportedIssues_detectSensorMalfunction.
    intro I. apply sensorIssues_members in I.
    destruct I as [[E _] | [[_ K] | [[E _] | [[E _] | [E _]]]]];
      try discriminate E.
    unfold checkCapacity in K.
    destruct (JS.gtb energyGenerated _) eqn:G; [| discriminate K].
    apply gtb_gt, G.
  - intro E. apply Quiet. rewrite E. apply Qle_refl.
  - intros D C L. apply Quiet.
    unfold isDouble in D. rewrite <- D. apply round_mono.
    eapply Qle_trans; [exact L |].
    rewrite !(Qmult_comm panelCapacity).
    apply Qmult_le_compat_r; [apply num_1_05_above | exact C].
  - intros D G NE. apply Loud.
    assert (JS.mul panelCapacity (JS.num 1.05) <= energyGenerated)%Q as LE.
    { apply round_le_double; [exact D | apply Qlt_le_weak, G]. }
    apply Qle_lt_or_eq in LE. destruct LE as [LT | EQ]; [exact LT |].
    contradiction NE. symmetry. exact EQ.
Qed.

Lemma capacity_violation_strict_witness :
  (isDouble 21 /\ (0 <= 20)%Q /\ (21 <= 20 * 1.05)%Q)
  /\ ~ reports "Generation exceeds panel capacity"
         (detectSensorMalfunction 0 21 20 (12 * MS_PER_HOUR) []).
Proof.
  assert (isDouble 21) as D by (vm_compute; reflexivity).
  assert (0 <= 20)%Q as C by discriminate.
  assert (21 <= 20 * 1.05)%Q as L by discriminate.
  split; [exact (conj D (conj C L)) |].
  destruct (capacity_violation_strict 0 21 20 (12 * MS_PER_HOUR) [])
    as (_ & _ & _ & _ & Quiet & _).
  exact (Quiet D C L).
Defined.

(** C8 as the specification states it, with the exact product, fails at
    the reading 3.1500000000000004 on a 3 kW panel: the reading exceeds
    1.05 times the capacity, also with the program's 1.05 (the double
    nearest to it, slightly above), and no issue is reported, since the
    product rounds up to that reading. *)
Lemma capacity_violation_exact_counterexample :
  (3 * 1.05 < JS.num 3.1500000000000004)%Q
  /\ (3 * JS.num 1.05 < JS.num 3.1500000000000004)%Q
  /\ ~ In capacityIssue
         (reportedIssues
            (detectSensorMalfunction 0 (JS.num 3.1500000000000004) 3
               (12 * MS_PER_HOUR) [])).
Proof.
  split; [vm_compute; reflexivity |]. split; [vm_compute; reflexivity |].
  assert (reportedIssues
            (detectSensorMalfunction 0 (JS.num 3.1500000000000004) 3
               (12 * MS_PER_HOUR) []) = []) as -> by (vm_compute; reflexivity).
  intros [].
Qed.

(** In decimal terms: the reading 1.05 on a 1 kW panel is stored as the
    double slightly above 1.05 and is not reported, the product being
    that same double; the reading 3.99 on a 3.8 kW panel, 1.05 times the
    capacity in decimals, is reported, since the program, which receives
    the nearest doubles, computes the product 3.9899999999999998. *)
Example capacity_decimal_boundary :
  ((1 * 1.05 < JS.num 1.05)%Q
   /\ ~ In capacityIssue
          (reportedIssues
             (detectSensorMalfunction 0 (JS.num 1.05) 1 (12 * MS_PER_HOUR)
                [])))
  /\ ((3.99 == 3.8 * 1.05)%Q
      /\ In capacityIssue
           (reportedIssues
              (detectSensorMalfunction 0 (JS.num 3.99) (JS.num 3.8)
                 (12 * MS_PER_HOUR) []))).
Proof.
  split; split.
  - vm_compute. reflexivity.
  - assert (reportedIssues
              (detectSensorMalfunction 0 (JS.num 1.05) 1 (12 * MS_PER_HOUR)
                 []) = []) as -> by (vm_compute; reflexivity).
    intros [].
  - reflexivity.
  - assert (reportedIssues
              (detectSensorMalfunction 0 (JS.num 3.99) (JS.num 3.8)
                 (12 * MS_PER_HOUR) []) = [capacityIssue]) as ->
      by (vm_compute; reflexivity).
    left. reflexivity.
Qed.

(** *** The stuck-value check *)

Lemma new_Set_from_length (a : list Q) :
  forall seen, (length seen <= length (JS.new_Set_from seen a))%nat.
Proof.
  induction a as [| x a IH]; intro seen; cbn; [lia |].
  destruct (JS.set_has x seen); [apply IH |].
  specialize (IH (seen ++ [x])). rewrite length_app in IH. cbn in IH. lia.
Qed.

Lemma new_Set_from_single (x : Q) (a : list Q) :
  length (JS.new_Set_from [x] a) = 1%nat
  <-> Forall (fun y => (y == x)%Q) a.
Proof.
  induction a as [| y a IH]; cbn.
  - split; [constructor | reflexivity].
  - rewrite orb_false_r. destruct (Qeq_bool y x) eqn:E.
    + rewrite IH. apply Qeq_bool_iff in E. split; intro H.
      * constructor; assumption.
      * inversion H; assumption.
    + pose proof (new_Set_from_length a [x; y]) as L. cbn in L.
      split; intro H; [lia |].
      inversion H as [| ? ? Hy _]. apply Qeq_bool_iff in Hy. congruence.
Qed.

(** A set built from an array has one element exactly when the array is
    not empty and all its elements are equal. *)
Lemma new_Set_size_1 (l : list Q) :
  length (JS.new_Set l) = 1%nat
  <-> exists v, In v l /\ Forall (fun y => (y == v)%Q) l.
Proof.
  destruct l as [| x a]; cbn.
  - split; [discriminate | intros (v & [] & _)].
  - change (JS.new_Set (x :: a)) with (JS.new_Set_from [x] a).
    rewrite new_Set_from_single. split.
    + intro H. exists x. split; [left; reflexivity |].
      constructor; [reflexivity | exact H].
    + intros (v & _ & H). inversion H as [| ? ? Hx Ha]. subst.
      eapply Forall_impl; [| exact Ha]. cbn. intros y Hy.
      rewrite Hy, Hx. reflexivity.
Qed.

(** What the check tests: the last six readings are equal and the FIRST
    reading of the array is not zero. *)
Lemma checkStuck_fires_iff (recentReadings : list Q) :
  checkStuck recentReadings = [stuckIssue]
  <-> (6 <= length recentReadings)%nat
      /\ (exists v, In v (JS.slice_last 6 recentReadings)
                    /\ Forall (fun y => (y == v)%Q)
                         (JS.slice_last 6 recentReadings))
      /\ ~ (nth 0%nat recentReadings 0 == 0)%Q.
Proof.
  unfold checkStuck. destruct (Nat.leb_spec 6 (length recentReadings)) as [L | L].
  - rewrite <- new_Set_size_1, <- Nat.eqb_eq.
    destruct (length _ =? 1)%nat; cbn [andb].
    + destruct (Qeq_bool (nth 0 recentReadings 0%Q) 0) eqn:E; cbn [negb].
      * apply Qeq_bool_iff in E. split; [discriminate | tauto].
      * split; [intros _ | reflexivity]. repeat split; try assumption.
        intro H. apply Qeq_bool_iff in H. congruence.
    + split; [discriminate | intros (_ & H & _); discriminate].
  - split; [discriminate | lia].
Qed.

Lemma stuckIssue_reported_iff
    (tz : Z) (e cap : Q) (ts : Z) (rr : list Q) :
  In stuckIssue (reportedIssues (detectSensorMalfunction tz e cap ts rr))
  <-> checkStuck rr = [stuckIssue].
Proof.
  rewrite reportedIssues_detectSensorMalfunction. split.
  - intro H. apply sensorIssues_members in H.
    destruct H as [[E _] | [[E _] | [[_ K] | [[E _] | [E _]]]]];
      (exact K || discriminate E).
  - intro K. unfold sensorIssues. rewrite !in_app_iff, K.
    right. right. left. left. reflexivity.
Qed.

(** With exactly six recent readings the first reading is one of the last
    six, and the check is the intended one. *)
Lemma stuckIssue_six_readings
    (tz : Z) (e cap : Q) (ts : Z) (rr : list Q) :
  length rr = 6%nat ->
  (In stuckIssue (reportedIssues (detectSensorMalfunction tz e cap ts rr))
   <-> identicalNonZero (JS.slice_last 6 rr)).
Proof.
  intro L. rewrite stuckIssue_reported_iff, checkStuck_fires_iff.
  unfold JS.slice_last, identicalNonZero. rewrite L. cbn [Nat.sub skipn].
  destruct rr as [| x rr]; [discriminate |]. cbn [nth]. split.
  - intros (_ & (v & _ & F) & NZ). exists v. split; [| exact F].
    inversion F as [| ? ? Hx _]. intro Z0. apply NZ. rewrite Hx. exact Z0.
  - intros (v & NZ & F). split; [lia |]. split.
    + exists x. split; [left; reflexivity |].
      inversion F as [| ? ? Hx _]. subst.
      eapply Forall_impl; [| exact F]. cbn. intros y Hy.
      rewrite Hy, Hx. reflexivity.
    + inversion F as [| ? ? Hx _]. intro Z0. apply NZ.
      rewrite <- Hx. exact Z0.
Qed.

(** C4, at two arrays of seven readings.  The last six readings of
    [0; 5; 5; 5; 5; 5; 5] are identical and not zero, and no stuck-sensor
    issue is reported; the last six readings of [5; 0; 0; 0; 0; 0; 0] are
    zero, and the stuck-sensor issue is reported: the check reads
    [recentReadings[0]], which is not among the last six. *)
Theorem stuck_check_reads_first_reading
    (tz : Z) (energyGenerated panelCapacity : Q) (timestamp : Z) :
  (identicalNonZero (JS.slice_last 6 [0; 5; 5; 5; 5; 5; 5]%Q)
   /\ ~ reports "Sensor reading stuck at same value"
          (detectSensorMalfunction tz energyGenerated panelCapacity timestamp
             [0; 5; 5; 5; 5; 5; 5]%Q))
  /\ (~ identicalNonZero (JS.slice_last 6 [5; 0; 0; 0; 0; 0; 0]%Q)
      /\ In stuckIssue
           (reportedIssues
              (detectSensorMalfunction tz energyGenerated panelCapacity
                 timestamp [5; 0; 0; 0; 0; 0; 0]%Q))
      /\ issue_severity stuckIssue = HIGH
      /\ issue_confidence stuckIssue = JS.num 0.9).
Proof.
  split; split.
  - exists 5%Q. split; [discriminate |].
    cbn. repeat constructor.
  - intros (i & I & Name).
    rewrite reportedIssues_detectSensorMalfunction in I.
    apply sensorIssues_members in I.
    destruct I as [[-> _] | [[-> _] | [[_ K] | [[-> _] | [-> _]]]]];
      discriminate.
  - intros (v & NZ & F). cbn in F.
    inversion F as [| ? ? Hx _]. apply NZ. rewrite <- Hx. reflexivity.
  - split; [| split; reflexivity].
    apply stuckIssue_reported_iff. reflexivity.
Qed.

(** ** Reasoning about computations *)

Section Computations.

Context {A B : Type}.
Variable PE : Event -> Prop.
Variable PR : AnomalyRecord -> Prop.

Lemma Emits_ret (a : A) : Emits PE PR (ret a).
Proof.
  intro s. cbn. split; [constructor |].
  exists []. rewrite app_nil_r. split; [reflexivity | constructor].
Qed.

Lemma Emits_throw (e : Error) : Emits PE PR (@throw A e).
Proof.
  intro s. cbn. split; [constructor |].
  exists []. rewrite app_nil_r. split; [reflexivity | constructor].
Qed.

Lemma Emits_await (answer : Outcome A) : Emits PE PR (await answer).
Proof.
  intro s. cbn. split; [constructor |].
  exists []. rewrite app_nil_r. split; [reflexivity | constructor].
Qed.

Lemma Emits_tell (ev : Event) : PE ev -> Emits PE PR (tell ev).
Proof.
  intros H s. cbn. split; [repeat constructor; exact H |].
  exists []. rewrite app_nil_r. split; [reflexivity | constructor].
Qed.

Lemma Emits_bind (c : M A) (k : A -> M B) :
  Emits PE PR c -> (forall a, Emits PE PR (k a)) -> Emits PE PR (bind c k).
Proof.
  intros Hc Hk s. unfold bind.
  destruct (Hc s) as (L1 & cr1 & S1 & R1).
  destruct (c s) as [[[a | e] s1] l1]; cbn in *.
  - destruct (Hk a s1) as (L2 & cr2 & S2 & R2).
    destruct (k a s1) as [[r s2] l2]; cbn in *.
    split; [apply Forall_app; split; assumption |].
    exists (cr1 ++ cr2). rewrite app_assoc, <- S1, <- S2.
    split; [reflexivity | apply Forall_app; split; assumption].
  - split; [assumption |]. exists cr1. split; assumption.
Qed.

Lemma Emits_tryCatch (c : M A) (handler : Error -> M A) :
  Emits PE PR c -> (forall e, Emits PE PR (handler e)) ->
  Emits PE PR (tryCatch c handler).
Proof.
  intros Hc Hh s. unfold tryCatch.
  destruct (Hc s) as (L1 & cr1 & S1 & R1).
  destruct (c s) as [[[a | e] s1] l1]; cbn in *.
  - split; [assumption |]. exists cr1. split; assumption.
  - destruct (Hh e s1) as (L2 & cr2 & S2 & R2).
    destruct (handler e s1) as [[r s2] l2]; cbn in *.
    split; [apply Forall_app; split; assumption |].
    exists (cr1 ++ cr2). rewrite app_assoc, <- S1, <- S2.
    split; [reflexivity | apply Forall_app; split; assumption].
Qed.

End Computations.

Lemma Emits_seq {A B : Type} (PE : Event -> Prop) (PR : AnomalyRecord -> Prop)
    (c : M A) (k : M B) :
  Emits PE PR c -> Emits PE PR k -> Emits PE PR (bind c (fun _ => k)).
Proof. intros Hc Hk. apply Emits_bind; [exact Hc | intros _; exact Hk]. Qed.

Lemma Emits_forOf {A : Type} (PE : Event -> Prop) (PR : AnomalyRecord -> Prop)
    (xs : list A) (body : A -> M unit) :
  (forall x, In x xs -> Emits PE PR (body x)) ->
  Emits PE PR (forOf xs body).
Proof.
  induction xs as [| x xs IH]; intro H; cbn [forOf].
  - apply Emits_ret.
  - apply Emits_seq.
    + apply H. left. reflexivity.
    + apply IH. intros y Hy. apply H. right. exact Hy.
Qed.

Lemma Emits_weaken {A : Type} (PE PE' : Event -> Prop)
    (PR PR' : AnomalyRecord -> Prop) (c : M A) :
  (forall ev, PE ev -> PE' ev) -> (forall r, PR r -> PR' r) ->
  Emits PE PR c -> Emits PE' PR' c.
Proof.
  intros HE HR H s. destruct (H s) as (L & cr & S & R).
  split; [eapply Forall_impl; [exact HE | exact L] |].
  exists cr. split; [exact S | eapply Forall_impl; [exact HR | exact R]].
Qed.

Section Invariants.

Context {A B : Type}.
Variable Inv : Store -> Prop.

Lemma Preserves_pure (c : M A) :
  (forall s, store_of (c s) = s) -> Preserves Inv c.
Proof. intros H s I. rewrite H. exact I. Qed.

Lemma Preserves_bind (c : M A) (k : A -> M B) :
  Preserves Inv c -> (forall a, Preserves Inv (k a)) ->
  Preserves Inv (bind c k).
Proof.
  intros Hc Hk s I. unfold bind. specialize (Hc s I).
  destruct (c s) as [[[a | e] s1] l1]; cbn in *; [| exact Hc].
  specialize (Hk a s1 Hc).
  destruct (k a s1) as [[r s2] l2]; cbn in *. exact Hk.
Qed.

Lemma Preserves_tryCatch (c : M A) (handler : Error -> M A) :
  Preserves Inv c -> (forall e, Preserves Inv (handler e)) ->
  Preserves Inv (tryCatch c handler).
Proof.
  intros Hc Hh s I. unfold tryCatch. specialize (Hc s I).
  destruct (c s) as [[[a | e] s1] l1]; cbn in *; [exact Hc |].
  specialize (Hh e s1 Hc).
  destruct (handler e s1) as [[r s2] l2]; cbn in *. exact Hh.
Qed.

End Invariants.

Lemma Preserves_forOf {A : Type} (Inv : Store -> Prop)
    (xs : list A) (body : A -> M unit) :
  (forall x, Preserves Inv (body x)) -> Preserves Inv (forOf xs body).
Proof.
  intro H. induction xs as [| x xs IH]; cbn [forOf].
  - apply Preserves_pure. reflexivity.
  - apply Preserves_bind; [apply H | intros _; exact IH].
Qed.

(** *** Lookups that keep succeeding *)

Lemma Covers_refl (s : Store) : Covers s s.
Proof. intros u t a b H. exact H. Qed.

Lemma Covers_trans (s1 s2 s3 : Store) :
  Covers s3 s2 -> Covers s2 s1 -> Covers s3 s1.
Proof. intros H32 H21 u t a b H. apply H32, H21, H. Qed.

Lemma Covers_app (s created : Store) : Covers (s ++ created) s.
Proof.
  intros u t a b H. unfold present in *.
  rewrite existsb_app, H. reflexivity.
Qed.

Lemma Emits_Covers {A : Type} (PE : Event -> Prop)
    (PR : AnomalyRecord -> Prop) (c : M A) (s : Store) :
  Emits PE PR c -> Covers (store_of (c s)) s.
Proof.
  intro H. destruct (H s) as (_ & cr & -> & _). apply Covers_app.
Qed.

Lemma find_present (s : Store) (u : Z) (t : AnomalyType) (a b : Z) :
  find (matchesFilter u t a b) s = None <-> present s u t a b = false.
Proof.
  unfold present. induction s as [| r s IH]; cbn; [tauto |].
  destruct (matchesFilter u t a b r); cbn; [| exact IH].
  split; discriminate.
Qed.

Section SettledComputations.

Context {A B : Type}.

Lemma Settled_pure (c : M A) :
  (forall s, store_of (c s) = s) ->
  (forall s s', outcome (c s') = outcome (c s)) ->
  Settled c.
Proof. intros HS HO s s' _ _. split; [apply HO | apply HS]. Qed.

Lemma Settled_bind (c : M A) (k : A -> M B) :
  Settled c -> (forall a, Settled (k a)) ->
  (forall a, Emits (fun _ => True) (fun _ => True) (k a)) ->
  Settled (bind c k).
Proof.
  intros Hc Hk Ak s s'. pose proof (Hc s s') as H1. unfold bind.
  destruct (c s) as [[[a | e] s1] l1]; cbn in H1.
  - pose proof (Hk a s1 s') as H2.
    pose proof (Emits_Covers _ _ (k a) s1 (Ak a)) as M2.
    destruct (k a s1) as [[r s2] l2]; cbn in *. intros C T.
    destruct H1 as (O1 & S1).
    { eapply Covers_trans; [exact C | exact M2]. }
    { intros e E. discriminate E. }
    destruct (c s') as [[o1 s1'] l1']; cbn in O1, S1. subst o1 s1'.
    destruct (H2 C T) as (O2 & S2).
    destruct (k a s') as [[r' s2'] l2']; cbn in *. split; assumption.
  - cbn. intros C T. destruct H1 as (O1 & S1); [exact C | |].
    { intros e0 E. apply (T e0). injection E as <-. reflexivity. }
    destruct (c s') as [[o1 s1'] l1']; cbn in O1, S1. subst o1 s1'.
    cbn. split; reflexivity.
Qed.

End SettledComputations.

Lemma Settled_forOf {A : Type} (xs : list A) (body : A -> M unit) :
  (forall x, Settled (body x)) ->
  (forall x, Emits (fun _ => True) (fun _ => True) (body x)) ->
  Settled (forOf xs body).
Proof.
  intros H HE. induction xs as [| x xs IH]; cbn [forOf].
  - apply Settled_pure; reflexivity.
  - apply Settled_bind; [apply H | intros _; exact IH |].
    intros _. apply Emits_forOf. intros y _. apply HE.
Qed.

(** A handler that logs and throws again. *)
Lemma Settled_tryCatch_rethrow {A : Type} (c : M A) (ev : Error -> Event) :
  Settled c ->
  Settled (tryCatch c (fun error => bind (tell (ev error))
                                      (fun _ => throw error))).
Proof.
  intros Hc s s'. pose proof (Hc s s') as H1. unfold tryCatch.
  destruct (c s) as [[[a | e] s1] l1]; cbn in *; intros C T;
    destruct (H1 C T) as (O1 & S1);
    destruct (c s') as [[o1 s1'] l1']; cbn in O1, S1; subst o1 s1';
    cbn; split; reflexivity.
Qed.

(** ** The persistence step *)

Lemma MS_PER_DAY_value : MS_PER_DAY = 86400000.
Proof. reflexivity. Qed.

Lemma startOfDay_le_endOfDay (tz : Z) (date : IsoDate) :
  startOfDay tz date <= endOfDay tz date.
Proof. unfold startOfDay, endOfDay, setHours, MS_PER_HOUR. lia. Qed.

Lemma localDay_startOfDay (tz : Z) (date : IsoDate) :
  localDay tz (startOfDay tz date) = localDay tz (parseIsoDate date).
Proof.
  unfold startOfDay, setHours, localDay, localMidnight.
  replace ((parseIsoDate date + tz) / MS_PER_DAY * MS_PER_DAY - tz
           + 0 * MS_PER_HOUR + 0 * 60000 + 0 * 1000 + 0 + tz)
    with ((parseIsoDate date + tz) / MS_PER_DAY * MS_PER_DAY) by lia.
  apply Z.div_mul. rewrite MS_PER_DAY_value. lia.
Qed.

(** The window of the lookup is the local calendar day of the bucket. *)
Lemma in_window_iff (tz : Z) (date : IsoDate) (t : Z) :
  startOfDay tz date <= t <= endOfDay tz date
  <-> localDay tz t = localDay tz (startOfDay tz date).
Proof.
  rewrite localDay_startOfDay.
  unfold startOfDay, endOfDay, setHours, localMidnight, localDay.
  set (q := (parseIsoDate date + tz) / MS_PER_DAY).
  unfold MS_PER_HOUR. rewrite MS_PER_DAY_value. split.
  - intro H. symmetry.
    apply (Z.div_unique (t + tz) 86400000 q (t + tz - 86400000 * q)); lia.
  - intro H.
    pose proof (Z.div_mod (t + tz) 86400000) as E.
    pose proof (Z.mod_pos_bound (t + tz) 86400000) as P.
    rewrite H in E. lia.
Qed.

Lemma startOfDay_inj (tz : Z) (d1 d2 : IsoDate) :
  startOfDay tz d1 = startOfDay tz d2 -> d1 = d2.
Proof.
  unfold startOfDay, setHours, localMidnight, parseIsoDate.
  rewrite !Z.div_add_l by (rewrite MS_PER_DAY_value; lia).
  rewrite MS_PER_DAY_value. lia.
Qed.

Lemma AnomalyType_eqb_eq (a b : AnomalyType) :
  AnomalyType_eqb a b = true <-> a = b.
Proof. destruct a, b; cbn; split; (reflexivity || discriminate). Qed.

Lemma matchesFilter_iff (tz : Z) (u : Z) (t : AnomalyType) (date : IsoDate)
    (r : AnomalyRecord) :
  matchesFilter u t (startOfDay tz date) (endOfDay tz date) r = true
  <-> tripleOf tz r = (u, t, localDay tz (startOfDay tz date)).
Proof.
  unfold matchesFilter, tripleOf.
  rewrite !andb_true_iff, Z.eqb_eq, AnomalyType_eqb_eq, !Z.leb_le.
  pose proof (in_window_iff tz date (affectedPeriod_start r)) as W.
  split.
  - intros (((-> & ->) & L) & U). f_equal. apply W. lia.
  - intro E. injection E as -> -> D. apply W in D. tauto.
Qed.

Lemma matchesFilter_newAnomaly (tz : Z) (env : Env) (u : Z) (d : Detection)
    (date : IsoDate) :
  matchesFilter u (anomalyType d) (startOfDay tz date) (endOfDay tz date)
    (newAnomaly tz env u d date) = true.
Proof. apply matchesFilter_iff. reflexivity. Qed.

Lemma present_iff (tz : Z) (s : Store) (u : Z) (t : AnomalyType)
    (date : IsoDate) :
  present s u t (startOfDay tz date) (endOfDay tz date) = true
  <-> In (u, t, localDay tz (startOfDay tz date)) (map (tripleOf tz) s).
Proof.
  unfold present. rewrite existsb_exists, in_map_iff.
  split; intros (r & H1 & H2).
  - exists r. split; [apply matchesFilter_iff, H2 | exact H1].
  - exists r. split; [exact H2 | apply matchesFilter_iff, H1].
Qed.

(** The step, case by case: the lookup rejects; a record of the same
    unit and type exists for the day, and nothing happens; the save
    rejects; a new ACTIVE record is appended. *)
Lemma createAnomalyIfNotExists_cases (tz : Z) (env : Env) (u : Z)
    (d : Detection) (date : IsoDate) (s : Store) :
  createAnomalyIfNotExists tz env u d date s
  = match Anomaly_findOne_rejects env u (anomalyType d) (startOfDay tz date)
            (endOfDay tz date) with
    | Some e => (Throw e, s, [])
    | None =>
        if present s u (anomalyType d) (startOfDay tz date) (endOfDay tz date)
        then (Ok tt, s, [])
        else
          match Anomaly_save_rejects env (newAnomaly tz env u d date) with
          | Some e => (Throw e, s, [])
          | None =>
              (Ok tt, s ++ [newAnomaly tz env u d date],
               [LogCreated (anomalyType d) date])
          end
    end.
Proof.
  unfold createAnomalyIfNotExists, bind, Anomaly_findOne.
  fold (startOfDay tz date). fold (endOfDay tz date).
  destruct (Anomaly_findOne_rejects env u (anomalyType d) (startOfDay tz date)
              (endOfDay tz date)); [reflexivity |].
  pose proof (find_present s u (anomalyType d) (startOfDay tz date)
                (endOfDay tz date)) as F.
  destruct (find _ s) as [r |].
  - destruct (present s u (anomalyType d) (startOfDay tz date)
                (endOfDay tz date)); [reflexivity |].
    destruct F as [_ F]. discriminate (F eq_refl).
  - rewrite (proj1 F eq_refl). fold (newAnomaly tz env u d date).
    unfold Anomaly_save.
    destruct (Anomaly_save_rejects env (newAnomaly tz env u d date));
      reflexivity.
Qed.

Lemma createAnomalyIfNotExists_Emits (tz : Z) (env : Env) (u : Z)
    (d : Detection) (date : IsoDate)
    (PE : Event -> Prop) (PR : AnomalyRecord -> Prop) :
  PE (LogCreated (anomalyType d) date) ->
  PR (newAnomaly tz env u d date) ->
  Emits PE PR (createAnomalyIfNotExists tz env u d date).
Proof.
  intros HE HR s. rewrite createAnomalyIfNotExists_cases.
  destruct (Anomaly_findOne_rejects _ _ _ _ _); cbn.
  - split; [constructor |]. exists []. rewrite app_nil_r.
    split; [reflexivity | constructor].
  - destruct (present _ _ _ _ _); cbn.
    + split; [constructor |]. exists []. rewrite app_nil_r.
      split; [reflexivity | constructor].
    + destruct (Anomaly_save_rejects _ _); cbn.
      * split; [constructor |]. exists []. rewrite app_nil_r.
        split; [reflexivity | constructor].
      * split; [repeat constructor; exact HE |].
        eexists. split; [reflexivity |]. repeat constructor. exact HR.
Qed.

(** The step keeps the collection free of duplicate keys. *)
Lemma createAnomalyIfNotExists_Preserves (tz : Z) (env : Env) (u : Z)
    (d : Detection) (date : IsoDate) :
  Preserves (Deduplicated tz) (createAnomalyIfNotExists tz env u d date).
Proof.
  intros s I. rewrite createAnomalyIfNotExists_cases.
  destruct (Anomaly_findOne_rejects _ _ _ _ _); [exact I |].
  destruct (present _ _ _ _ _) eqn:P; [exact I |].
  destruct (Anomaly_save_rejects _ _); [exact I |].
  cbn. unfold Deduplicated in *. rewrite map_app. cbn [map].
  apply NoDup_app; [exact I | repeat constructor; intros [] |].
  intros k K [<- | []].
  apply (present_iff tz s u (anomalyType d) date) in K. congruence.
Qed.

(** Run again on a collection where its lookup succeeds, the step does
    nothing; run again where it still fails, it ends as before. *)
Lemma createAnomalyIfNotExists_Settled (tz : Z) (env : Env) (u : Z)
    (d : Detection) (date : IsoDate) :
  Settled (createAnomalyIfNotExists tz env u d date).
Proof.
  intros s s'. rewrite !createAnomalyIfNotExists_cases.
  destruct (Anomaly_findOne_rejects _ _ _ _ _); [cbn; auto |].
  destruct (present s _ _ _ _) eqn:P.
  - cbn. intros C _. rewrite (C _ _ _ _ P). cbn. auto.
  - destruct (Anomaly_save_rejects _ _) as [e |]; cbn.
    + intros _ T. specialize (T e eq_refl).
      destruct (present s' _ _ _ _) eqn:P'.
      * apply T in P'. congruence.
      * cbn. auto.
    + intros C _.
      rewrite (C u (anomalyType d) (startOfDay tz date) (endOfDay tz date)).
      * cbn. auto.
      * unfold present. rewrite existsb_app. cbn.
        rewrite matchesFilter_newAnomaly. apply orb_true_r.
Qed.

(** ** One bucket *)

Lemma detectSensorMalfunction_type (tz : Z) (e cap : Q) (ts : Z)
    (rr : list Q) (d : Detection) :
  detectSensorMalfunction tz e cap ts rr = Some d ->
  anomalyType d = SENSOR_MALFUNCTION.
Proof.
  unfold detectSensorMalfunction.
  destruct (sensorIssues tz e cap ts rr); [discriminate |].
  intro E. injection E as <-. reflexivity.
Qed.

Lemma processBucket_Emits (tz : Z) (env : Env) (u : SolarUnit)
    (historicalAverage : Q) (rr : list Q) (date : IsoDate) (data : DayData) :
  Emits (BucketEvent tz u rr date data) (BucketRecord tz u rr date data)
    (processBucket tz env u historicalAverage rr (date, data)).
Proof.
  unfold processBucket.
  apply Emits_seq; [apply Emits_tell; exact I |].
  apply Emits_seq.
  { apply Emits_tell. cbn. repeat split. }
  destruct (detectSensorMalfunction tz (total data)
              (JS.or_default (capacity u) 5) (parseIsoDate date) rr)
    as [sensorCheck |] eqn:S.
  - apply createAnomalyIfNotExists_Emits; [exact I |].
    repeat split. intros _. cbn.
    eapply detectSensorMalfunction_type, S.
  - apply Emits_seq.
    { apply Emits_tell. cbn. repeat split. exact S. }
    apply Emits_seq.
    { apply Emits_tell. cbn. repeat split. exact S. }
    apply Emits_bind.
    + destruct (_ && _); [| apply Emits_ret].
      apply Emits_seq; [| apply Emits_ret].
      apply Emits_tell. cbn. repeat split. exact S.
    + intro detections. apply Emits_forOf. intros d _.
      apply createAnomalyIfNotExists_Emits; [exact I |].
      repeat split. cbn. rewrite S. intro N. contradiction N. reflexivity.
Qed.

(** When the sensor check fires, processing the bucket is the bucket
    line, the sensor call, and the persistence of the sensor result. *)
Lemma processBucket_sensor_fired (tz : Z) (env : Env) (u : SolarUnit)
    (historicalAverage : Q) (rr : list Q) (date : IsoDate) (data : DayData)
    (sensorCheck : Detection) (s : Store) :
  callResult tz (bucketSensorCall u rr date data) = Some sensorCheck ->
  processBucket tz env u historicalAverage rr (date, data) s
  = let '(o, s', l) :=
      createAnomalyIfNotExists tz env (unit_id u) sensorCheck date s in
    (o, s',
     LogBucket date (total data) (JS.Math_round (avgCloud data))
       (avgPrecip data)
     :: Evaluated (unit_id u) date (bucketSensorCall u rr date data) true
     :: l).
Proof.
  cbn [callResult bucketSensorCall]. intro S.
  unfold processBucket. rewrite S. unfold bind, tell. cbn.
  destruct (createAnomalyIfNotExists tz env (unit_id u) sensorCheck date s)
    as [[o s'] l].
  reflexivity.
Qed.

(** ** Daily buckets have distinct dates *)

Lemma Map_modify_keys (date : IsoDate) (f : DayData -> DayData)
    (m : DailyTotals) :
  map fst (Map_modify date f m) = map fst m.
Proof.
  induction m as [| [k v] m IH]; cbn; [reflexivity |].
  destruct (k =? date); cbn; [reflexivity | rewrite IH; reflexivity].
Qed.

Lemma Map_has_In (date : IsoDate) (m : DailyTotals) :
  Map_has date m = true <-> In date (map fst m).
Proof.
  induction m as [| [k v] m IH]; cbn; [split; [discriminate | tauto] |].
  rewrite orb_true_iff, Z.eqb_eq, IH. tauto.
Qed.

Lemma addRecord_keys_NoDup (m : DailyTotals) (r : EnergyGenerationRecord) :
  NoDup (map fst m) -> NoDup (map fst (addRecord m r)).
Proof.
  intro N. unfold addRecord. rewrite Map_modify_keys.
  destruct (Map_has _ m) eqn:H; [exact N |].
  rewrite map_app. cbn [map fst].
  apply NoDup_app; [exact N | repeat constructor; intros [] |].
  intros k K [<- | []]. apply Map_has_In in K. congruence.
Qed.

Lemma buildDailyTotals_keys_NoDup (records : list EnergyGenerationRecord) :
  NoDup (map fst (buildDailyTotals records)).
Proof.
  unfold buildDailyTotals. rewrite map_map. cbn [fst].
  assert (forall m, NoDup (map fst m) ->
                    NoDup (map fst (fold_left addRecord records m))) as G.
  { induction records as [| r records IH]; intros m N; cbn; [exact N |].
    apply IH, addRecord_keys_NoDup, N. }
  apply G. constructor.
Qed.

Lemma NoDup_keys_unique {K V : Type} (m : list (K * V)) (k : K) (v v' : V) :
  NoDup (map fst m) -> In (k, v) m -> In (k, v') m -> v = v'.
Proof.
  induction m as [| [k0 v0] m IH]; cbn; intros N H H'; [destruct H |].
  inversion N as [| ? ? Nk Nm]. subst.
  destruct H as [E | H], H' as [E' | H'].
  - congruence.
  - injection E as -> ->. contradiction Nk.
    apply (in_map fst) in H'. exact H'.
  - injection E' as -> ->. contradiction Nk.
    apply (in_map fst) in H. exact H.
  - apply IH; assumption.
Qed.

Lemma NoDup_map_unique {X Y : Type} (f : X -> Y) (l : list X) (a b : X) :
  NoDup (map f l) -> In a l -> In b l -> f a = f b -> a = b.
Proof.
  induction l as [| x l IH]; cbn; intros N Ha Hb E; [destruct Ha |].
  inversion N as [| ? ? Nx Nl]. subst.
  destruct Ha as [-> | Ha], Hb as [-> | Hb].
  - reflexivity.
  - contradiction Nx. rewrite E. apply in_map, Hb.
  - contradiction Nx. rewrite <- E. apply in_map, Ha.
  - apply IH; assumption.
Qed.

(** ** One unit, and the run *)

Lemma Emits_await_bind {A B : Type} (PE : Event -> Prop)
    (PR : AnomalyRecord -> Prop) (answer : Outcome A) (k : A -> M B) :
  (forall a, answer = Ok a -> Emits PE PR (k a)) ->
  Emits PE PR (bind (await answer) k).
Proof.
  intros H s. unfold bind, await. destruct answer as [a | e]; cbn.
  - destruct (H a eq_refl s) as (L & cr & S & R).
    destruct (k a s) as [[r s2] l2]; cbn in *.
    split; [exact L |]. exists cr. split; assumption.
  - split; [constructor |]. exists []. rewrite app_nil_r.
    split; [reflexivity | constructor].
Qed.

Lemma processUnit_Emits (tz : Z) (env : Env) (u : SolarUnit) :
  In u (activeUnits env) ->
  Emits (RunEvent tz env) (RunRecord tz env) (processUnit tz env u).
Proof.
  intro U. unfold processUnit.
  apply Emits_seq; [apply Emits_tell; exact I |].
  apply Emits_await_bind. intros records R.
  assert (unitRecords env u = records) as UR
    by (unfold unitRecords; rewrite R; reflexivity).
  destruct (length records =? 0)%nat; [apply Emits_tell; exact I |].
  apply Emits_bind; [apply Emits_await |]. intro historicalRecords.
  apply Emits_forOf. intros [date data] D.
  eapply Emits_weaken; [| | apply processBucket_Emits].
  - intros [] E; cbn; try exact I.
    cbn in E. destruct E as (-> & -> & E).
    exists u, data. unfold unitBuckets, unitRecentReadings. rewrite UR.
    split; [exact U | split; [reflexivity | split; [exact D | exact E]]].
  - intros r E. exists u, date, data.
    unfold unitBuckets, unitRecentReadings. rewrite UR.
    split; [exact U | split; [exact D | exact E]].
Qed.

Lemma runAnomalyDetection_Emits (tz : Z) (env : Env) :
  Emits (RunEvent tz env) (RunRecord tz env) (runAnomalyDetection tz env).
Proof.
  unfold runAnomalyDetection.
  apply Emits_seq; [apply Emits_tell; exact I |].
  apply Emits_tryCatch.
  - apply Emits_await_bind. intros units U.
    assert (activeUnits env = units) as AU
      by (unfold activeUnits; rewrite U; reflexivity).
    apply Emits_seq; [| apply Emits_tell; exact I].
    apply Emits_forOf. intros u Hu. apply processUnit_Emits.
    rewrite AU. exact Hu.
  - intro e. apply Emits_seq; [apply Emits_tell; exact I | apply Emits_throw].
Qed.

(** ** Precedence of the sensor check *)

(** C1. When the sensor check fires for a bucket, processing that bucket
    consists of the sensor call and the persistence of its result only.
    In a run over units of distinct identifiers: if the log records a
    sensor check that fired for a unit and date, then that check did
    return a detection, no other detector call is recorded for that unit
    and date, and every record the run created for that unit and day is a
    SENSOR_MALFUNCTION record (none is COMPLETE_FAILURE, WEATHER_RELATED
    or DEGRADATION). *)
Theorem sensor_check_suppresses_other_detectors
    (tz : Z) (env : Env) (s : Store) :
  (forall u historicalAverage rr date data sensorCheck s0,
      detectSensorMalfunction tz (total data) (JS.or_default (capacity u) 5)
        (parseIsoDate date) rr = Some sensorCheck ->
      processBucket tz env u historicalAverage rr (date, data) s0
      = let '(o, s', l) :=
          createAnomalyIfNotExists tz env (unit_id u) sensorCheck date s0 in
        (o, s',
         LogBucket date (total data) (JS.Math_round (avgCloud data))
           (avgPrecip data)
         :: Evaluated (unit_id u) date (bucketSensorCall u rr date data) true
         :: l))
  /\ (NoDup (map unit_id (activeUnits env)) ->
     exists created,
       store_of (runAnomalyDetection tz env s) = s ++ created
       /\ forall unit date e cap ts rr,
            In (Evaluated unit date (CallSensor e cap ts rr) true)
               (log_of (runAnomalyDetection tz env s)) ->
            anomalyDetected (detectSensorMalfunction tz e cap ts rr) = true
            /\ (forall call fired,
                  In (Evaluated unit date call fired)
                     (log_of (runAnomalyDetection tz env s)) ->
                  call = CallSensor e cap ts rr)
            /\ (forall r,
                  In r created ->
                  rec_solarUnitId r = unit ->
                  affectedPeriod_start r = startOfDay tz date ->
                  rec_anomalyType r = SENSOR_MALFUNCTION
                  /\ rec_anomalyType r <> COMPLETE_FAILURE
                  /\ rec_anomalyType r <> WEATHER_RELATED
                  /\ rec_anomalyType r <> DEGRADATION)).
Proof.
  split.
  { intros u h rr date data sc s0 S.
    apply processBucket_sensor_fired. exact S. }
  intro N.
  destruct (runAnomalyDetection_Emits tz env s) as (L & created & S & R).
  exists created. split; [exact S |].
  rewrite Forall_forall in L, R.
  intros unit date e cap ts rr Ev.
  pose proof (L _ Ev) as (u & data & U & Id & D & F & C).
  cbv beta iota in C.
  change (callResult tz (CallSensor e cap ts rr))
    with (detectSensorMalfunction tz e cap ts rr) in F.
  split; [symmetry; exact F |].
  assert (callResult tz (bucketSensorCall u (unitRecentReadings env u)
                           date data) <> None) as Fired.
  { rewrite <- C.
    change (callResult tz (CallSensor e cap ts rr))
      with (detectSensorMalfunction tz e cap ts rr).
    intro E. rewrite E in F. discriminate F. }
  split.
  - intros call fired Ev'.
    pose proof (L _ Ev') as (u' & data' & U' & Id' & D' & F' & C').
    assert (u' = u) as ->
      by (apply (NoDup_map_unique unit_id (activeUnits env)); congruence).
    assert (data' = data) as ->
      by (apply (NoDup_keys_unique (unitBuckets env u) date);
          [apply buildDailyTotals_keys_NoDup | assumption | assumption]).
    destruct call; [congruence | | |];
      exfalso; apply Fired; (exact C' || apply C').
  - intros r Hr Id' St.
    destruct (R _ Hr) as (u' & date' & data' & U' & D' & B).
    destruct B as (Bu & Bs & _ & _ & Bt).
    assert (u' = u) as ->
      by (apply (NoDup_map_unique unit_id (activeUnits env)); congruence).
    assert (date' = date) as ->
      by (apply (startOfDay_inj tz); congruence).
    assert (data' = data) as ->
      by (apply (NoDup_keys_unique (unitBuckets env u) date);
          [apply buildDailyTotals_keys_NoDup | assumption | assumption]).
    rewrite (Bt Fired). repeat split; discriminate.
Qed.

Lemma sensor_check_suppresses_other_detectors_witness :
  NoDup (map unit_id (activeUnits envFailingUnitLast))
  /\ forall call fired,
       In (Evaluated 2 9 call fired)
          (log_of (runAnomalyDetection 0 envFailingUnitLast [])) ->
       call = CallSensor (-1) 5 (parseIsoDate 9) [(-1)%Q].
Proof.
  assert (NoDup (map unit_id (activeUnits envFailingUnitLast))) as N.
  { cbn. repeat constructor; cbn; intuition discriminate. }
  split; [exact N |].
  destruct (proj2 (sensor_check_suppresses_other_detectors 0
                     envFailingUnitLast []) N)
    as (created & _ & H).
  apply (H 2 9 (-1)%Q 5%Q (parseIsoDate 9) [(-1)%Q]).
  vm_compute. right. right. right. left. reflexivity.
Defined.

(** ** Deduplication and idempotence *)

Ltac split_cases :=
  match goal with
  | |- context [match ?x with _ => _ end] => destruct x
  end.

Ltac emits_any :=
  repeat first
    [ apply Emits_ret
    | apply Emits_throw
    | apply Emits_await
    | apply Emits_tell; exact I
    | apply createAnomalyIfNotExists_Emits; exact I
    | apply Emits_forOf; intros
    | apply Emits_tryCatch; intros
    | apply Emits_bind; intros
    | split_cases ].

Ltac settled :=
  repeat first
    [ apply createAnomalyIfNotExists_Settled
    | apply Settled_pure; intros; reflexivity
    | apply Settled_forOf; [intros | intros; emits_any]
    | apply Settled_bind; [| intros | intros; emits_any]
    | split_cases ].

Ltac preserves :=
  repeat first
    [ apply createAnomalyIfNotExists_Preserves
    | apply Preserves_pure; intros; reflexivity
    | apply Preserves_forOf; intros
    | apply Preserves_bind; intros
    | split_cases ].

Lemma processBucket_Emits_any (tz : Z) (env : Env) (u : SolarUnit)
    (h : Q) (rr : list Q) (entry : IsoDate * DayData) :
  Emits (fun _ => True) (fun _ => True) (processBucket tz env u h rr entry).
Proof. destruct entry. unfold processBucket. emits_any. Qed.

Lemma processBucket_Settled (tz : Z) (env : Env) (u : SolarUnit)
    (h : Q) (rr : list Q) (entry : IsoDate * DayData) :
  Settled (processBucket tz env u h rr entry).
Proof. destruct entry. unfold processBucket. settled. Qed.

Lemma processBucket_Preserves (tz : Z) (env : Env) (u : SolarUnit)
    (h : Q) (rr : list Q) (entry : IsoDate * DayData) :
  Preserves (Deduplicated tz) (processBucket tz env u h rr entry).
Proof. destruct entry. unfold processBucket. preserves. Qed.

Lemma processUnit_Emits_any (tz : Z) (env : Env) (u : SolarUnit) :
  Emits (fun _ => True) (fun _ => True) (processUnit tz env u).
Proof.
  unfold processUnit.
  apply Emits_seq; [apply Emits_tell; exact I |].
  apply Emits_bind; [apply Emits_await |]. intro records.
  destruct (_ =? _)%nat; [apply Emits_tell; exact I |].
  apply Emits_bind; [apply Emits_await |]. intro historicalRecords.
  apply Emits_forOf. intros entry _. apply processBucket_Emits_any.
Qed.

Lemma processUnit_Settled (tz : Z) (env : Env) (u : SolarUnit) :
  Settled (processUnit tz env u).
Proof.
  unfold processUnit.
  apply Settled_bind; [apply Settled_pure; intros; reflexivity | |].
  2: { intros _. apply Emits_bind; [apply Emits_await |]. intro records.
       destruct (_ =? _)%nat; [apply Emits_tell; exact I |].
       apply Emits_bind; [apply Emits_await |]. intro historicalRecords.
       apply Emits_forOf. intros entry _. apply processBucket_Emits_any. }
  intros _.
  apply Settled_bind; [apply Settled_pure; intros; reflexivity | |].
  2: { intro records.
       destruct (_ =? _)%nat; [apply Emits_tell; exact I |].
       apply Emits_bind; [apply Emits_await |]. intro historicalRecords.
       apply Emits_forOf. intros entry _. apply processBucket_Emits_any. }
  intro records.
  destruct (_ =? _)%nat; [apply Settled_pure; intros; reflexivity |].
  apply Settled_bind; [apply Settled_pure; intros; reflexivity | |].
  2: { intro historicalRecords.
       apply Emits_forOf. intros entry _. apply processBucket_Emits_any. }
  intro historicalRecords.
  apply Settled_forOf; intro entry.
  - apply processBucket_Settled.
  - apply processBucket_Emits_any.
Qed.

Lemma processUnit_Preserves (tz : Z) (env : Env) (u : SolarUnit) :
  Preserves (Deduplicated tz) (processUnit tz env u).
Proof.
  unfold processUnit.
  apply Preserves_bind; [apply Preserves_pure; intros; reflexivity |].
  intros _.
  apply Preserves_bind; [apply Preserves_pure; intros; reflexivity |].
  intro records.
  destruct (_ =? _)%nat; [apply Preserves_pure; intros; reflexivity |].
  apply Preserves_bind; [apply Preserves_pure; intros; reflexivity |].
  intro historicalRecords.
  apply Preserves_forOf. intro entry. apply processBucket_Preserves.
Qed.

Lemma runAnomalyDetection_Settled (tz : Z) (env : Env) :
  Settled (runAnomalyDetection tz env).
Proof.
  unfold runAnomalyDetection.
  apply Settled_bind; [apply Settled_pure; intros; reflexivity | |].
  2: { intros _. apply Emits_tryCatch.
       - apply Emits_bind; [apply Emits_await |]. intro units.
         apply Emits_seq; [| apply Emits_tell; exact I].
         apply Emits_forOf. intros u _. apply processUnit_Emits_any.
       - intro e.
         apply Emits_seq; [apply Emits_tell; exact I | apply Emits_throw]. }
  intros _. apply (Settled_tryCatch_rethrow _ LogFailed).
  apply Settled_bind; [apply Settled_pure; intros; reflexivity | |].
  2: { intro units. apply Emits_seq; [| apply Emits_tell; exact I].
       apply Emits_forOf. intros u _. apply processUnit_Emits_any. }
  intro units.
  apply Settled_bind; [| intros _; apply Settled_pure; intros; reflexivity
                       | intros _; apply Emits_tell; exact I].
  apply Settled_forOf; intro u.
  - apply processUnit_Settled.
  - apply processUnit_Emits_any.
Qed.

Lemma runAnomalyDetection_Preserves (tz : Z) (env : Env) :
  Preserves (Deduplicated tz) (runAnomalyDetection tz env).
Proof.
  unfold runAnomalyDetection.
  apply Preserves_bind; [apply Preserves_pure; intros; reflexivity |].
  intros _. apply Preserves_tryCatch.
  - apply Preserves_bind; [apply Preserves_pure; intros; reflexivity |].
    intro units.
    apply Preserves_bind; [| intros _; apply Preserves_pure; intros;
                             reflexivity].
    apply Preserves_forOf. intro u. apply processUnit_Preserves.
  - intro e.
    apply Preserves_bind; [apply Preserves_pure; intros; reflexivity |].
    intros _. apply Preserves_pure. intros. reflexivity.
Qed.

(** A call that no other call interrupts is its two steps in a row. *)
Lemma createStep_twice (tz : Z) (env : Env) (u : Z) (d : Detection)
    (date : IsoDate) (s : Store) :
  createStep tz env u d date
    (fst (createStep tz env u d date AtLookup s))
    (snd (createStep tz env u d date AtLookup s))
  = (Returned (outcome (createAnomalyIfNotExists tz env u d date s)),
     store_of (createAnomalyIfNotExists tz env u d date s)).
Proof.
  rewrite createAnomalyIfNotExists_cases. unfold createStep.
  destruct (Anomaly_findOne_rejects env u (anomalyType d) (startOfDay tz date)
              (endOfDay tz date)); [reflexivity |].
  pose proof (find_present s u (anomalyType d) (startOfDay tz date)
                (endOfDay tz date)) as F.
  destruct (find _ s) as [r |].
  - destruct (present s u (anomalyType d) (startOfDay tz date)
                (endOfDay tz date)); [reflexivity |].
    destruct F as [_ F]. discriminate (F eq_refl).
  - rewrite (proj1 F eq_refl). cbn [fst snd].
    destruct (Anomaly_save_rejects env (newAnomaly tz env u d date));
      reflexivity.
Qed.

Lemma overlapped_in_turn (tz : Z) (env : Env) (u : Z) (d : Detection)
    (date : IsoDate) (s : Store) :
  snd (overlapped tz env u d date
         [FirstCall; FirstCall; SecondCall; SecondCall] AtLookup AtLookup s)
  = store_of
      (createAnomalyIfNotExists tz env u d date
         (store_of (createAnomalyIfNotExists tz env u d date s))).
Proof.
  cbn [overlapped].
  pose proof (createStep_twice tz env u d date s) as E1.
  destruct (createStep tz env u d date AtLookup s) as [p1 s1].
  cbn [fst snd] in E1. rewrite E1.
  pose proof (createStep_twice tz env u d date
                (store_of (createAnomalyIfNotExists tz env u d date s)))
    as E2.
  destruct (createStep tz env u d date AtLookup
              (store_of (createAnomalyIfNotExists tz env u d date s)))
    as [p2 s2].
  cbn [fst snd] in E2. rewrite E2. reflexivity.
Qed.

(** C2, as amended.  The key of a record is its unit, its type and the
    calendar day of its [affectedPeriod.start].  As long as no call of
    the persistence step runs between the lookup and the save of
    another: [createAnomalyIfNotExists] leaves the collection unchanged
    when a record with the key of its detection exists; otherwise it
    appends at most one record, which is ACTIVE and carries that key; a
    collection without two records of the same key stays so through the
    step, through two calls in turn and through a run of the
    orchestrator; and a second run in the same environment ends like the
    first and creates no record. *)
Theorem anomaly_store_deduplicated (tz : Z) (env : Env) (s : Store) :
  (forall u d date,
      let key := (u, anomalyType d, localDay tz (startOfDay tz date)) in
      let s' := store_of (createAnomalyIfNotExists tz env u d date s) in
      (Deduplicated tz s -> Deduplicated tz s')
      /\ (In key (map (tripleOf tz) s) -> s' = s)
      /\ (s' = s
          \/ (~ In key (map (tripleOf tz) s)
              /\ s' = s ++ [newAnomaly tz env u d date]
              /\ rec_status (newAnomaly tz env u d date) = ACTIVE
              /\ tripleOf tz (newAnomaly tz env u d date) = key))
      /\ (Deduplicated tz s ->
          Deduplicated tz
            (snd (overlapped tz env u d date
                    [FirstCall; FirstCall; SecondCall; SecondCall]
                    AtLookup AtLookup s))))
  /\ let s1 := store_of (runAnomalyDetection tz env s) in
     (Deduplicated tz s -> Deduplicated tz s1)
     /\ store_of (runAnomalyDetection tz env s1) = s1
     /\ outcome (runAnomalyDetection tz env s1)
        = outcome (runAnomalyDetection tz env s).
Proof.
  split.
  - intros u d date key s'. split; [| split; [| split]].
    + apply createAnomalyIfNotExists_Preserves.
    + intro K. apply present_iff in K. subst s'.
      rewrite createAnomalyIfNotExists_cases.
      destruct (Anomaly_findOne_rejects _ _ _ _ _); [reflexivity |].
      rewrite K. reflexivity.
    + subst s'. rewrite createAnomalyIfNotExists_cases.
      destruct (Anomaly_findOne_rejects _ _ _ _ _); [left; reflexivity |].
      destruct (present _ _ _ _ _) eqn:P; [left; reflexivity |].
      destruct (Anomaly_save_rejects _ _); [left; reflexivity |].
      right. split; [| repeat split].
      intro K. apply present_iff in K. congruence.
    + intro D. rewrite overlapped_in_turn.
      apply createAnomalyIfNotExists_Preserves.
      apply createAnomalyIfNotExists_Preserves. exact D.
  - cbn zeta. split; [apply runAnomalyDetection_Preserves |].
    destruct (runAnomalyDetection_Settled tz env s
                (store_of (runAnomalyDetection tz env s))) as (O & S).
    + apply Covers_refl.
    + intros _ _. apply Covers_refl.
    + split; assumption.
Qed.

Lemma anomaly_store_deduplicated_witness :
  (Deduplicated 0 storeAfterRun
   /\ In (1, SENSOR_MALFUNCTION, 9) (map (tripleOf 0) storeAfterRun))
  /\ store_of
       (createAnomalyIfNotExists 0 envBothUnitsLoad 1 sensorDetection 9
          storeAfterRun)
     = storeAfterRun
  /\ Deduplicated 0
       (store_of (runAnomalyDetection 0 envBothUnitsLoad storeAfterRun)).
Proof.
  assert (Deduplicated 0 storeAfterRun) as D.
  { unfold Deduplicated.
    assert (map (tripleOf 0) storeAfterRun
            = [(1, SENSOR_MALFUNCTION, 9); (2, SENSOR_MALFUNCTION, 9)]) as ->
      by (vm_compute; reflexivity).
    repeat constructor; cbn; intuition discriminate. }
  assert (In (1, SENSOR_MALFUNCTION, 9) (map (tripleOf 0) storeAfterRun)) as K
    by (vm_compute; left; reflexivity).
  split; [exact (conj D K) |].
  pose proof (anomaly_store_deduplicated 0 envBothUnitsLoad storeAfterRun)
    as (Step & Run & _).
  split.
  - apply (Step 1 sensorDetection 9). exact K.
  - apply Run. exact D.
Defined.

(** C2 as the specification states it, for any two calls, fails when the
    calls overlap: on an empty collection, two calls for the same unit,
    type and day whose lookups both precede the saves both find nothing,
    and both save. *)
Lemma overlapping_calls_duplicate :
  Deduplicated 0 []
  /\ snd (overlapped 0 envBothUnitsLoad 1 failureDetection 9
            [FirstCall; SecondCall; FirstCall; SecondCall]
            AtLookup AtLookup [])
     = [newAnomaly 0 envBothUnitsLoad 1 failureDetection 9;
        newAnomaly 0 envBothUnitsLoad 1 failureDetection 9]
  /\ ~ Deduplicated 0
         (snd (overlapped 0 envBothUnitsLoad 1 failureDetection 9
                 [FirstCall; SecondCall; FirstCall; SecondCall]
                 AtLookup AtLookup [])).
Proof.
  assert (snd (overlapped 0 envBothUnitsLoad 1 failureDetection 9
                 [FirstCall; SecondCall; FirstCall; SecondCall]
                 AtLookup AtLookup [])
          = [newAnomaly 0 envBothUnitsLoad 1 failureDetection 9;
             newAnomaly 0 envBothUnitsLoad 1 failureDetection 9]) as E
    by reflexivity.
  split; [constructor |]. split; [exact E |].
  rewrite E. unfold Deduplicated. cbn [map]. intro N.
  inversion N as [| ? ? NI _]. apply NI. left. reflexivity.
Qed.

(** ** Failure of one unit *)

(** C3, at a run over two units where loading the readings of the first
    one is rejected.  The run ends by throwing that error after logging
    it; the second unit is never processed and no record is created, while
    the same two units in the other order leave the record of the second
    unit: the loop over the units has no handler of its own. *)
Theorem unit_failure_aborts_run :
  runAnomalyDetection 0 envFirstUnitFails []
  = (Throw "store unavailable"%string, [],
     [LogStarting; LogProcessing "SU-A";
      LogFailed "store unavailable"%string])
  /\ ~ In (LogProcessing "SU-B")
          (log_of (runAnomalyDetection 0 envFirstUnitFails []))
  /\ outcome (runAnomalyDetection 0 envFailingUnitLast [])
     = Throw "store unavailable"%string
  /\ In (LogProcessing "SU-B")
        (log_of (runAnomalyDetection 0 envFailingUnitLast []))
  /\ map (fun r => (rec_solarUnitId r, rec_anomalyType r))
         (store_of (runAnomalyDetection 0 envFailingUnitLast []))
     = [(2, SENSOR_MALFUNCTION)].
Proof.
  split; [vm_compute; reflexivity |].
  split.
  { vm_compute. intros [H | [H | [H | []]]]; discriminate H. }
  split; [vm_compute; reflexivity |].
  split; [vm_compute; right; left; reflexivity |].
  vm_compute. reflexivity.
Qed.

(** A loop stops at the first iteration that throws: the elements after
    it are not visited. *)
Lemma forOf_stops_at_throw {A : Type} (body : A -> M unit)
    (before : list A) (x : A) (after : list A) (e : Error)
    (s s1 s2 : Store) (l1 l2 : list Event) :
  forOf before body s = (Ok tt, s1, l1) ->
  body x s1 = (Throw e, s2, l2) ->
  forOf (before ++ x :: after) body s = (Throw e, s2, l1 ++ l2).
Proof.
  revert s l1. induction before as [| y before IH]; intros s l1 H1 H2.
  - cbn in H1. injection H1 as <- <-. cbn. unfold bind. rewrite H2.
    reflexivity.
  - cbn in H1 |- *. unfold bind in *.
    destruct (body y s) as [[[[] | e'] s'] l']; [| discriminate H1].
    destruct (forOf before body s') as [[o s''] l''] eqn:F.
    injection H1 as -> -> <-.
    rewrite (IH s' l'' F H2), app_assoc. reflexivity.
Qed.

(** In general: when the readings of the first active unit cannot be
    loaded, the run logs the error and throws it, whatever units
    follow. *)
Lemma first_unit_failure_propagates (tz : Z) (env : Env) (s : Store)
    (u : SolarUnit) (others : list SolarUnit) (e : Error) :
  SolarUnit_find_active env = Ok (u :: others) ->
  Records_find_since env (unit_id u) (now env - 7 * MS_PER_DAY) = Throw e ->
  runAnomalyDetection tz env s
  = (Throw e, s, [LogStarting; LogProcessing (serialNumber u); LogFailed e]).
Proof.
  intros U R. unfold runAnomalyDetection, tryCatch, bind, await, tell.
  rewrite U. cbn [forOf]. unfold processUnit, bind, await, tell.
  rewrite R. reflexivity.
Qed.

(** ** The timestamp of a bucket *)

Lemma isDaytime_parseIsoDate (tz : Z) (date : IsoDate) :
  isDaytime tz (parseIsoDate date) = true
  <-> 6 * MS_PER_HOUR <= tz mod MS_PER_DAY <= 18 * MS_PER_HOUR.
Proof. rewrite isDaytime_window, localTimeOfDay_parseIsoDate. tauto. Qed.

Lemma night_generation_reported (tz : Z) (e cap : Q) (ts : Z) (rr : list Q) :
  isDaytime tz ts = false -> (JS.num 0.01 < e)%Q ->
  In nightIssue (reportedIssues (detectSensorMalfunction tz e cap ts rr))
  /\ anomalyDetected (detectSensorMalfunction tz e cap ts rr) = true.
Proof.
  intros N G.
  assert (In nightIssue (sensorIssues tz e cap ts rr)) as H.
  { unfold sensorIssues, checkNight.
    rewrite N, (proj2 (gtb_gt _ _) G). left. reflexivity. }
  rewrite reportedIssues_detectSensorMalfunction.
  split; [exact H |].
  apply anomalyDetected_detectSensorMalfunction.
  intro E. rewrite E in H. destruct H.
Qed.

(** A loop that ends normally has run its body to the end for each
    element, from some collection, and has logged what the body
    logged. *)
Lemma forOf_Ok_visits {A : Type} (body : A -> M unit) (xs : list A) :
  forall s,
    outcome (forOf xs body s) = Ok tt ->
    forall x,
      In x xs ->
      exists s0,
        outcome (body x s0) = Ok tt
        /\ incl (log_of (body x s0)) (log_of (forOf xs body s)).
Proof.
  induction xs as [| y xs IH]; intros s O x I; [destruct I |].
  cbn [forOf] in *. unfold bind in *.
  destruct (body y s) as [[[[] | e] s1] l1] eqn:B; [| discriminate O].
  destruct (forOf xs body s1) as [[o s2] l2] eqn:F.
  unfold outcome, log_of in *. cbn [fst snd] in *.
  destruct I as [<- | I].
  - exists s. rewrite B. cbn [fst snd]. split; [reflexivity |].
    apply incl_appl, incl_refl.
  - destruct (IH s1) with (x := x) as (s0 & H0 & H).
    + rewrite F. exact O.
    + exact I.
    + exists s0. split; [exact H0 |].
      rewrite F in H. cbn [snd] in H. apply incl_appr, H.
Qed.

Lemma tell_bind_log {B : Type} (ev : Event) (k : M B) (s : Store) :
  log_of (bind (tell ev) (fun _ => k) s) = ev :: log_of (k s).
Proof.
  unfold bind, tell, log_of. destruct (k s) as [[o s1] l1]. reflexivity.
Qed.

(** Processing a bucket logs its sensor check, whatever follows. *)
Lemma processBucket_logs_sensor (tz : Z) (env : Env) (u : SolarUnit)
    (h : Q) (rr : list Q) (date : IsoDate) (data : DayData) (s : Store) :
  In (Evaluated (unit_id u) date (bucketSensorCall u rr date data)
        (anomalyDetected (callResult tz (bucketSensorCall u rr date data))))
     (log_of (processBucket tz env u h rr (date, data) s)).
Proof.
  unfold processBucket. cbv beta iota zeta.
  rewrite !tell_bind_log. right. left. reflexivity.
Qed.

(** The historical average as [processUnit] computes it. *)
Lemma processUnit_cases (tz : Z) (env : Env) (u : SolarUnit) (s : Store) :
  processUnit tz env u s
  = match Records_find_since env (unit_id u) (now env - 7 * MS_PER_DAY) with
    | Throw e => (Throw e, s, [LogProcessing (serialNumber u)])
    | Ok records =>
        if (length records =? 0)%nat
        then (Ok tt, s,
              [LogProcessing (serialNumber u); LogNoRecords (serialNumber u)])
        else
          match Records_find_between env (unit_id u)
                  (now env - 30 * MS_PER_DAY) (now env - 7 * MS_PER_DAY) with
          | Throw e => (Throw e, s, [LogProcessing (serialNumber u)])
          | Ok hist =>
              let '(o, s1, l1) :=
                forOf (buildDailyTotals records)
                  (processBucket tz env u
                     (if (0 <? length hist)%nat
                      then JS.div
                             (fold_left
                                (fun sum r =>
                                   JS.add sum (egr_energyGenerated r))
                                hist 0%Q)
                             (inject_Z (Z.of_nat (length hist)))
                      else 0%Q)
                     (map egr_energyGenerated (JS.slice_first 10 records)))
                  s in
              (o, s1, LogProcessing (serialNumber u) :: l1)
          end
    end.
Proof.
  unfold processUnit, bind, tell, await.
  destruct (Records_find_since env (unit_id u) (now env - 7 * MS_PER_DAY))
    as [records | e]; [| reflexivity].
  destruct (length records =? 0)%nat; [reflexivity |].
  destruct (Records_find_between env (unit_id u) (now env - 30 * MS_PER_DAY)
              (now env - 7 * MS_PER_DAY)) as [hist | e]; [| reflexivity].
  destruct (forOf _ _ s) as [[o s1] l1]. reflexivity.
Qed.

(** A unit that is processed to the end logs the sensor check of each of
    its buckets. *)
Lemma processUnit_logs_sensor (tz : Z) (env : Env) (u : SolarUnit)
    (s : Store) (date : IsoDate) (data : DayData) :
  outcome (processUnit tz env u s) = Ok tt ->
  In (date, data) (unitBuckets env u) ->
  In (Evaluated (unit_id u) date
        (bucketSensorCall u (unitRecentReadings env u) date data)
        (anomalyDetected
           (callResult tz
              (bucketSensorCall u (unitRecentReadings env u) date data))))
     (log_of (processUnit tz env u s)).
Proof.
  rewrite processUnit_cases.
  unfold unitBuckets, unitRecentReadings, unitRecords.
  destruct (Records_find_since env (unit_id u) (now env - 7 * MS_PER_DAY))
    as [records | e]; [| discriminate].
  destruct (length records =? 0)%nat eqn:L.
  { apply Nat.eqb_eq in L. destruct records; [| discriminate L].
    intros _ []. }
  destruct (Records_find_between env (unit_id u) (now env - 30 * MS_PER_DAY)
              (now env - 7 * MS_PER_DAY)) as [hist | e]; [| discriminate].
  set (h := if (0 <? length hist)%nat then _ else 0%Q).
  set (rr := map egr_energyGenerated (JS.slice_first 10 records)).
  intros O I.
  destruct (forOf_Ok_visits (processBucket tz env u h rr)
              (buildDailyTotals records) s) with (x := (date, data))
    as (s0 & _ & H).
  - destruct (forOf _ _ s) as [[o s1] l1]. exact O.
  - exact I.
  - destruct (forOf _ _ s) as [[o s1] l1].
    unfold log_of in *. cbn [snd] in *. right. apply H.
    apply (processBucket_logs_sensor tz env u h rr date data s0).
Qed.

(** A run that ends normally logs the sensor check of every bucket of
    every active unit. *)
Lemma runAnomalyDetection_logs_sensor (tz : Z) (env : Env) (s : Store)
    (u : SolarUnit) (date : IsoDate) (data : DayData) :
  outcome (runAnomalyDetection tz env s) = Ok tt ->
  In u (activeUnits env) ->
  In (date, data) (unitBuckets env u) ->
  In (Evaluated (unit_id u) date
        (bucketSensorCall u (unitRecentReadings env u) date data)
        (anomalyDetected
           (callResult tz
              (bucketSensorCall u (unitRecentReadings env u) date data))))
     (log_of (runAnomalyDetection tz env s)).
Proof.
  unfold activeUnits, runAnomalyDetection, tryCatch, bind, tell, throw, await.
  destruct (SolarUnit_find_active env) as [units | e]; [| discriminate].
  destruct (forOf units (processUnit tz env) s) as [[[[] | e] s1] l1] eqn:F;
    [| discriminate].
  unfold outcome, log_of. cbn [fst snd app]. intros _ U B. right.
  apply in_or_app. left.
  destruct (forOf_Ok_visits (processUnit tz env) units s) with (x := u)
    as (s0 & O & H).
  - unfold outcome. rewrite F. reflexivity.
  - exact U.
  - unfold log_of in H. rewrite F in H. cbn [snd] in H. apply H.
    apply (processUnit_logs_sensor tz env u s0 date data O B).
Qed.

(** C10. The sensor and failure checks of a bucket receive
    [new Date(date)], midnight UTC of the date of the bucket.  When that
    instant is outside 06:00-18:00 local time (the offset modulo one day
    is below 6 h or above 18 h), it is not daytime for any bucket.  So
    every sensor check that a run logs was made at that instant on the
    total of a bucket of an active unit, and fired with the
    night-generation issue if the total exceeds 0.01; the failure check
    never fires; a run that ends normally has made the sensor check of
    every bucket of every active unit, and it fired for every bucket
    whose total exceeds 0.01; and processing such a bucket is nothing but
    the sensor call and the persistence of its result. *)
Theorem bucket_timestamp_is_utc_midnight (tz : Z) (env : Env) (s : Store) :
  tz mod MS_PER_DAY < 6 * MS_PER_HOUR \/ 18 * MS_PER_HOUR < tz mod MS_PER_DAY ->
  (forall date,
      parseIsoDate date mod MS_PER_DAY = 0
      /\ localTimeOfDay tz (parseIsoDate date) = tz mod MS_PER_DAY
      /\ isDaytime tz (parseIsoDate date) = false)
  /\ (forall unit date call fired,
        In (Evaluated unit date call fired)
           (log_of (runAnomalyDetection tz env s)) ->
        match call with
        | CallSensor e cap ts rr =>
            ts = parseIsoDate date
            /\ (exists u data,
                  In u (activeUnits env) /\ unit_id u = unit
                  /\ In (date, data) (unitBuckets env u)
                  /\ e = total data)
            /\ ((JS.num 0.01 < e)%Q ->
                fired = true
                /\ In nightIssue
                     (reportedIssues
                        (detectSensorMalfunction tz e cap ts rr)))
        | CallFailure e cap ts cloud =>
            ts = parseIsoDate date
            /\ fired = false
            /\ detectCompleteFailure tz e cap ts cloud = None
        | _ => True
        end)
  /\ (outcome (runAnomalyDetection tz env s) = Ok tt ->
      forall u date data,
        In u (activeUnits env) ->
        In (date, data) (unitBuckets env u) ->
        exists fired,
          In (Evaluated (unit_id u) date
                (bucketSensorCall u (unitRecentReadings env u) date data)
                fired)
             (log_of (runAnomalyDetection tz env s))
          /\ ((JS.num 0.01 < total data)%Q ->
              fired = true
              /\ In nightIssue
                   (reportedIssues
                      (callResult tz
                         (bucketSensorCall u (unitRecentReadings env u)
                            date data)))))
  /\ (forall u historicalAverage rr date data s0,
        (JS.num 0.01 < total data)%Q ->
        exists sensorCheck,
          detectSensorMalfunction tz (total data)
            (JS.or_default (capacity u) 5) (parseIsoDate date) rr
          = Some sensorCheck
          /\ In nightIssue (reportedIssues (Some sensorCheck))
          /\ processBucket tz env u historicalAverage rr (date, data) s0
             = let '(o, s', l) :=
                 createAnomalyIfNotExists tz env (unit_id u) sensorCheck
                   date s0 in
               (o, s',
                LogBucket date (total data) (JS.Math_round (avgCloud data))
                  (avgPrecip data)
                :: Evaluated (unit_id u) date
                     (bucketSensorCall u rr date data) true
                :: l)).
Proof.
  intro H.
  assert (forall date, isDaytime tz (parseIsoDate date) = false) as Night.
  { intro date. apply not_true_is_false. rewrite isDaytime_parseIsoDate.
    lia. }
  split; [| split; [| split]].
  - intro date. split; [| split].
    + unfold parseIsoDate. apply Z.mod_mul. rewrite MS_PER_DAY_value. lia.
    + apply localTimeOfDay_parseIsoDate.
    + apply Night.
  - intros unit date call fired Ev.
    destruct (runAnomalyDetection_Emits tz env s) as (L & _).
    rewrite Forall_forall in L.
    pose proof (L _ Ev) as (u & data & U & Id & D & F & C).
    destruct call as [e cap ts rr | e cap ts cloud | |]; [| | exact I ..].
    + cbv beta iota in C. unfold bucketSensorCall in C.
      injection C as -> -> -> ->.
      split; [reflexivity |].
      split; [exists u, data; repeat split; assumption |].
      intro G. rewrite F.
      destruct (night_generation_reported tz (total data)
                  (JS.or_default (capacity u) 5) (parseIsoDate date)
                  (unitRecentReadings env u) (Night date) G) as (N1 & N2).
      split; [exact N2 | exact N1].
    + cbv beta iota in C. destruct C as (_ & _ & _ & ->).
      assert (detectCompleteFailure tz e cap (parseIsoDate date) cloud = None)
        as K by (unfold detectCompleteFailure; rewrite Night; reflexivity).
      split; [reflexivity |]. split; [| exact K].
      rewrite F. cbn [callResult]. rewrite K. reflexivity.
  - intros O u date data U B. eexists. split.
    + apply (runAnomalyDetection_logs_sensor tz env s u date data O U B).
    + intro G.
      destruct (night_generation_reported tz (total data)
                  (JS.or_default (capacity u) 5) (parseIsoDate date)
                  (unitRecentReadings env u) (Night date) G) as (N1 & N2).
      split; [exact N2 | exact N1].
  - intros u h rr date data s0 G.
    destruct (night_generation_reported tz (total data)
                (JS.or_default (capacity u) 5) (parseIsoDate date) rr
                (Night date) G) as (N1 & N2).
    destruct (detectSensorMalfunction tz (total data)
                (JS.or_default (capacity u) 5) (parseIsoDate date) rr)
      as [sensorCheck |] eqn:S; [| discriminate N2].
    exists sensorCheck. split; [reflexivity |]. split; [exact N1 |].
    apply processBucket_sensor_fired. exact S.
Qed.

Lemma bucket_timestamp_is_utc_midnight_witness :
  ((19800000 mod MS_PER_DAY < 6 * MS_PER_HOUR
    \/ 18 * MS_PER_HOUR < 19800000 mod MS_PER_DAY)
   /\ outcome (runAnomalyDetection 19800000 envBothUnitsLoad []) = Ok tt
   /\ In unitA (activeUnits envBothUnitsLoad)
   /\ In (9, snd (firstBucket envBothUnitsLoad unitA))
        (unitBuckets envBothUnitsLoad unitA)
   /\ (JS.num 0.01 < total (snd (firstBucket envBothUnitsLoad unitA)))%Q)
  /\ In (Evaluated 1 9
           (bucketSensorCall unitA (unitRecentReadings envBothUnitsLoad unitA)
              9 (snd (firstBucket envBothUnitsLoad unitA)))
           true)
        (log_of (runAnomalyDetection 19800000 envBothUnitsLoad [])).
Proof.
  assert (19800000 mod MS_PER_DAY < 6 * MS_PER_HOUR
          \/ 18 * MS_PER_HOUR < 19800000 mod MS_PER_DAY) as H
    by (left; reflexivity).
  assert (outcome (runAnomalyDetection 19800000 envBothUnitsLoad []) = Ok tt)
    as O by (vm_compute; reflexivity).
  assert (In unitA (activeUnits envBothUnitsLoad)) as U
    by (left; reflexivity).
  assert (In (9, snd (firstBucket envBothUnitsLoad unitA))
            (unitBuckets envBothUnitsLoad unitA)) as B
    by (vm_compute; left; reflexivity).
  assert (JS.num 0.01 < total (snd (firstBucket envBothUnitsLoad unitA)))%Q
    as G by (vm_compute; reflexivity).
  split; [exact (conj H (conj O (conj U (conj B G)))) |].
  destruct (bucket_timestamp_is_utc_midnight 19800000 envBothUnitsLoad [] H)
    as (_ & _ & Run & _).
  destruct (Run O unitA 9 (snd (firstBucket envBothUnitsLoad unitA)) U B)
    as (fired & Ev & F).
  destruct (F G) as (-> & _). exact Ev.
Defined.

(** ** Scenarios of the specification *)

(** Weather masks a low output. *)
Example scenario_weather_masks_low_output :
  weatherVerdict (classifyWeatherImpact (JS.num 0.45) 4 85 8)
  = Some (WEATHER_RELATED, LOW, JS.num 0.8, false).
Proof. vm_compute. reflexivity. Qed.

(** The severity gate of the weather classifier. *)
Example scenario_weather_gate :
  (weatherSeverity 45 0 < JS.num 0.4)%Q
  /\ classifyWeatherImpact (JS.num 0.9) (JS.num 3.8) 45 0 = None.
Proof. split; vm_compute; reflexivity. Qed.

(** Degradation of about 35 percent: HIGH, confidence capped at 0.85. *)
Example scenario_degradation :
  exists d,
    detectPanelDegradation (JS.num 0.44) (JS.num 0.68) 15 = Some d
    /\ anomalyType d = DEGRADATION /\ severity d = HIGH
    /\ confidence d = JS.num 0.85.
Proof.
  eexists. split; [vm_compute; reflexivity |].
  repeat split; vm_compute; reflexivity.
Qed.

(** Six identical readings: the stuck-sensor issue alone, HIGH, 0.90. *)
Example scenario_stuck_sensor :
  exists d,
    detectSensorMalfunction 0 1 5 (12 * MS_PER_HOUR)
      (repeat (JS.num 2.3) 6) = Some d
    /\ reportedIssues (Some d) = [stuckIssue]
    /\ severity d = HIGH /\ confidence d = JS.num 0.9.
Proof.
  eexists. split; [vm_compute; reflexivity |].
  repeat split; vm_compute; reflexivity.
Qed.

(** A server eight hours east of Greenwich sees midnight UTC at 08:00: the
    bucket of a day with 0.02 kWh on a 5 kW unit is a complete failure. *)
Example scenario_bucket_in_daylight :
  map rec_anomalyType
    (store_of
       (processBucket (8 * MS_PER_HOUR) envFirstUnitFails unitA 0 []
          (9, mkDayData (JS.num 0.02) [] 25 0) []))
  = [COMPLETE_FAILURE].
Proof. vm_compute. reflexivity. Qed.

(** * Further properties of the engine *)

(** ** Degradation detector *)

Lemma degradationOf_antitone (cur cur' hist : Q) :
  (0 < hist)%Q -> (cur <= cur')%Q ->
  (degradationOf cur' hist <= degradationOf cur hist)%Q.
Proof.
  intros H L. unfold degradationOf, JS.sub, JS.mul, JS.div.
  apply round_mono.
  assert (JS.round (JS.round (cur / hist) * 100)
          <= JS.round (JS.round (cur' / hist) * 100))%Q as M.
  { apply round_mono. apply Qmult_le_compat_r; [| discriminate].
    apply round_mono. apply Qmult_le_compat_r; [exact L |].
    apply Qlt_le_weak, Qinv_lt_0_compat, H. }
  lra.
Qed.

Lemma degradationOf_no_shortfall (cur hist : Q) :
  (0 < hist)%Q -> (hist <= cur)%Q -> (degradationOf cur hist <= 0)%Q.
Proof.
  intros H L.
  assert (degradationOf hist hist == 0)%Q as Z0.
  { unfold degradationOf, JS.sub, JS.mul, JS.div.
    assert (hist / hist == 1)%Q as -> by (field; lra).
    assert (JS.round 1 == 1)%Q as -> by (vm_compute; reflexivity).
    assert (JS.round (1 * 100) == 100)%Q as -> by (vm_compute; reflexivity).
    apply round_zero. ring. }
  rewrite <- Z0. apply degradationOf_antitone; assumption.
Qed.

Lemma degradation_confidence (degradation : Q) :
  (Qmin (JS.num 0.85)
     (JS.add (JS.num 0.6) (JS.mul degradation (JS.num 0.01)))
   <= JS.num 0.85)%Q
  /\ ((25 < degradation)%Q ->
      (Qmin (JS.num 0.85)
         (JS.add (JS.num 0.6) (JS.mul degradation (JS.num 0.01)))
       == JS.num 0.85)%Q)
  /\ ((15 <= degradation)%Q ->
      (JS.num 0.75
       <= Qmin (JS.num 0.85)
            (JS.add (JS.num 0.6) (JS.mul degradation (JS.num 0.01))))%Q).
Proof.
  assert (0 <= JS.num 0.01)%Q as P by (vm_compute; discriminate).
  assert (forall k : Q,
             (k <= degradation)%Q ->
             (JS.add (JS.num 0.6) (JS.mul k (JS.num 0.01))
              <= JS.add (JS.num 0.6) (JS.mul degradation (JS.num 0.01)))%Q)
    as Mono.
  { intros k L. unfold JS.add, JS.mul. apply round_mono.
    assert (JS.round (k * JS.num 0.01)
            <= JS.round (degradation * JS.num 0.01))%Q as M
      by (apply round_mono, Qmult_le_compat_r; assumption).
    set (c := JS.num 0.6). lra. }
  split; [apply Q.le_min_l |]. split.
  - intro G. apply Q.min_l.
    eapply Qle_trans; [| apply (Mono 25%Q); lra].
    vm_compute. discriminate.
  - intro G. apply Q.min_glb; [vm_compute; discriminate |].
    eapply Qle_trans; [| apply (Mono 15%Q); exact G].
    vm_compute. discriminate.
Qed.

(** X1. [detectPanelDegradation] reports nothing for a historical
    average that is not positive.  For a positive one it fires exactly
    when the degradation it computes exceeds the threshold; never, for a
    threshold that is not negative, when the current generation is at
    least the average; and whenever it fires for a larger current
    generation.  The severity is HIGH exactly when the degradation
    exceeds 25 and MEDIUM otherwise; the confidence never exceeds 0.85,
    is 0.85 for every HIGH detection, and is at least 0.75 when the
    threshold is at least 15. *)
Theorem detectPanelDegradation_fires_iff (cur hist thr : Q) :
  ((hist <= 0)%Q -> detectPanelDegradation cur hist thr = None)
  /\ ((0 < hist)%Q ->
      (anomalyDetected (detectPanelDegradation cur hist thr) = true
       <-> (thr < degradationOf cur hist)%Q)
      /\ ((hist <= cur)%Q -> (0 <= thr)%Q ->
          detectPanelDegradation cur hist thr = None)
      /\ (forall cur',
             (cur <= cur')%Q ->
             anomalyDetected (detectPanelDegradation cur' hist thr) = true ->
             anomalyDetected (detectPanelDegradation cur hist thr) = true)
      /\ forall d,
           detectPanelDegradation cur hist thr = Some d ->
           anomalyType d = DEGRADATION
           /\ (severity d = HIGH <-> (25 < degradationOf cur hist)%Q)
           /\ (severity d = MEDIUM <-> (degradationOf cur hist <= 25)%Q)
           /\ (confidence d <= JS.num 0.85)%Q
           /\ (severity d = HIGH -> (confidence d == JS.num 0.85)%Q)
           /\ ((15 <= thr)%Q -> (JS.num 0.75 <= confidence d)%Q)).
Proof.
  split.
  - intro H. unfold detectPanelDegradation.
    rewrite (proj2 (Qle_bool_iff hist 0) H). reflexivity.
  - intro H.
    assert (forall c,
               detectPanelDegradation c hist thr
               = if JS.gtb (degradationOf c hist) thr
                 then Some {| anomalyType := DEGRADATION;
                              severity :=
                                if JS.gtb (degradationOf c hist) 25
                                then HIGH else MEDIUM;
                              confidence :=
                                Qmin (JS.num 0.85)
                                  (JS.add (JS.num 0.6)
                                     (JS.mul (degradationOf c hist)
                                        (JS.num 0.01)));
                              details :=
                                DegradationDetails c hist
                                  (JS.mul (JS.div c hist) 100)
                                  (degradationOf c hist) |}
                 else None) as Shape.
    { intro c. unfold detectPanelDegradation, degradationOf.
      assert (Qle_bool hist 0 = false) as ->; [| reflexivity].
      apply not_true_is_false. intro L. apply Qle_bool_iff in L. lra. }
    assert (forall c,
               anomalyDetected (detectPanelDegradation c hist thr) = true
               <-> (thr < degradationOf c hist)%Q) as Fires.
    { intro c. rewrite Shape, <- gtb_gt.
      destruct (JS.gtb (degradationOf c hist) thr); cbn;
        split; congruence. }
    split; [apply Fires |]. split; [| split].
    + intros L T. rewrite Shape.
      rewrite (proj2 (gtb_le (degradationOf cur hist) thr)); [reflexivity |].
      pose proof (degradationOf_no_shortfall cur hist H L). lra.
    + intros cur' L F. apply Fires. apply Fires in F.
      pose proof (degradationOf_antitone cur cur' hist H L). lra.
    + intros d E. rewrite Shape in E.
      destruct (JS.gtb (degradationOf cur hist) thr) eqn:G;
        [| discriminate E].
      apply gtb_gt in G. injection E as <-.
      cbn [anomalyType severity confidence].
      destruct (degradation_confidence (degradationOf cur hist))
        as (C1 & C2 & C3).
      split; [reflexivity |].
      destruct (JS.gtb (degradationOf cur hist) 25) eqn:G25.
      * apply gtb_gt in G25.
        split; [tauto |]. split; [split; [discriminate | lra] |].
        split; [exact C1 |]. split; [intros _; apply C2, G25 |].
        intro K. apply C3. lra.
      * apply gtb_le in G25.
        split; [split; [discriminate | lra] |]. split; [tauto |].
        split; [exact C1 |]. split; [discriminate |].
        intro K. apply C3. lra.
Qed.

Lemma detectPanelDegradation_fires_iff_witness :
  ((0 < 5)%Q /\ (5 <= 6)%Q /\ (0 <= 15)%Q)
  /\ detectPanelDegradation 6 5 15 = None.
Proof.
  assert (0 < 5)%Q as H by reflexivity.
  assert (5 <= 6)%Q as L by discriminate.
  assert (0 <= 15)%Q as T by discriminate.
  split; [exact (conj H (conj L T)) |].
  apply (proj2 (detectPanelDegradation_fires_iff 6 5 15) H); assumption.
Defined.

(** ** Severity and confidence of the sensor result *)

Lemma checkNight_fires (tz : Z) (e : Q) (ts : Z) :
  checkNight tz e ts = [nightIssue]
  <-> isDaytime tz ts = false /\ (JS.num 0.01 < e)%Q.
Proof.
  unfold checkNight. rewrite <- gtb_gt.
  destruct (isDaytime tz ts), (JS.gtb e (JS.num 0.01)); cbn [negb andb];
    intuition discriminate.
Qed.

Lemma checkCapacity_fires (e cap : Q) :
  checkCapacity e cap = [capacityIssue]
  <-> (JS.mul cap (JS.num 1.05) < e)%Q.
Proof.
  unfold checkCapacity. rewrite <- gtb_gt.
  destruct (JS.gtb e (JS.mul cap (JS.num 1.05))); intuition discriminate.
Qed.

Lemma checkNegative_fires (e : Q) :
  checkNegative e = [negativeIssue] <-> (e < 0)%Q.
Proof.
  unfold checkNegative. rewrite <- ltb_lt.
  destruct (JS.ltb e 0); intuition discriminate.
Qed.

Lemma sensorIssues_In_iff (tz : Z) (e cap : Q) (ts : Z) (rr : list Q)
    (i : Issue) :
  In i (sensorIssues tz e cap ts rr)
  <-> (i = nightIssue /\ checkNight tz e ts = [nightIssue])
      \/ (i = capacityIssue /\ checkCapacity e cap = [capacityIssue])
      \/ (i = stuckIssue /\ checkStuck rr = [stuckIssue])
      \/ (i = erraticIssue /\ checkErratic rr = [erraticIssue])
      \/ (i = negativeIssue /\ checkNegative e = [negativeIssue]).
Proof.
  split; [apply sensorIssues_members |].
  unfold sensorIssues. rewrite !in_app_iff.
  intros [[-> ->] | [[-> ->] | [[-> ->] | [[-> ->] | [-> ->]]]]]; cbn; tauto.
Qed.

Lemma criticalReading_iff (tz : Z) (e cap : Q) (ts : Z) (rr : list Q) :
  criticalReading tz e cap ts
  <-> exists i, In i (sensorIssues tz e cap ts rr)
                /\ issue_severity i = CRITICAL.
Proof.
  unfold criticalReading.
  rewrite <- checkNight_fires, <- checkCapacity_fires, <- checkNegative_fires.
  split.
  - intros [H | [H | H]].
    + exists nightIssue. rewrite sensorIssues_In_iff. tauto.
    + exists capacityIssue. rewrite sensorIssues_In_iff. tauto.
    + exists negativeIssue. rewrite sensorIssues_In_iff. tauto.
  - intros (i & I & S). apply sensorIssues_In_iff in I.
    destruct I as [[-> H] | [[-> H] | [[-> H] | [[-> H] | [-> H]]]]];
      try discriminate S; tauto.
Qed.

(** X2. The severity of a sensor-malfunction result: CRITICAL exactly when
    the reading is above 0.01 at night, above the computed product of the
    capacity and 1.05, or negative; otherwise HIGH exactly when the
    stuck-value check fired; otherwise MEDIUM (the erratic check alone);
    never LOW.  Its confidence is between 0.75 and 1. *)
Theorem sensor_result_severity
    (tz : Z) (e cap : Q) (ts : Z) (rr : list Q) (d : Detection) :
  detectSensorMalfunction tz e cap ts rr = Some d ->
  (severity d = CRITICAL <-> criticalReading tz e cap ts)
  /\ (severity d = HIGH
      <-> ~ criticalReading tz e cap ts /\ checkStuck rr = [stuckIssue])
  /\ (severity d = MEDIUM
      <-> ~ criticalReading tz e cap ts /\ checkStuck rr = []
          /\ checkErratic rr = [erraticIssue])
  /\ severity d <> LOW
  /\ (JS.num 0.75 <= confidence d <= 1)%Q.
Proof.
  intro E. pose proof (criticalReading_iff tz e cap ts rr) as CR.
  pose proof (sensorIssues_In_iff tz e cap ts rr) as IN.
  pose proof (sensorIssues_confidence_le_1 tz e cap ts rr) as LE1.
  unfold detectSensorMalfunction in E.
  destruct (sensorIssues tz e cap ts rr) as [| first rest]; [discriminate |].
  injection E as <-. cbn [severity confidence].
  pose proof (highestSeverity_member rest first) as M.
  pose proof (highestSeverity_upper rest first) as U.
  set (h := highestSeverity first rest) in *.
  assert (forall i, In i (first :: rest) ->
                    issue_severity i = CRITICAL ->
                    issue_severity h = CRITICAL) as Crit.
  { intros i I S. apply severityOrder_indexOf_max.
    specialize (U i I). rewrite S in U. exact U. }
  assert (checkStuck rr = [stuckIssue] ->
          issue_severity h = CRITICAL \/ issue_severity h = HIGH) as Stuck.
  { intro K. assert (In stuckIssue (first :: rest)) as I
      by (apply IN; tauto).
    specialize (U _ I). cbn in U. destruct (issue_severity h); cbn in U;
      (tauto || lia). }
  pose proof (checkStuck_cases rr) as SC.
  pose proof (proj1 (IN h) M) as Mh.
  split; [| split; [| split; [| split]]].
  - rewrite CR. split.
    + intro S. exists h. tauto.
    + intros (i & I & S). exact (Crit i I S).
  - rewrite CR. split.
    + intro S. split.
      * intros (i & I & Si). rewrite (Crit i I Si) in S. discriminate S.
      * destruct Mh as [[Eh K] | [[Eh K] | [[Eh K] | [[Eh K] | [Eh K]]]]];
          rewrite Eh in S; try discriminate S; exact K.
    + intros (NC & K). destruct (Stuck K) as [S | S]; [| exact S].
      contradiction NC. exists h. tauto.
  - rewrite CR. split.
    + intro S. split; [| split].
      * intros (i & I & Si). rewrite (Crit i I Si) in S. discriminate S.
      * destruct SC as [K | K]; [| exact K].
        destruct (Stuck K) as [S' | S']; rewrite S' in S; discriminate S.
      * destruct Mh as [[Eh K] | [[Eh K] | [[Eh K] | [[Eh K] | [Eh K]]]]];
          rewrite Eh in S; try discriminate S; exact K.
    + intros (NC & K & Er).
      destruct Mh as [[Eh K'] | [[Eh K'] | [[Eh K'] | [[Eh K'] | [Eh K']]]]].
      * contradiction NC. exists h. split; [exact M | rewrite Eh; reflexivity].
      * contradiction NC. exists h. split; [exact M | rewrite Eh; reflexivity].
      * rewrite K in K'. discriminate K'.
      * rewrite Eh. reflexivity.
      * contradiction NC. exists h. split; [exact M | rewrite Eh; reflexivity].
  - destruct Mh as [[Eh _] | [[Eh _] | [[Eh _] | [[Eh _] | [Eh _]]]]];
      rewrite Eh; discriminate.
  - split; [| apply maxConfidence_bounded; exact LE1].
    eapply Qle_trans; [| apply (maxConfidence_upper first rest first);
                         left; reflexivity].
    assert (In first (first :: rest)) as F by (left; reflexivity).
    apply IN in F.
    destruct F as [[-> _] | [[-> _] | [[-> _] | [[-> _] | [-> _]]]]];
      vm_compute; discriminate.
Qed.

Lemma sensor_result_severity_witness :
  exists d,
    detectSensorMalfunction 0 (JS.num 6.8) 5 (12 * MS_PER_HOUR) [] = Some d
    /\ (severity d = CRITICAL
        <-> criticalReading 0 (JS.num 6.8) 5 (12 * MS_PER_HOUR)).
Proof.
  eexists. split; [vm_compute; reflexivity |].
  eapply (sensor_result_severity 0 (JS.num 6.8) 5 (12 * MS_PER_HOUR) []).
  vm_compute. reflexivity.
Defined.

(** ** Daily buckets *)

Lemma In_Map_modify (date : IsoDate) (f : DayData -> DayData)
    (m : DailyTotals) (k : IsoDate) (v' : DayData) :
  NoDup (map fst m) ->
  In (k, v') (Map_modify date f m) ->
  (k <> date /\ In (k, v') m)
  \/ (k = date /\ exists v, In (date, v) m /\ v' = f v).
Proof.
  induction m as [| [k0 v0] m IH]; cbn; intros N H; [destruct H |].
  inversion N as [| ? ? Nk Nm]. subst.
  destruct (Z.eqb_spec k0 date) as [-> | D].
  - destruct H as [E | H].
    + injection E as <- <-. right. split; [reflexivity |].
      exists v0. split; [left; reflexivity | reflexivity].
    + left. split; [| right; exact H].
      intros ->. apply Nk. apply (in_map fst) in H. exact H.
  - destruct H as [E | H].
    + injection E as <- <-. left. split; [exact D | left; reflexivity].
    + destruct (IH Nm H) as [[D' I] | (-> & v & I & ->)].
      * left. split; [exact D' | right; exact I].
      * right. split; [reflexivity |]. exists v. split; [right; exact I |].
        reflexivity.
Qed.

Lemma recordsOn_snoc (date : IsoDate) (seen : list EnergyGenerationRecord)
    (r : EnergyGenerationRecord) :
  recordsOn date (seen ++ [r])
  = recordsOn date seen
    ++ (if isoDate (egr_timestamp r) =? date then [r] else []).
Proof. unfold recordsOn. rewrite filter_app. reflexivity. Qed.

Lemma recordsOn_none (date : IsoDate) (seen : list EnergyGenerationRecord) :
  (forall r, In r seen -> isoDate (egr_timestamp r) <> date) ->
  recordsOn date seen = [].
Proof.
  unfold recordsOn. induction seen as [| r seen IH]; intro H; cbn;
    [reflexivity |].
  destruct (Z.eqb_spec (isoDate (egr_timestamp r)) date) as [E | _].
  - contradiction (H r (or_introl eq_refl)).
  - apply IH. intros r' I. apply H. right. exact I.
Qed.

Lemma totalEnergy_snoc (l : list EnergyGenerationRecord)
    (r : EnergyGenerationRecord) :
  totalEnergy (l ++ [r]) = JS.add (totalEnergy l) (egr_energyGenerated r).
Proof. unfold totalEnergy. rewrite fold_left_app. reflexivity. Qed.

Lemma addRecord_BucketsOf (seen : list EnergyGenerationRecord)
    (m : DailyTotals) (r : EnergyGenerationRecord) :
  BucketsOf seen m -> BucketsOf (seen ++ [r]) (addRecord m r).
Proof.
  intros (N & B & C).
  pose proof (addRecord_keys_NoDup m r N) as N'.
  split; [exact N' |]. unfold addRecord in *.
  set (date := isoDate (egr_timestamp r)) in *.
  set (m1 := if Map_has date m then m else m ++ [(date, mkDayData 0 [] 0 0)])
    in *.
  assert (NoDup (map fst m1)) as N1.
  { rewrite Map_modify_keys in N'. exact N'. }
  assert (forall k v, In (k, v) m1 ->
                      In (k, v) m
                      \/ (k = date /\ v = mkDayData 0 [] 0 0
                          /\ Map_has date m = false)) as M1.
  { intros k v I. subst m1. destruct (Map_has date m) eqn:H; [left; exact I |].
    apply in_app_iff in I. destruct I as [I | [E | []]]; [left; exact I |].
    injection E as <- <-. right. repeat split. }
  split.
  - intros k v' I. apply In_Map_modify in I; [| exact N1].
    rewrite recordsOn_snoc.
    destruct I as [[D I] | (-> & v & I & ->)].
    + destruct (M1 _ _ I) as [I' | (E & _)]; [| contradiction].
      destruct (B _ _ I') as (R & NE & T).
      destruct (Z.eqb_spec (isoDate (egr_timestamp r)) k) as [E | _];
        [contradiction D; symmetry; exact E |].
      rewrite app_nil_r. repeat split; assumption.
    + change (isoDate (egr_timestamp r)) with date.
      rewrite Z.eqb_refl. cbn [records total].
      destruct (M1 _ _ I) as [I' | (_ & -> & H)].
      * destruct (B _ _ I') as (R & NE & T).
        rewrite R at 1. split; [reflexivity |].
        split; [intro E; apply app_eq_nil in E; destruct E; discriminate |].
        rewrite totalEnergy_snoc, <- T. reflexivity.
      * cbn [records total]. rewrite recordsOn_none.
        { repeat split. discriminate. }
        intros r' I' E. apply C in I'. fold date in E. rewrite E in I'.
        apply Map_has_In in I'. congruence.
  - intros r' I. rewrite Map_modify_keys. apply in_app_iff in I.
    assert (In date (map fst m1)) as Dm.
    { subst m1. destruct (Map_has date m) eqn:H.
      - apply Map_has_In, H.
      - rewrite map_app, in_app_iff. right. left. reflexivity. }
    destruct I as [I | [<- | []]]; [| exact Dm].
    apply C in I. subst m1. destruct (Map_has date m); [exact I |].
    rewrite map_app, in_app_iff. left. exact I.
Qed.

Lemma fold_addRecord_BucketsOf (rs : list EnergyGenerationRecord) :
  forall seen m,
    BucketsOf seen m -> BucketsOf (seen ++ rs) (fold_left addRecord rs m).
Proof.
  induction rs as [| r rs IH]; intros seen m H; cbn.
  - rewrite app_nil_r. exact H.
  - replace (seen ++ r :: rs) with ((seen ++ [r]) ++ rs)
      by (rewrite <- app_assoc; reflexivity).
    apply IH, addRecord_BucketsOf, H.
Qed.

Lemma averageWeather_keeps (data : DayData) :
  records (averageWeather data) = records data
  /\ total (averageWeather data) = total data.
Proof.
  unfold averageWeather. destruct (0 <? _)%nat; split; reflexivity.
Qed.

(** X4. Bucketing loses and duplicates nothing: the daily buckets have
    distinct dates; the bucket of a date holds exactly the readings whose
    timestamp falls on that UTC date, in their order in the query result,
    and is never empty; its total is the sum of their energies; and every
    reading has the bucket of its date. *)
Theorem buildDailyTotals_partition (rs : list EnergyGenerationRecord) :
  NoDup (map fst (buildDailyTotals rs))
  /\ (forall date data,
        In (date, data) (buildDailyTotals rs) ->
        records data = recordsOn date rs
        /\ records data <> []
        /\ total data = totalEnergy (records data))
  /\ (forall r,
        In r rs ->
        exists data,
          In (isoDate (egr_timestamp r), data) (buildDailyTotals rs)
          /\ In r (records data)).
Proof.
  assert (BucketsOf rs (fold_left addRecord rs [])) as (N & B & C).
  { apply (fold_addRecord_BucketsOf rs [] []).
    split; [constructor |]. split; intros ? ?; contradiction. }
  split; [apply buildDailyTotals_keys_NoDup |]. split.
  - intros date data I. unfold buildDailyTotals in I.
    apply in_map_iff in I. destruct I as ([k v] & E & I).
    cbn in E. injection E as <- <-.
    destruct (averageWeather_keeps v) as (-> & ->). apply B, I.
  - intros r I. pose proof (C r I) as K. apply in_map_iff in K.
    destruct K as ([k v] & E & K). cbn in E. subst k.
    exists (averageWeather v). split.
    + unfold buildDailyTotals. apply in_map_iff.
      exists (isoDate (egr_timestamp r), v). split; [reflexivity | exact K].
    + destruct (averageWeather_keeps v) as (-> & _).
      destruct (B _ _ K) as (-> & _). unfold recordsOn.
      apply filter_In. split; [exact I | apply Z.eqb_refl].
Qed.

Lemma buildDailyTotals_partition_witness :
  exists data,
    In (isoDate (3 * MS_PER_DAY + 5), data)
      (buildDailyTotals
         [mkEnergyRecord 1 (2 * MS_PER_DAY) None None;
          mkEnergyRecord 2 (3 * MS_PER_DAY + 5) None None;
          mkEnergyRecord 4 (2 * MS_PER_DAY + 7) None None])
    /\ In (mkEnergyRecord 2 (3 * MS_PER_DAY + 5) None None) (records data).
Proof.
  apply (proj2 (proj2 (buildDailyTotals_partition
                         [mkEnergyRecord 1 (2 * MS_PER_DAY) None None;
                          mkEnergyRecord 2 (3 * MS_PER_DAY + 5) None None;
                          mkEnergyRecord 4 (2 * MS_PER_DAY + 7) None None]))
           (mkEnergyRecord 2 (3 * MS_PER_DAY + 5) None None)).
  right. left. reflexivity.
Defined.

(** ** What one bucket can create *)

Lemma Subseq_length {A : Type} (l l' : list A) :
  Subseq l l' -> (length l <= length l')%nat.
Proof. induction 1; cbn; lia. Qed.

Lemma Subseq_In {A : Type} (l l' : list A) (x : A) :
  Subseq l l' -> In x l -> In x l'.
Proof.
  induction 1 as [| y l l' _ IH | y l l' _ IH]; cbn; intro I.
  - exact I.
  - right. apply IH, I.
  - destruct I as [E | I]; [left; exact E | right; apply IH, I].
Qed.

Lemma Subseq_NoDup {A : Type} (l l' : list A) :
  Subseq l l' -> NoDup l' -> NoDup l.
Proof.
  induction 1 as [| y l l' _ IH | y l l' S IH]; intro N.
  - exact N.
  - inversion N. apply IH. assumption.
  - inversion N as [| ? ? Ny Nl]. subst. constructor; [| apply IH, Nl].
    intro I. apply Ny. eapply Subseq_In; eassumption.
Qed.

Lemma Subseq_nil_l {A : Type} (l : list A) : Subseq [] l.
Proof. induction l; constructor; assumption. Qed.

Lemma Subseq_refl {A : Type} (l : list A) : Subseq l l.
Proof. induction l; constructor; assumption. Qed.

Lemma Subseq_trans {A : Type} (l1 l2 l3 : list A) :
  Subseq l1 l2 -> Subseq l2 l3 -> Subseq l1 l3.
Proof.
  intros H12 H23. revert l1 H12.
  induction H23 as [| y l2 l3 _ IH | y l2 l3 _ IH]; intros l1 H12.
  - exact H12.
  - constructor. apply IH, H12.
  - inversion H12; subst; constructor; apply IH; assumption.
Qed.

(** Persisting a list of detections appends, in order, the documents of
    some of them. *)
Lemma forOf_create_Subseq (tz : Z) (env : Env) (unit : Z) (date : IsoDate)
    (ds : list Detection) :
  forall s,
    exists created,
      store_of
        (forOf ds (fun d => createAnomalyIfNotExists tz env unit d date) s)
      = s ++ created
      /\ Subseq created (map (fun d => newAnomaly tz env unit d date) ds).
Proof.
  induction ds as [| d ds IH]; intro s.
  - exists []. cbn. rewrite app_nil_r. split; [reflexivity | constructor].
  - cbn [forOf map]. unfold bind.
    rewrite createAnomalyIfNotExists_cases.
    destruct (Anomaly_findOne_rejects _ _ _ _ _).
    { exists []. cbn. rewrite app_nil_r.
      split; [reflexivity | apply Subseq_nil_l]. }
    destruct (present _ _ _ _ _).
    { destruct (IH s) as (created & E & S).
      destruct (forOf ds _ s) as [[o s'] l]. cbn in *.
      exists created. split; [exact E | constructor; exact S]. }
    destruct (Anomaly_save_rejects _ _).
    { exists []. cbn. rewrite app_nil_r.
      split; [reflexivity | apply Subseq_nil_l]. }
    destruct (IH (s ++ [newAnomaly tz env unit d date]))
      as (created & E & S).
    destruct (forOf ds _ (s ++ [newAnomaly tz env unit d date]))
      as [[o s'] l]. cbn in *.
    exists (newAnomaly tz env unit d date :: created).
    split; [rewrite E, <- app_assoc; reflexivity | constructor; exact S].
Qed.

Lemma processBucket_quiet (tz : Z) (env : Env) (u : SolarUnit)
    (h : Q) (rr : list Q) (date : IsoDate) (data : DayData) (s : Store) :
  detectSensorMalfunction tz (total data) (JS.or_default (capacity u) 5)
    (parseIsoDate date) rr = None ->
  store_of (processBucket tz env u h rr (date, data) s)
  = store_of
      (forOf (quietDetections tz u h date data)
         (fun d => createAnomalyIfNotExists tz env (unit_id u) d date) s).
Proof.
  intro S. unfold processBucket, quietDetections. rewrite S.
  unfold bind, tell, ret. cbn beta iota zeta.
  destruct (_ && _);
    match goal with
    | |- context [forOf ?ds ?b s] => destruct (forOf ds b s) as [[o s'] l]
    end; reflexivity.
Qed.

Lemma detectCompleteFailure_type (tz : Z) (e cap : Q) (ts : Z) (cloud : Q)
    (d : Detection) :
  detectCompleteFailure tz e cap ts cloud = Some d ->
  anomalyType d = COMPLETE_FAILURE /\ severity d = CRITICAL.
Proof.
  unfold detectCompleteFailure. destruct (_ && _ && _); [| discriminate].
  intro E. injection E as <-. split; reflexivity.
Qed.

Lemma classifyWeatherImpact_type (e x cloud precip : Q) (d : Detection) :
  classifyWeatherImpact e x cloud precip = Some d ->
  anomalyType d = WEATHER_RELATED
  /\ (severity d = LOW \/ severity d = MEDIUM).
Proof.
  unfold classifyWeatherImpact. destruct (_ && _).
  - intro E. injection E as <-. split; [reflexivity | left; reflexivity].
  - destruct (_ && _ && _); [| discriminate].
    intro E. injection E as <-. split; [reflexivity | right; reflexivity].
Qed.

Lemma detectPanelDegradation_type (cur hist thr : Q) (d : Detection) :
  detectPanelDegradation cur hist thr = Some d ->
  anomalyType d = DEGRADATION
  /\ (severity d = HIGH \/ severity d = MEDIUM).
Proof.
  unfold detectPanelDegradation. destruct (Qle_bool hist 0); [discriminate |].
  destruct (JS.gtb _ thr); [| discriminate].
  intro E. injection E as <-. cbn.
  split; [reflexivity |]. destruct (JS.gtb _ 25); auto.
Qed.

Ltac subseq :=
  repeat first [apply Subseq_keep | apply Subseq_skip | apply Subseq_nil].

(** The orchestrator collects at most: a complete failure with perhaps a
    weather classification, or a weather classification with perhaps a
    degradation. *)
Lemma quietDetections_types (tz : Z) (u : SolarUnit) (h : Q)
    (date : IsoDate) (data : DayData) :
  let types := map anomalyType (quietDetections tz u h date data) in
  Subseq types [COMPLETE_FAILURE; WEATHER_RELATED; DEGRADATION]
  /\ ~ (In COMPLETE_FAILURE types /\ In DEGRADATION types).
Proof.
  unfold quietDetections.
  destruct (detectCompleteFailure tz (total data)
              (JS.or_default (capacity u) 5) (parseIsoDate date)
              (JS.Math_round (avgCloud data))) as [d1 |] eqn:E1;
    [apply detectCompleteFailure_type in E1; destruct E1 as (T1 & S1) |];
    (destruct (classifyWeatherImpact (total data)
                 (JS.mul (JS.or_default (capacity u) 5) (JS.num 0.5))
                 (JS.Math_round (avgCloud data)) (avgPrecip data))
       as [d2 |] eqn:E2;
     [apply classifyWeatherImpact_type in E2; destruct E2 as (T2 & S2) |]);
    cbn [pushed app existsb]; try rewrite S1; cbn [Severity_eqb orb negb andb];
    cbn [map]; try rewrite T1; try rewrite T2.
  - split; [subseq | cbn [In]; intuition discriminate].
  - split; [subseq | cbn [In]; intuition discriminate].
  - destruct (_ && _);
      [destruct (detectPanelDegradation (total data) h 15) as [d3 |] eqn:E3;
       [apply detectPanelDegradation_type in E3; destruct E3 as (T3 & _) |] |];
      cbn [pushed app map]; try rewrite T2; try rewrite T3;
      (split; [subseq | cbn [In]; intuition discriminate]).
  - destruct (JS.gtb h 0);
      [destruct (detectPanelDegradation (total data) h 15) as [d3 |] eqn:E3;
       [apply detectPanelDegradation_type in E3; destruct E3 as (T3 & _) |] |];
      cbn [pushed app map]; try rewrite T3;
      (split; [subseq | cbn [In]; intuition discriminate]).
Qed.

Lemma Subseq_map {A B : Type} (f : A -> B) (l l' : list A) :
  Subseq l l' -> Subseq (map f l) (map f l').
Proof. induction 1; cbn; constructor; assumption. Qed.

Lemma Subseq_of_three {A : Type} (a b c : A) (l : list A) :
  Subseq l [a; b; c] ->
  (length l <= 2)%nat \/ l = [a; b; c].
Proof.
  intro H.
  repeat match goal with
         | S : Subseq _ (_ :: _) |- _ => inversion S; clear S; subst
         | S : Subseq _ [] |- _ => inversion S; clear S; subst
         end; cbn; auto.
Qed.

(** X7. Whatever the collection and the environment, processing one
    bucket appends at most two records, of distinct types; never both a
    COMPLETE_FAILURE and a DEGRADATION record (a complete failure is
    CRITICAL and gates the degradation check); and a SENSOR_MALFUNCTION
    record only alone. *)
Theorem bucket_creates_at_most_two (tz : Z) (env : Env) (u : SolarUnit)
    (h : Q) (rr : list Q) (date : IsoDate) (data : DayData) (s : Store) :
  exists created,
    store_of (processBucket tz env u h rr (date, data) s) = s ++ created
    /\ (length created <= 2)%nat
    /\ NoDup (map rec_anomalyType created)
    /\ ~ (In COMPLETE_FAILURE (map rec_anomalyType created)
          /\ In DEGRADATION (map rec_anomalyType created))
    /\ (In SENSOR_MALFUNCTION (map rec_anomalyType created) ->
        map rec_anomalyType created = [SENSOR_MALFUNCTION]).
Proof.
  destruct (detectSensorMalfunction tz (total data)
              (JS.or_default (capacity u) 5) (parseIsoDate date) rr)
    as [sc |] eqn:S.
  - rewrite (processBucket_sensor_fired tz env u h rr date data sc s S).
    pose proof (detectSensorMalfunction_type _ _ _ _ _ _ S) as T.
    rewrite createAnomalyIfNotExists_cases.
    destruct (Anomaly_findOne_rejects _ _ _ _ _);
      [| destruct (present _ _ _ _ _);
         [| destruct (Anomaly_save_rejects _ _)]];
      cbn [store_of fst snd];
      try (exists []; rewrite app_nil_r; cbn;
           repeat split; try constructor; try lia; tauto).
    exists [newAnomaly tz env (unit_id u) sc date]. cbn. rewrite T.
    repeat split; try lia; try (repeat constructor; cbn; tauto).
    intros [[F | []] _]. discriminate F.
  - rewrite (processBucket_quiet tz env u h rr date data s S).
    destruct (forOf_create_Subseq tz env (unit_id u) date
                (quietDetections tz u h date data) s) as (created & E & Sub).
    destruct (quietDetections_types tz u h date data) as (Sub3 & NB).
    cbn zeta in Sub3, NB.
    exists created. split; [exact E |].
    apply (Subseq_map rec_anomalyType) in Sub. rewrite map_map in Sub.
    cbn [newAnomaly rec_anomalyType] in Sub.
    pose proof (Subseq_trans _ _ _ Sub Sub3) as Sub'.
    assert (~ (In COMPLETE_FAILURE (map rec_anomalyType created)
               /\ In DEGRADATION (map rec_anomalyType created))) as NB'.
    { intros [A B]. apply NB. split; eapply Subseq_In; eassumption. }
    split; [| split; [| split; [exact NB' |]]].
    + destruct (Subseq_of_three _ _ _ _ Sub') as [L | L].
      * rewrite length_map in L. exact L.
      * contradiction NB'. rewrite L. cbn. tauto.
    + apply (Subseq_NoDup _ _ Sub').
      repeat constructor; cbn; intuition discriminate.
    + intro I. apply (Subseq_In _ _ _ Sub') in I. cbn in I.
      intuition discriminate.
Qed.

Lemma bucket_creates_at_most_two_witness :
  exists created,
    store_of (processBucket 0 envBothUnitsLoad unitB 4 [(-1)%Q]
                (9, mkDayData (-1) [] 20 0) [])
    = [] ++ created
    /\ (length created <= 2)%nat
    /\ NoDup (map rec_anomalyType created)
    /\ ~ (In COMPLETE_FAILURE (map rec_anomalyType created)
          /\ In DEGRADATION (map rec_anomalyType created))
    /\ (In SENSOR_MALFUNCTION (map rec_anomalyType created) ->
        map rec_anomalyType created = [SENSOR_MALFUNCTION]).
Proof.
  exact (bucket_creates_at_most_two 0 envBothUnitsLoad unitB 4 [(-1)%Q] 9
           (mkDayData (-1) [] 20 0) []).
Defined.

(** ** The records a run creates *)

Lemma sensor_confidence_range (tz : Z) (e cap : Q) (ts : Z) (rr : list Q)
    (d : Detection) :
  detectSensorMalfunction tz e cap ts rr = Some d ->
  (JS.num 0.75 <= confidence d <= 1)%Q /\ severity d <> LOW.
Proof.
  intro E. pose proof (sensorIssues_members tz e cap ts rr) as IN.
  pose proof (sensorIssues_confidence_le_1 tz e cap ts rr) as LE1.
  unfold detectSensorMalfunction in E.
  destruct (sensorIssues tz e cap ts rr) as [| first rest]; [discriminate |].
  injection E as <-. cbn [severity confidence]. split; [split |].
  - eapply Qle_trans; [| apply (maxConfidence_upper first rest first);
                         left; reflexivity].
    destruct (IN first (or_introl eq_refl))
      as [[-> _] | [[-> _] | [[-> _] | [[-> _] | [-> _]]]]];
      vm_compute; discriminate.
  - apply maxConfidence_bounded, LE1.
  - destruct (IN _ (highestSeverity_member rest first))
      as [[-> _] | [[-> _] | [[-> _] | [[-> _] | [-> _]]]]]; discriminate.
Qed.

Lemma degradation_confidence_range (cur hist : Q) (d : Detection) :
  detectPanelDegradation cur hist 15 = Some d ->
  (JS.num 0.75 <= confidence d <= JS.num 0.85)%Q.
Proof.
  unfold detectPanelDegradation. destruct (Qle_bool hist 0); [discriminate |].
  destruct (JS.gtb _ 15) eqn:G; [| discriminate].
  apply gtb_gt in G. intro E. injection E as <-. cbn [confidence].
  destruct (degradation_confidence
              (JS.sub 100 (JS.mul (JS.div cur hist) 100))) as (U & _ & L).
  split; [apply L, Qlt_le_weak, G | exact U].
Qed.

Lemma confidence_constants :
  (JS.num 0.7 <= JS.num 0.75)%Q /\ (JS.num 0.7 <= JS.num 0.8)%Q
  /\ (JS.num 0.7 <= JS.num 0.95)%Q /\ (JS.num 0.85 <= 1)%Q
  /\ (JS.num 0.8 <= 1)%Q /\ (JS.num 0.95 <= 1)%Q /\ (JS.num 0.7 <= 1)%Q.
Proof. repeat split; vm_compute; discriminate. Qed.

(** What every detection of the orchestrator's four calls looks like. *)
Lemma callResult_shape (tz : Z) (call : Call) (d : Detection) :
  callResult tz call = Some d ->
  (JS.num 0.7 <= confidence d <= 1)%Q
  /\ match anomalyType d with
     | COMPLETE_FAILURE => severity d = CRITICAL
     | WEATHER_RELATED => severity d = LOW \/ severity d = MEDIUM
     | DEGRADATION => severity d = HIGH \/ severity d = MEDIUM
     | SENSOR_MALFUNCTION => severity d <> LOW
     end.
Proof.
  destruct call as [e cap ts rr | e cap ts cloud | e x cloud precip
                    | cur hist]; cbn [callResult]; intro E;
    destruct confidence_constants as (K1 & K2 & K3 & K4 & K5 & K6 & K7).
  - rewrite (detectSensorMalfunction_type _ _ _ _ _ _ E).
    destruct (sensor_confidence_range _ _ _ _ _ _ E) as ((L & U) & S).
    split; [| exact S].
    split; [exact (Qle_trans _ _ _ K1 L) | exact U].
  - pose proof (detectCompleteFailure_type _ _ _ _ _ _ E) as (T & S).
    rewrite T. split; [| exact S].
    unfold detectCompleteFailure in E.
    destruct (_ && _ && _); [| discriminate]. injection E as <-.
    cbn [confidence]. split; assumption.
  - pose proof (classifyWeatherImpact_type _ _ _ _ _ E) as (T & S).
    rewrite T. split; [| exact S].
    unfold classifyWeatherImpact in E. destruct (_ && _).
    + injection E as <-. cbn [confidence]. split; assumption.
    + destruct (_ && _ && _); [| discriminate]. injection E as <-.
      cbn [confidence]. split; [apply Qle_refl | assumption].
  - pose proof (detectPanelDegradation_type _ _ _ _ E) as (T & S).
    rewrite T. split; [| exact S].
    destruct (degradation_confidence_range _ _ _ E) as (L & U).
    split; [exact (Qle_trans _ _ _ K1 L) | exact (Qle_trans _ _ _ U K4)].
Qed.

Lemma quietDetections_calls (tz : Z) (u : SolarUnit) (h : Q)
    (date : IsoDate) (data : DayData) (d : Detection) :
  In d (quietDetections tz u h date data) ->
  exists call, callResult tz call = Some d.
Proof.
  unfold quietDetections.
  set (cf := detectCompleteFailure _ _ _ _ _).
  set (wr := classifyWeatherImpact _ _ _ _).
  set (dg := detectPanelDegradation _ _ _).
  assert (In d (pushed cf ++ pushed wr ++ pushed dg) ->
          exists call, callResult tz call = Some d) as G.
  { rewrite !in_app_iff. intros [I | [I | I]].
    - destruct cf as [d1 |] eqn:E; [| destruct I].
      destruct I as [<- | []]. eexists (CallFailure _ _ _ _). exact E.
    - destruct wr as [d2 |] eqn:E; [| destruct I].
      destruct I as [<- | []]. eexists (CallWeather _ _ _ _). exact E.
    - destruct dg as [d3 |] eqn:E; [| destruct I].
      destruct I as [<- | []]. eexists (CallDegradation _ _). exact E. }
  destruct (_ && _); intro I; apply G.
  - rewrite app_assoc. exact I.
  - rewrite app_assoc, in_app_iff. left. exact I.
Qed.

Lemma processBucket_created (tz : Z) (env : Env) (u : SolarUnit)
    (h : Q) (rr : list Q) (date : IsoDate) (data : DayData) (s : Store) :
  exists created,
    store_of (processBucket tz env u h rr (date, data) s) = s ++ created
    /\ forall r,
         In r created ->
         exists d call,
           callResult tz call = Some d
           /\ r = newAnomaly tz env (unit_id u) d date.
Proof.
  destruct (detectSensorMalfunction tz (total data)
              (JS.or_default (capacity u) 5) (parseIsoDate date) rr)
    as [sc |] eqn:S.
  - rewrite (processBucket_sensor_fired tz env u h rr date data sc s S).
    rewrite createAnomalyIfNotExists_cases.
    destruct (Anomaly_findOne_rejects _ _ _ _ _);
      [| destruct (present _ _ _ _ _);
         [| destruct (Anomaly_save_rejects _ _)]];
      cbn [store_of fst snd];
      try (exists []; rewrite app_nil_r; split;
           [reflexivity | intros r []]).
    exists [newAnomaly tz env (unit_id u) sc date].
    split; [reflexivity |]. intros r [<- | []].
    exists sc, (CallSensor (total data) (JS.or_default (capacity u) 5)
                  (parseIsoDate date) rr).
    split; [exact S | reflexivity].
  - rewrite (processBucket_quiet tz env u h rr date data s S).
    destruct (forOf_create_Subseq tz env (unit_id u) date
                (quietDetections tz u h date data) s) as (created & E & Sub).
    exists created. split; [exact E |]. intros r I.
    apply (Subseq_In _ _ _ Sub) in I. apply in_map_iff in I.
    destruct I as (d & <- & I).
    destruct (quietDetections_calls _ _ _ _ _ _ I) as (call & C).
    exists d, call. split; [exact C | reflexivity].
Qed.

Lemma Forall_True {A : Type} (l : list A) : Forall (fun _ => True) l.
Proof. induction l; constructor; trivial. Qed.

Lemma runAnomalyDetection_created (tz : Z) (env : Env) :
  Emits (fun _ => True) (CreatedByRun tz env) (runAnomalyDetection tz env).
Proof.
  unfold runAnomalyDetection.
  apply Emits_seq; [apply Emits_tell; exact I |].
  apply Emits_tryCatch.
  2: { intro e.
       apply Emits_seq; [apply Emits_tell; exact I | apply Emits_throw]. }
  apply Emits_await_bind. intros units U.
  assert (activeUnits env = units) as AU
    by (unfold activeUnits; rewrite U; reflexivity).
  apply Emits_seq; [| apply Emits_tell; exact I].
  apply Emits_forOf. intros u Hu. unfold processUnit.
  apply Emits_seq; [apply Emits_tell; exact I |].
  apply Emits_await_bind. intros rs R.
  assert (unitRecords env u = rs) as UR
    by (unfold unitRecords; rewrite R; reflexivity).
  destruct (length rs =? 0)%nat; [apply Emits_tell; exact I |].
  apply Emits_bind; [apply Emits_await |]. intro historicalRecords.
  apply Emits_forOf. intros [date data] D s.
  split; [apply Forall_True |].
  destruct (processBucket_created tz env u
              (if (0 <? length historicalRecords)%nat
               then JS.div
                      (fold_left
                         (fun sum r => JS.add sum (egr_energyGenerated r))
                         historicalRecords 0%Q)
                      (inject_Z (Z.of_nat (length historicalRecords)))
               else 0%Q)
              (map egr_energyGenerated (JS.slice_first 10 rs)) date data s)
    as (created & E & C).
  exists created. split; [exact E |]. apply Forall_forall. intros r Hr.
  destruct (C r Hr) as (d & call & K & ->).
  exists u, date, data, d, call. unfold unitBuckets. rewrite UR, AU.
  repeat split; assumption.
Qed.

(** X8. A run only appends to the collection, and every record it
    appends is ACTIVE, detected at the time of the run, belongs to an
    active unit, covers one local calendar day from midnight to the last
    millisecond, has a confidence between 0.7 and 1, and a severity that
    fits its type: CRITICAL for a complete failure, LOW or MEDIUM for a
    weather classification, MEDIUM or HIGH for a degradation, never LOW
    for a sensor malfunction. *)
Theorem run_creates_wellformed_records (tz : Z) (env : Env) (s : Store) :
  exists created,
    store_of (runAnomalyDetection tz env s) = s ++ created
    /\ forall r,
         In r created ->
         rec_status r = ACTIVE
         /\ rec_detectedAt r = now env
         /\ (exists u, In u (activeUnits env) /\ rec_solarUnitId r = unit_id u)
         /\ localTimeOfDay tz (affectedPeriod_start r) = 0
         /\ affectedPeriod_end r = affectedPeriod_start r + (MS_PER_DAY - 1)
         /\ (JS.num 0.7 <= rec_confidence r <= 1)%Q
         /\ match rec_anomalyType r with
            | COMPLETE_FAILURE => rec_severity r = CRITICAL
            | WEATHER_RELATED =>
                rec_severity r = LOW \/ rec_severity r = MEDIUM
            | DEGRADATION => rec_severity r = HIGH \/ rec_severity r = MEDIUM
            | SENSOR_MALFUNCTION => rec_severity r <> LOW
            end.
Proof.
  destruct (runAnomalyDetection_created tz env s) as (_ & created & E & C).
  exists created. split; [exact E |]. rewrite Forall_forall in C.
  intros r Hr. destruct (C r Hr) as (u & date & data & d & call & U & D & K & ->).
  destruct (callResult_shape tz call d K) as (Conf & Shape).
  cbn [newAnomaly rec_status rec_detectedAt rec_solarUnitId
       affectedPeriod_start affectedPeriod_end rec_confidence
       rec_anomalyType rec_severity].
  split; [reflexivity |]. split; [reflexivity |].
  split; [exists u; split; [exact U | reflexivity] |].
  split; [unfold startOfDay; apply (localTimeOfDay_setHours tz _ 0); lia |].
  split; [| split; [exact Conf | exact Shape]].
  unfold endOfDay, startOfDay, setHours, MS_PER_DAY, MS_PER_HOUR. lia.
Qed.

Lemma run_creates_wellformed_records_witness :
  exists created,
    store_of (runAnomalyDetection 0 envBothUnitsLoad []) = [] ++ created
    /\ forall r,
         In r created ->
         rec_status r = ACTIVE /\ rec_detectedAt r = now envBothUnitsLoad.
Proof.
  destruct (run_creates_wellformed_records 0 envBothUnitsLoad [])
    as (created & E & W).
  exists created. split; [exact E |].
  intros r I. destruct (W r I) as (A & D & _). split; [exact A | exact D].
Defined.

(** ** How a run ends *)

Lemma Completes_ret {A : Type} (a : A) : Completes (ret a).
Proof. intro s. exists a. reflexivity. Qed.

Lemma Completes_tell (ev : Event) : Completes (tell ev).
Proof. intro s. exists tt. reflexivity. Qed.

Lemma Completes_await {A : Type} (a : A) : Completes (await (Ok a)).
Proof. intro s. exists a. reflexivity. Qed.

Lemma Completes_bind {A B : Type} (c : M A) (k : A -> M B) :
  Completes c -> (forall a, Completes (k a)) -> Completes (bind c k).
Proof.
  intros Hc Hk s. unfold bind. destruct (Hc s) as (a & E).
  destruct (c s) as [[o s1] l1]. cbn in E. subst o.
  destruct (Hk a s1) as (b & E').
  destruct (k a s1) as [[o' s2] l2]. cbn in *. exists b. exact E'.
Qed.

Lemma Completes_forOf {A : Type} (xs : list A) (body : A -> M unit) :
  (forall x, Completes (body x)) -> Completes (forOf xs body).
Proof.
  intro H. induction xs as [| x xs IH]; cbn [forOf].
  - apply Completes_ret.
  - apply Completes_bind; [apply H | intros _; exact IH].
Qed.

Lemma createAnomalyIfNotExists_Completes (tz : Z) (env : Env) (u : Z)
    (d : Detection) (date : IsoDate) :
  NoRejections env -> Completes (createAnomalyIfNotExists tz env u d date).
Proof.
  intros (_ & _ & _ & F & S) s. rewrite createAnomalyIfNotExists_cases.
  rewrite F, S. exists tt. destruct (present _ _ _ _ _); reflexivity.
Qed.

Lemma processBucket_Completes (tz : Z) (env : Env) (u : SolarUnit)
    (h : Q) (rr : list Q) (entry : IsoDate * DayData) :
  NoRejections env -> Completes (processBucket tz env u h rr entry).
Proof.
  intro N. destruct entry as [date data]. unfold processBucket.
  repeat first
    [ apply createAnomalyIfNotExists_Completes; exact N
    | apply Completes_tell
    | apply Completes_ret
    | apply Completes_forOf; intros
    | apply Completes_bind; intros
    | split_cases ].
Qed.

Lemma processUnit_Completes (tz : Z) (env : Env) (u : SolarUnit) :
  NoRejections env -> Completes (processUnit tz env u).
Proof.
  intro N. pose proof N as (_ & R1 & R2 & _). unfold processUnit.
  apply Completes_bind; [apply Completes_tell |]. intros _.
  destruct (R1 (unit_id u) (now env - 7 * MS_PER_DAY)) as (rs & ->).
  apply Completes_bind; [apply Completes_await |]. intro records.
  destruct (_ =? _)%nat; [apply Completes_tell |].
  destruct (R2 (unit_id u) (now env - 30 * MS_PER_DAY)
              (now env - 7 * MS_PER_DAY)) as (hs & ->).
  apply Completes_bind; [apply Completes_await |]. intro historicalRecords.
  apply Completes_forOf. intro entry. apply processBucket_Completes, N.
Qed.

(** X9. A run begins with its starting line.  It returns normally exactly
    when its last line is the completion line, and throws an error
    exactly when its last line is the failure line of that error; and it
    returns normally whenever no query of the environment rejects: the
    detectors themselves never make a run fail. *)
Theorem run_outcome_logged (tz : Z) (env : Env) (s : Store) :
  ((exists l,
       log_of (runAnomalyDetection tz env s) = LogStarting :: l ++ [LogCompleted]
       /\ outcome (runAnomalyDetection tz env s) = Ok tt)
   \/ (exists l e,
         log_of (runAnomalyDetection tz env s)
         = LogStarting :: l ++ [LogFailed e]
         /\ outcome (runAnomalyDetection tz env s) = Throw e))
  /\ (NoRejections env -> outcome (runAnomalyDetection tz env s) = Ok tt).
Proof.
  split.
  - unfold runAnomalyDetection, tryCatch, bind, tell, throw, await.
    destruct (SolarUnit_find_active env) as [units | e].
    + destruct (forOf units (processUnit tz env) s) as [[[[] | e] s1] l1].
      * left. exists l1. split; reflexivity.
      * right. exists l1, e. split; reflexivity.
    + right. exists [], e. split; reflexivity.
  - intro N. pose proof N as ((units & U) & _).
    assert (Completes (runAnomalyDetection tz env)) as C.
    { unfold runAnomalyDetection.
      apply Completes_bind; [apply Completes_tell |]. intros _.
      intro s0. unfold tryCatch.
      assert (Completes
                (bind (await (SolarUnit_find_active env))
                   (fun solarUnits =>
                      bind (forOf solarUnits (processUnit tz env))
                        (fun _ => tell LogCompleted)))) as B.
      { rewrite U. apply Completes_bind; [apply Completes_await |].
        intro us. apply Completes_bind; [| intros _; apply Completes_tell].
        apply Completes_forOf. intro u. apply processUnit_Completes, N. }
      destruct (B s0) as (a & E).
      destruct (bind _ _ s0) as [[o s1] l1]. cbn in E. subst o.
      exists a. reflexivity. }
    destruct (C s) as ([] & E). exact E.
Qed.

Lemma run_outcome_logged_witness :
  NoRejections envBothUnitsLoad
  /\ outcome (runAnomalyDetection 0 envBothUnitsLoad []) = Ok tt.
Proof.
  assert (NoRejections envBothUnitsLoad) as N.
  { split; [eexists; reflexivity |].
    split; [intros unit since; cbn; destruct (unit =? 1); eexists;
            reflexivity |].
    split; [intros; eexists; reflexivity |].
    split; intros; reflexivity. }
  split; [exact N |].
  apply (proj2 (run_outcome_logged 0 envBothUnitsLoad []) N).
Defined.

(** * The anomaly API *)

Lemma findById_id (id : Z) (db : list AnomalyDoc) (d : AnomalyDoc) :
  findById id db = Some d -> doc_id d = id /\ In d db.
Proof.
  unfold findById. intro H. apply find_some in H.
  destruct H as (I & E). apply Z.eqb_eq in E. split; assumption.
Qed.

Lemma findById_saveDoc_same (d old : AnomalyDoc) (db : list AnomalyDoc) :
  findById (doc_id d) db = Some old ->
  findById (doc_id d) (saveDoc d db) = Some d.
Proof.
  unfold findById. induction db as [| x db IH]; cbn; [discriminate |].
  destruct (doc_id x =? doc_id d) eqn:E.
  - intros _. cbn. rewrite Z.eqb_refl. reflexivity.
  - intro H. cbn. rewrite E. apply IH, H.
Qed.

Lemma findById_saveDoc_other (d : AnomalyDoc) (db : list AnomalyDoc) (id : Z) :
  id <> doc_id d -> findById id (saveDoc d db) = findById id db.
Proof.
  intro N. unfold findById. induction db as [| x db IH]; cbn; [reflexivity |].
  destruct (Z.eqb_spec (doc_id x) (doc_id d)) as [E | E]; cbn.
  - destruct (Z.eqb_spec (doc_id d) id) as [E' | _]; [congruence |].
    destruct (Z.eqb_spec (doc_id x) id) as [E' | _]; [congruence |].
    reflexivity.
  - destruct (doc_id x =? id); [reflexivity | exact IH].
Qed.

Lemma saveDoc_length (d : AnomalyDoc) (db : list AnomalyDoc) :
  length (saveDoc d db) = length db.
Proof.
  induction db as [| x db IH]; cbn; [reflexivity |].
  destruct (doc_id x =? doc_id d); cbn; [reflexivity | rewrite IH; reflexivity].
Qed.

(** X10. [acknowledgeAnomaly].  Whenever it hands an error to [next] the
    collection is unchanged; the error is 404 exactly when no document has
    the identifier, and 400 exactly when the document is RESOLVED.  When
    it answers (200), the body is the stored document of that identifier
    afterwards: ACKNOWLEDGED, acknowledged at the time of the request by
    the caller, with the detection data of the document found; no other
    identifier is affected and no document is added or removed. *)
Theorem acknowledgeAnomaly_effect (env : ApiEnv) (at_ id : Z)
    (userId : option string) (db : list AnomalyDoc) :
  Anomaly_findById_rejects env id = None ->
  let reply := fst (acknowledgeAnomaly env at_ id userId db) in
  let db' := snd (acknowledgeAnomaly env at_ id userId db) in
  (forall err, reply = Next err -> db' = db)
  /\ (reply = Next (AppError "Anomaly not found" 404)
      <-> findById id db = None)
  /\ (reply = Next (AppError "Cannot acknowledge a resolved anomaly" 400)
      <-> exists old, findById id db = Some old /\ doc_status old = RESOLVED)
  /\ (forall status body,
        reply = Json status body ->
        status = 200
        /\ findById id db' = Some body
        /\ doc_status body = ACKNOWLEDGED
        /\ acknowledgedAt body = Some at_
        /\ acknowledgedBy body = userId
        /\ (exists old,
              findById id db = Some old
              /\ doc_status old <> RESOLVED
              /\ doc_anomaly body = setStatus (doc_anomaly old) ACKNOWLEDGED
              /\ resolvedAt body = resolvedAt old
              /\ resolutionNotes body = resolutionNotes old)
        /\ (forall id', id' <> id -> findById id' db' = findById id' db)
        /\ length db' = length db).
Proof.
  intro R. unfold acknowledgeAnomaly. rewrite R.
  destruct (findById id db) as [old |] eqn:F.
  2: { cbn. repeat split; try discriminate; try reflexivity.
       intros (old & E & _). discriminate E. }
  destruct (findById_id _ _ _ F) as (Id & _).
  destruct (AnomalyStatus_eqb (doc_status old) RESOLVED) eqn:S.
  { assert (doc_status old = RESOLVED) as SR
      by (destruct (doc_status old); (reflexivity || discriminate S)).
    cbn. repeat split; try discriminate; try reflexivity.
    exists old. split; [reflexivity | exact SR]. }
  assert (doc_status old <> RESOLVED) as SN
    by (intro E; rewrite E in S; discriminate S).
  destruct (AnomalyDoc_save_rejects env _) as [e |]; cbn.
  - repeat split; try discriminate; try reflexivity.
    intros (old' & E & SR). injection E as <-. contradiction.
  - split; [discriminate |]. split; [split; discriminate |].
    split; [split; [discriminate |] |].
    { intros (old' & E & SR). injection E as <-. contradiction. }
    intros status body E. injection E as <- <-. subst id.
    split; [reflexivity |]. split.
    { apply (findById_saveDoc_same
               (mkAnomalyDoc (doc_id old)
                  (setStatus (doc_anomaly old) ACKNOWLEDGED) (Some at_) userId
                  (resolvedAt old) (resolvedBy old) (resolutionNotes old))
               old).
      exact F. }
    split; [reflexivity |]. split; [reflexivity |]. split; [reflexivity |].
    split; [| split].
    + exists old. repeat split. exact SN.
    + intros id' N. apply findById_saveDoc_other. exact N.
    + apply saveDoc_length.
Qed.

Lemma acknowledgeAnomaly_effect_witness :
  Anomaly_findById_rejects apiEnvQuiet 7 = None
  /\ (fst (acknowledgeAnomaly apiEnvQuiet 100 7 (Some "admin"%string)
             [docActive; docResolved])
      = Next (AppError "Cannot acknowledge a resolved anomaly" 400)
      <-> exists old,
            findById 7 [docActive; docResolved] = Some old
            /\ doc_status old = RESOLVED).
Proof.
  split; [reflexivity |].
  apply (acknowledgeAnomaly_effect apiEnvQuiet 100 7 (Some "admin"%string)
           [docActive; docResolved]).
  reflexivity.
Defined.

(** ** The life cycle of a stored anomaly *)

Lemma setStatus_same (r : AnomalyRecord) : setStatus r (rec_status r) = r.
Proof. destruct r. reflexivity. Qed.

Lemma Advanced_refl (d : AnomalyDoc) : Advanced d d.
Proof.
  unfold Advanced, doc_status. rewrite setStatus_same.
  repeat split. lia.
Qed.

Lemma Advanced_trans (d1 d2 d3 : AnomalyDoc) :
  Advanced d1 d2 -> Advanced d2 d3 -> Advanced d1 d3.
Proof.
  intros (I1 & A1 & R1) (I2 & A2 & R2). split; [congruence |].
  split; [| lia]. rewrite A2, A1. reflexivity.
Qed.

Lemma Forall2_Advanced_refl (db : list AnomalyDoc) : Forall2 Advanced db db.
Proof. induction db; constructor; [apply Advanced_refl | assumption]. Qed.

Lemma Forall2_Advanced_trans (l1 l2 l3 : list AnomalyDoc) :
  Forall2 Advanced l1 l2 -> Forall2 Advanced l2 l3 -> Forall2 Advanced l1 l3.
Proof.
  intro H. revert l3. induction H as [| a b l1 l2 Hab _ IH]; intros l3 H'.
  - inversion H'. constructor.
  - inversion H' as [| ? c ? l3' Hbc Hl]. subst. constructor.
    + eapply Advanced_trans; eassumption.
    + apply IH, Hl.
Qed.

Lemma saveDoc_Advanced (d old : AnomalyDoc) (db : list AnomalyDoc) :
  findById (doc_id d) db = Some old -> Advanced old d ->
  Forall2 Advanced db (saveDoc d db).
Proof.
  unfold findById. induction db as [| x db IH]; cbn; [constructor |].
  destruct (doc_id x =? doc_id d).
  - intros E A. injection E as ->. constructor; [exact A |].
    apply Forall2_Advanced_refl.
  - intros E A. constructor; [apply Advanced_refl | apply IH; assumption].
Qed.

Lemma serve_Advanced (env : ApiEnv) (db : list AnomalyDoc)
    (req : LifecycleRequest) :
  Forall2 Advanced db (serve env db req).
Proof.
  destruct req as [at_ id userId | at_ id userId notes]; cbn [serve];
    [unfold acknowledgeAnomaly | unfold resolveAnomaly];
    (destruct (Anomaly_findById_rejects env id);
     [apply Forall2_Advanced_refl |]);
    (destruct (findById id db) as [old |] eqn:F;
     [| apply Forall2_Advanced_refl]);
    destruct (findById_id _ _ _ F) as (<- & _).
  - destruct (AnomalyStatus_eqb (doc_status old) RESOLVED) eqn:S;
      [apply Forall2_Advanced_refl |].
    destruct (AnomalyDoc_save_rejects env _);
      [apply Forall2_Advanced_refl |].
    cbn [snd]. apply (saveDoc_Advanced _ old); [exact F |].
    repeat split. unfold doc_status at 2. cbn.
    destruct (doc_status old); cbn; (lia || discriminate S).
  - destruct (AnomalyDoc_save_rejects env _);
      [apply Forall2_Advanced_refl |].
    cbn [snd]. apply (saveDoc_Advanced _ old); [exact F |].
    repeat split. unfold doc_status at 2. cbn.
    destruct (doc_status old); cbn; lia.
Qed.

(** X11. Whatever requests to acknowledge or resolve are served, in any
    order and with any outcome, the collection keeps its documents in
    place: each document keeps its identifier and its detection data, and
    its status only moves forward along ACTIVE, ACKNOWLEDGED, RESOLVED; a
    RESOLVED document stays RESOLVED. *)
Theorem lifecycle_moves_forward (env : ApiEnv)
    (reqs : list LifecycleRequest) (db : list AnomalyDoc) :
  Forall2 Advanced db (fold_left (serve env) reqs db)
  /\ length (fold_left (serve env) reqs db) = length db
  /\ forall i d d',
       nth_error db i = Some d ->
       nth_error (fold_left (serve env) reqs db) i = Some d' ->
       doc_status d = RESOLVED -> doc_status d' = RESOLVED.
Proof.
  assert (Forall2 Advanced db (fold_left (serve env) reqs db)) as A.
  { revert db. induction reqs as [| req reqs IH]; intro db; cbn.
    - apply Forall2_Advanced_refl.
    - eapply Forall2_Advanced_trans; [apply serve_Advanced | apply IH]. }
  split; [exact A |]. split.
  - symmetry. eapply Forall2_length, A.
  - clear - A. induction A as [| a b l l' Hab _ IH]; intros i d d' H H' S.
    + destruct i; discriminate H.
    + destruct i as [| i]; cbn in H, H'.
      * injection H as <-. injection H' as <-.
        destruct Hab as (_ & _ & R). rewrite S in R.
        destruct (doc_status b); cbn in R; (reflexivity || lia).
      * eapply IH; eassumption.
Qed.

Lemma lifecycle_moves_forward_witness :
  nth_error [docActive; docResolved] 1 = Some docResolved
  /\ doc_status docResolved = RESOLVED
  /\ forall d',
       nth_error
         (fold_left (serve apiEnvQuiet)
            [Acknowledge 9 7 None; Resolve 10 8 None None; Acknowledge 11 7 None]
            [docActive; docResolved]) 1 = Some d' ->
       doc_status d' = RESOLVED.
Proof.
  split; [reflexivity |]. split; [reflexivity |]. intros d' H.
  apply (proj2 (proj2 (lifecycle_moves_forward apiEnvQuiet
                         [Acknowledge 9 7 None; Resolve 10 8 None None;
                          Acknowledge 11 7 None]
                         [docActive; docResolved]))
           1%nat docResolved d'); [reflexivity | exact H | reflexivity].
Defined.

(** ** Statistics *)

Lemma count_split2 (f : option (list Z)) (db : list AnomalyDoc) :
  (countDocuments f (hasStatus ACTIVE) db
   + countDocuments f (hasStatus ACKNOWLEDGED) db
   = countDocuments f notResolved db)%nat
  /\ (countDocuments f notResolved db + countDocuments f (hasStatus RESOLVED) db
      = countDocuments f (fun _ => true) db)%nat.
Proof.
  unfold countDocuments, notResolved, hasStatus.
  induction db as [| d db (IH1 & IH2)]; [split; reflexivity |].
  cbn [filter]. destruct (matchesUnits f d); cbn [andb];
    [| split; assumption].
  destruct (doc_status d); cbn [AnomalyStatus_eqb negb length]; lia.
Qed.

Lemma count_by_severity (f : option (list Z)) (db : list AnomalyDoc) :
  (countDocuments f (fun d => hasSeverity CRITICAL d && notResolved d) db
   + countDocuments f (fun d => hasSeverity HIGH d && notResolved d) db
   + countDocuments f (fun d => hasSeverity MEDIUM d && notResolved d) db
   + countDocuments f (fun d => hasSeverity LOW d && notResolved d) db
   = countDocuments f notResolved db)%nat.
Proof.
  unfold countDocuments, hasSeverity.
  induction db as [| d db IH]; [reflexivity |].
  cbn [filter]. destruct (matchesUnits f d); cbn [andb]; [| exact IH].
  destruct (notResolved d); [| rewrite !andb_false_r; exact IH].
  destruct (rec_severity (doc_anomaly d));
    cbn [Severity_eqb andb length]; lia.
Qed.

Lemma count_by_type (f : option (list Z)) (db : list AnomalyDoc) :
  (countDocuments f (fun d => notResolved d && hasType COMPLETE_FAILURE d) db
   + countDocuments f (fun d => notResolved d && hasType DEGRADATION d) db
   + countDocuments f (fun d => notResolved d && hasType WEATHER_RELATED d) db
   + countDocuments f
       (fun d => notResolved d && hasType SENSOR_MALFUNCTION d) db
   = countDocuments f notResolved db)%nat.
Proof.
  unfold countDocuments, hasType.
  induction db as [| d db IH]; [reflexivity |].
  cbn [filter]. destruct (matchesUnits f d); cbn [andb]; [| exact IH].
  destruct (notResolved d); cbn [andb]; [| exact IH].
  destruct (rec_anomalyType (doc_anomaly d));
    cbn [AnomalyType_eqb length]; lia.
Qed.

Lemma byType_sum (c1 c2 c3 c4 : nat) :
  let groups :=
    filter (fun g => (0 <? snd g)%nat)
      [(COMPLETE_FAILURE, c1); (DEGRADATION, c2); (WEATHER_RELATED, c3);
       (SENSOR_MALFUNCTION, c4)] in
  let object :=
    fold_left (fun acc item => object_set acc (fst item) (snd item))
      groups [] in
  object = groups
  /\ list_sum (map snd object) = (c1 + c2 + c3 + c4)%nat
  /\ NoDup (map fst object)
  /\ Forall (fun g => (0 < snd g)%nat) object.
Proof.
  cbn [filter snd].
  destruct (Nat.ltb_spec 0 c1), (Nat.ltb_spec 0 c2), (Nat.ltb_spec 0 c3),
    (Nat.ltb_spec 0 c4); cbn;
    (split; [reflexivity |]); (split; [lia |]);
    (split; [repeat constructor; cbn; intuition discriminate |]);
    repeat constructor; cbn; lia.
Qed.

(** X12. The statistics are consistent.  In a 200 reply, the total is the
    number of ACTIVE plus ACKNOWLEDGED anomalies, the four severity counts
    add up to the total, the per-type counts (one entry per type that
    occurs, each positive) add up to the total, and the three status
    counts add up to the number of anomalies in scope.  The scope is the
    units of the caller; for an anonymous caller, an unknown user or a
    user without units it is the whole collection. *)
Theorem getAnomalyStats_consistent (env : ApiEnv) (userId : option string)
    (db : list AnomalyDoc) (status : Z) (st : AnomalyStats) :
  getAnomalyStats env userId db = Json status st ->
  status = 200
  /\ stats_total st = (stats_active st + stats_acknowledged st)%nat
  /\ (stats_critical st + stats_high st + stats_medium st + stats_low st
      = stats_total st)%nat
  /\ list_sum (map snd (stats_byType st)) = stats_total st
  /\ NoDup (map fst (stats_byType st))
  /\ Forall (fun g => (0 < snd g)%nat) (stats_byType st)
  /\ (stats_active st + stats_acknowledged st + stats_resolved st
      <= length db)%nat
  /\ ((truthy userId = false
       \/ (exists uid, userId = Some uid
                       /\ (User_findOne env uid = Ok None
                           \/ exists user,
                                User_findOne env uid = Ok (Some user)
                                /\ SolarUnit_find_of_user env user = Ok [])))
      -> (stats_active st + stats_acknowledged st + stats_resolved st
          = length db)%nat).
Proof.
  unfold getAnomalyStats.
  destruct (solarUnitFilterOf env userId) as [f | e] eqn:F; [| discriminate].
  destruct (Anomaly_count_rejects env); [discriminate |].
  intro E. injection E as <- <-. cbn [stats_total stats_active
    stats_acknowledged stats_resolved stats_critical stats_high stats_medium
    stats_low stats_byType].
  destruct (count_split2 f db) as (S1 & S2).
  pose proof (count_by_severity f db) as SV.
  pose proof (count_by_type f db) as TY.
  unfold groupByType. cbn [map].
  destruct (byType_sum
              (countDocuments f
                 (fun d => notResolved d && hasType COMPLETE_FAILURE d) db)
              (countDocuments f
                 (fun d => notResolved d && hasType DEGRADATION d) db)
              (countDocuments f
                 (fun d => notResolved d && hasType WEATHER_RELATED d) db)
              (countDocuments f
                 (fun d => notResolved d && hasType SENSOR_MALFUNCTION d) db))
    as (_ & Sum & ND & Pos).
  cbv zeta in Sum, ND, Pos.
  assert (countDocuments f (fun _ => true) db <= length db)%nat as LE.
  { unfold countDocuments. apply filter_length_le. }
  split; [reflexivity |]. split; [reflexivity |]. split; [lia |].
  split; [rewrite Sum; lia |]. split; [exact ND |]. split; [exact Pos |].
  split; [lia |].
  intro Anon.
  assert (f = None) as ->.
  { unfold solarUnitFilterOf in F.
    destruct Anon as [T | (uid & -> & [U | (user & U & SU)])].
    - destruct userId as [uid |]; cbv beta iota in F;
        [rewrite T in F |]; injection F as <-; reflexivity.
    - cbv beta iota in F. rewrite U in F.
      destruct (truthy (Some uid)); injection F as <-; reflexivity.
    - cbv beta iota in F. rewrite U, SU in F. cbn [length Nat.ltb Nat.leb] in F.
      destruct (truthy (Some uid)); injection F as <-; reflexivity. }
  rewrite S1, S2. unfold countDocuments. cbn [matchesUnits andb].
  clear. induction db as [| d db IH]; cbn; [reflexivity | rewrite IH].
  reflexivity.
Qed.

Lemma getAnomalyStats_consistent_witness :
  exists st,
    getAnomalyStats apiEnvQuiet None [docActive; docResolved] = Json 200 st
    /\ (stats_active st + stats_acknowledged st + stats_resolved st
        = length [docActive; docResolved])%nat.
Proof.
  eexists. split; [reflexivity |].
  eapply (getAnomalyStats_consistent apiEnvQuiet None
            [docActive; docResolved] 200); [reflexivity |].
  left. reflexivity.
Defined.

(** * Monthly invoices *)

(** ** Invoice numbers *)

Lemma zeros_digits (k : nat) (d : Decimal.uint) :
  append (zeros k) (NilEmpty.string_of_uint d)
  = NilEmpty.string_of_uint (Nat.iter k Decimal.D0 d).
Proof.
  induction k as [| k IH]; cbn; [reflexivity | rewrite IH; reflexivity].
Qed.

Lemma of_uint_leading_zeros (k : nat) (d : Decimal.uint) :
  Nat.of_uint (Nat.iter k Decimal.D0 d) = Nat.of_uint d.
Proof.
  induction k as [| k IH]; cbn [Nat.iter]; [reflexivity |].
  rewrite <- IH. reflexivity.
Qed.

Lemma invoiceNumberFor_value (count : nat) :
  invoiceNumberValue (invoiceNumberFor count) = Some (count + 1)%nat.
Proof.
  unfold invoiceNumberFor, padStart, String_of_nat.
  cbn [append invoiceNumberValue]. rewrite zeros_digits, NilEmpty.usu.
  cbn [option_map]. rewrite of_uint_leading_zeros, Unsigned.of_to.
  reflexivity.
Qed.

Lemma invoiceNumberFor_inj (count count' : nat) :
  invoiceNumberFor count = invoiceNumberFor count' -> count = count'.
Proof.
  intro E. pose proof (invoiceNumberFor_value count) as R.
  rewrite E, invoiceNumberFor_value in R. injection R as R. lia.
Qed.

(** X13. The number of an invoice reads back: the digits after the prefix
    of the number generated for a collection of [count] invoices denote
    [count + 1], whatever the padding; so collections of different sizes
    give different numbers. *)
Theorem invoiceNumber_reads_back (count count' : nat) :
  invoiceNumberValue (invoiceNumberFor count) = Some (count + 1)%nat
  /\ (invoiceNumberFor count = invoiceNumberFor count' -> count = count').
Proof.
  split; [apply invoiceNumberFor_value |].
  apply invoiceNumberFor_inj.
Qed.

Lemma invoiceNumber_reads_back_witness :
  invoiceNumberFor 41 = invoiceNumberFor 41 /\ 41%nat = 41%nat.
Proof.
  split; [reflexivity |].
  apply (proj2 (invoiceNumber_reads_back 41 41)). reflexivity.
Defined.

(** ** The billing period *)

(** X14. For a clock month between 0 and 11 the billing month is the
    calendar month before the current one (December of the previous year
    in January), again between 0 and 11; the period starts at the later
    of the first of that month and the installation date, and its end
    does not depend on the installation date. *)
Theorem billing_period_is_previous_month (env : InvoiceEnv)
    (installation installation' : Z) :
  0 <= nowMonth env <= 11 ->
  0 <= billingMonth env <= 11
  /\ billingYear env * 12 + billingMonth env
     = nowYear env * 12 + nowMonth env - 1
  /\ fst (calculateBillingPeriod env installation)
     = Z.max installation
         (Date_local env (billingYear env) (billingMonth env) 1 0 0 0 0)
  /\ snd (calculateBillingPeriod env installation)
     = snd (calculateBillingPeriod env installation').
Proof.
  intro H. unfold calculateBillingPeriod, billingMonth, billingYear.
  destruct (Z.eqb_spec (nowMonth env) 0) as [E | E]; cbn [fst snd].
  - rewrite E. repeat split; try lia.
    destruct (Z.gtb_spec installation
                (Date_local env (nowYear env - 1) 11 1 0 0 0 0)); lia.
  - repeat split; try lia.
    destruct (Z.gtb_spec installation
                (Date_local env (nowYear env) (nowMonth env - 1) 1 0 0 0 0));
      lia.
Qed.

Lemma billing_period_is_previous_month_witness :
  0 <= nowMonth invoiceEnvSample <= 11
  /\ billingYear invoiceEnvSample * 12 + billingMonth invoiceEnvSample
     = nowYear invoiceEnvSample * 12 + nowMonth invoiceEnvSample - 1.
Proof.
  assert (0 <= nowMonth invoiceEnvSample <= 11) as H by (cbn; lia).
  split; [exact H |].
  apply (billing_period_is_previous_month invoiceEnvSample 0 0 H).
Defined.

(** ** The loop over the units *)

Lemma sameInvoicePeriod_key (unit from to : Z) (i : Invoice) :
  sameInvoicePeriod unit from to i = true <-> invoiceKey i = (unit, from, to).
Proof.
  unfold sameInvoicePeriod, invoiceKey.
  rewrite !andb_true_iff, !Z.eqb_eq. split.
  - intros ((-> & ->) & ->). reflexivity.
  - intro E. injection E as -> -> ->. tauto.
Qed.

(** One iteration creates an invoice, skips the unit, or logs its
    error. *)
Lemma invoiceUnit_step (env : InvoiceEnv) (st : InvoiceRun) (u : BilledUnit) :
  (exists i,
      run_invoices (invoiceUnit env st u) = run_invoices st ++ [i]
      /\ invoicesCreated (invoiceUnit env st u) = S (invoicesCreated st)
      /\ invoicesSkipped (invoiceUnit env st u) = invoicesSkipped st
      /\ CreatedInvoice env [u] (length (run_invoices st)) i
      /\ ~ In (invoiceKey i) (map invoiceKey (run_invoices st))
      /\ exists line,
           run_lines (invoiceUnit env st u) = run_lines st ++ [line]
           /\ isUnitError line = false)
  \/ (run_invoices (invoiceUnit env st u) = run_invoices st
      /\ invoicesCreated (invoiceUnit env st u) = invoicesCreated st
      /\ invoicesSkipped (invoiceUnit env st u) = S (invoicesSkipped st)
      /\ exists line,
           run_lines (invoiceUnit env st u) = run_lines st ++ [line]
           /\ isUnitError line = false)
  \/ (runCore (invoiceUnit env st u) = runCore st
      /\ (exists e, invoiceUnitBody env u st = Throw e)
      /\ exists line,
           run_lines (invoiceUnit env st u) = run_lines st ++ [line]
           /\ isUnitError line = true).
Proof.
  unfold invoiceUnit, invoiceUnitBody.
  destruct (calculateBillingPeriod env (installationDate u))
    as [from to] eqn:P.
  destruct (Invoice_findOne_rejects env (bu_id u) from to) as [e |].
  { right. right. cbn. split; [reflexivity |].
    split; [exists e; reflexivity |]. eexists. split; reflexivity. }
  destruct (find (sameInvoicePeriod (bu_id u) from to) (run_invoices st))
    as [existing |] eqn:F.
  { right. left. cbn. repeat split. eexists. split; reflexivity. }
  destruct (Energy_aggregate env (bu_id u) from to) as [groups | e] eqn:A.
  2: { right. right. cbn. split; [reflexivity |].
       split; [exists e; reflexivity |]. eexists. split; reflexivity. }
  set (energy := match groups with group :: _ => group | [] => 0%Q end).
  destruct (Qeq_bool energy 0) eqn:Z0.
  { right. left. cbn. repeat split. eexists. split; reflexivity. }
  unfold generateInvoiceNumber.
  destruct (Invoice_count_rejects env) as [e |].
  { right. right. cbn. split; [reflexivity |].
    split; [exists e; reflexivity |]. eexists. split; reflexivity. }
  destruct (Invoice_save_rejects env _) as [e |].
  { right. right. cbn. split; [reflexivity |].
    split; [exists e; reflexivity |]. eexists. split; reflexivity. }
  left. eexists. cbn [run_invoices invoicesCreated invoicesSkipped run_lines].
  split; [reflexivity |]. split; [reflexivity |]. split; [reflexivity |].
  split; [| split].
  - unfold CreatedInvoice. cbn.
    split; [reflexivity |]. split.
    { intro Q0. apply Qeq_bool_iff in Q0. congruence. }
    split; [reflexivity |]. split; [reflexivity |]. split; [reflexivity |].
    split; [reflexivity |].
    exists u. split; [left; reflexivity |].
    split; [reflexivity |]. split; [reflexivity |].
    split; [symmetry; exact P |].
    rewrite A. destruct groups as [| g groups].
    + subst energy. discriminate Z0.
    + exists groups. reflexivity.
  - cbn. intro I. apply in_map_iff in I. destruct I as (x & K & I).
    apply (find_none _ _ F) in I.
    apply not_true_iff_false in I. apply I.
    apply sameInvoicePeriod_key. exact K.
  - eexists. split; reflexivity.
Qed.

Lemma CreatedInvoice_incl (env : InvoiceEnv) (us us' : list BilledUnit)
    (count : nat) (i : Invoice) :
  (forall u, In u us -> In u us') ->
  CreatedInvoice env us count i -> CreatedInvoice env us' count i.
Proof.
  intros H (A & B & C & D & E & F & u & I & R).
  repeat split; try assumption. exists u. split; [apply H, I | exact R].
Qed.

Lemma errors_snoc (lines : list InvoiceLine) (line : InvoiceLine) :
  length (filter isUnitError (lines ++ [line]))
  = (length (filter isUnitError lines)
     + if isUnitError line then 1 else 0)%nat.
Proof.
  rewrite filter_app, length_app. cbn.
  destruct (isUnitError line); reflexivity.
Qed.

(** What the loop does to the collection, the counters and the console. *)
Lemma invoiceLoop_spec (env : InvoiceEnv) (units : list BilledUnit) :
  forall st,
    exists new,
      run_invoices (invoiceLoop env units st) = run_invoices st ++ new
      /\ invoicesCreated (invoiceLoop env units st)
         = (invoicesCreated st + length new)%nat
      /\ (invoicesCreated (invoiceLoop env units st)
          + invoicesSkipped (invoiceLoop env units st)
          + length (filter isUnitError
                      (run_lines (invoiceLoop env units st)))
          = invoicesCreated st + invoicesSkipped st
            + length (filter isUnitError (run_lines st))
            + length units)%nat
      /\ (forall k i,
            nth_error new k = Some i ->
            CreatedInvoice env units (length (run_invoices st) + k) i)
      /\ (NoDup (map invoiceKey (run_invoices st)) ->
          NoDup (map invoiceKey (run_invoices (invoiceLoop env units st)))).
Proof.
  unfold invoiceLoop.
  induction units as [| u units IH]; intro st; cbn [fold_left].
  - exists []. rewrite app_nil_r. cbn. split; [reflexivity | split; [lia | split; [lia | split]]].
    + intros k i H. destruct k; discriminate H.
    + tauto.
  - destruct (IH (invoiceUnit env st u)) as (new & I1 & C1 & A1 & W1 & N1).
    destruct (invoiceUnit_step env st u)
      as [(i & I0 & C0 & S0 & W0 & K0 & line & L0 & E0)
         | [(I0 & C0 & S0 & line & L0 & E0)
           | (Core & _ & line & L0 & E0)]].
    + exists (i :: new). rewrite I1, I0, <- app_assoc.
      split; [reflexivity |].
      split; [rewrite C1, C0; cbn; lia |].
      split; [rewrite A1, C0, S0, L0, errors_snoc, E0; cbn; lia |].
      split.
      * intros [| k] x H; cbn in H.
        { injection H as <-. rewrite Nat.add_0_r.
          eapply CreatedInvoice_incl; [| exact W0].
          intros v [<- | []]. left. reflexivity. }
        { specialize (W1 k x H). rewrite I0, length_app in W1. cbn in W1.
          replace (length (run_invoices st) + S k)%nat
            with (length (run_invoices st) + 1 + k)%nat by lia.
          eapply CreatedInvoice_incl; [| exact W1].
          intros v Hv. right. exact Hv. }
      * intro N. rewrite app_assoc, <- I0, <- I1. apply N1.
        rewrite I0, map_app. cbn [map].
        apply NoDup_app; [exact N | repeat constructor; intros [] |].
        intros k Hk [<- | []]. contradiction.
    + exists new. rewrite I1, I0. split; [reflexivity |].
      split; [rewrite C1, C0; reflexivity |].
      split; [rewrite A1, C0, S0, L0, errors_snoc, E0; cbn; lia |].
      split.
      * intros k x H. specialize (W1 k x H). rewrite I0 in W1.
        eapply CreatedInvoice_incl; [| exact W1].
        intros v Hv. right. exact Hv.
      * intro N. rewrite <- I0, <- I1. apply N1. rewrite I0. exact N.
    + unfold runCore in Core. injection Core as I0 C0 S0.
      exists new. rewrite I1, I0. split; [reflexivity |].
      split; [rewrite C1, C0; reflexivity |].
      split; [rewrite A1, C0, S0, L0, errors_snoc, E0; cbn; lia |].
      split.
      * intros k x H. specialize (W1 k x H). rewrite I0 in W1.
        eapply CreatedInvoice_incl; [| exact W1].
        intros v Hv. right. exact Hv.
      * intro N. rewrite <- I0, <- I1. apply N1. rewrite I0. exact N.
Qed.

Lemma invoiceLoop_app (env : InvoiceEnv) (us vs : list BilledUnit)
    (st : InvoiceRun) :
  invoiceLoop env (us ++ vs) st = invoiceLoop env vs (invoiceLoop env us st).
Proof. apply fold_left_app. Qed.

Lemma invoiceLoop_lines (env : InvoiceEnv) (units : list BilledUnit) :
  forall st,
    exists more, run_lines (invoiceLoop env units st) = run_lines st ++ more.
Proof.
  unfold invoiceLoop. induction units as [| u units IH]; intro st; cbn.
  - exists []. symmetry. apply app_nil_r.
  - destruct (IH (invoiceUnit env st u)) as (more & E).
    assert (exists line,
               run_lines (invoiceUnit env st u) = run_lines st ++ [line])
      as (line & L).
    { destruct (invoiceUnit_step env st u)
        as [(i & _ & _ & _ & _ & _ & line & L & _)
           | [(_ & _ & _ & line & L & _) | (_ & _ & line & L & _)]];
        exists line; exact L. }
    exists (line :: more). rewrite E, L, <- app_assoc. reflexivity.
Qed.

(** The console plays no part in what an iteration does to the
    collection and the counters. *)
Lemma invoiceUnit_runCore (env : InvoiceEnv) (st1 st2 : InvoiceRun)
    (u : BilledUnit) :
  runCore st1 = runCore st2 ->
  runCore (invoiceUnit env st1 u) = runCore (invoiceUnit env st2 u).
Proof.
  destruct st1 as [i1 c1 s1 l1], st2 as [i2 c2 s2 l2].
  unfold runCore. cbn [run_invoices invoicesCreated invoicesSkipped].
  intro E. injection E as -> -> ->.
  unfold invoiceUnit, invoiceUnitBody, generateInvoiceNumber, skipUnit.
  cbn [run_invoices invoicesCreated invoicesSkipped run_lines].
  destruct (calculateBillingPeriod env (installationDate u)) as [from to].
  destruct (Invoice_findOne_rejects env (bu_id u) from to);
    [reflexivity |].
  destruct (find (sameInvoicePeriod (bu_id u) from to) i2);
    [reflexivity |].
  destruct (Energy_aggregate env (bu_id u) from to) as [groups |];
    [| reflexivity].
  cbv zeta.
  destruct (Qeq_bool _ 0); [reflexivity |].
  destruct (Invoice_count_rejects env); [reflexivity |].
  destruct (Invoice_save_rejects env _); reflexivity.
Qed.

Lemma invoiceLoop_runCore (env : InvoiceEnv) (units : list BilledUnit) :
  forall st1 st2,
    runCore st1 = runCore st2 ->
    runCore (invoiceLoop env units st1) = runCore (invoiceLoop env units st2).
Proof.
  unfold invoiceLoop. induction units as [| u units IH]; intros st1 st2 E.
  - exact E.
  - cbn [fold_left]. apply IH, invoiceUnit_runCore, E.
Qed.

(** X15. An error in the work for one unit is contained: the collection
    and the two counters after the loop are those of the loop without
    that unit, and the console has the line of the error. *)
Theorem unit_failure_is_isolated (env : InvoiceEnv)
    (before after : list BilledUnit) (u : BilledUnit) (st : InvoiceRun)
    (e : Error) :
  invoiceUnitBody env u (invoiceLoop env before st) = Throw e ->
  runCore (invoiceLoop env (before ++ u :: after) st)
  = runCore (invoiceLoop env (before ++ after) st)
  /\ In (LineUnitError (bu_serialNumber u) e)
       (run_lines (invoiceLoop env (before ++ u :: after) st)).
Proof.
  intro T. rewrite !invoiceLoop_app.
  change (invoiceLoop env (u :: after) (invoiceLoop env before st))
    with (invoiceLoop env after
            (invoiceUnit env (invoiceLoop env before st) u)).
  split.
  - apply invoiceLoop_runCore. unfold invoiceUnit. rewrite T. reflexivity.
  - destruct (invoiceLoop_lines env after
                (invoiceUnit env (invoiceLoop env before st) u))
      as (more & ->).
    apply in_or_app. left. unfold invoiceUnit. rewrite T.
    cbn [run_lines]. apply in_or_app. right. left. reflexivity.
Qed.

Lemma unit_failure_is_isolated_witness :
  runCore (invoiceLoop invoiceEnvSample
             ([] ++ mkBilledUnit 2 20 "SU-B" 0
                 :: [mkBilledUnit 1 10 "SU-A" 0])
             (mkInvoiceRun [] 0 0 []))
  = runCore (invoiceLoop invoiceEnvSample
               ([] ++ [mkBilledUnit 1 10 "SU-A" 0])
               (mkInvoiceRun [] 0 0 [])).
Proof.
  apply (unit_failure_is_isolated invoiceEnvSample []
           [mkBilledUnit 1 10 "SU-A" 0] (mkBilledUnit 2 20 "SU-B" 0)
           (mkInvoiceRun [] 0 0 []) "aggregation failed"%string).
  reflexivity.
Defined.

(** X16. When the units can be listed the job ends normally whatever
    happens for each of them: it appends the new invoices to the
    collection, [invoicesCreated] is their number, every unit is counted
    exactly once as created, skipped or failed, and the last console line
    reports the two counters returned. *)
Theorem generateInvoices_accounting (env : InvoiceEnv)
    (invoices : list Invoice) (units : list BilledUnit) :
  SolarUnit_find_billed env = Ok units ->
  exists created skipped new,
    fst (fst (generateInvoices env invoices)) = Ok (created, skipped)
    /\ snd (fst (generateInvoices env invoices)) = invoices ++ new
    /\ length new = created
    /\ (created + skipped
        + length (filter isUnitError (snd (generateInvoices env invoices)))
        = length units)%nat
    /\ last (snd (generateInvoices env invoices)) (LineFound 0)
       = LineCompleted created skipped.
Proof.
  intro U. unfold generateInvoices. rewrite U. cbv zeta.
  set (st0 := {| run_invoices := invoices; invoicesCreated := 0;
                 invoicesSkipped := 0;
                 run_lines := [LineFound (length units)] |}).
  destruct (invoiceLoop_spec env units st0) as (new & I & C & A & _ & _).
  exists (invoicesCreated (invoiceLoop env units st0)),
    (invoicesSkipped (invoiceLoop env units st0)), new.
  cbn [fst snd]. split; [reflexivity |]. split; [exact I |].
  split; [rewrite C; reflexivity |]. split.
  - rewrite errors_snoc. cbn [isUnitError]. rewrite Nat.add_0_r, A.
    reflexivity.
  - apply last_last.
Qed.

Lemma generateInvoices_accounting_witness :
  exists created skipped new,
    fst (fst (generateInvoices invoiceEnvSample [])) = Ok (created, skipped)
    /\ snd (fst (generateInvoices invoiceEnvSample [])) = [] ++ new
    /\ length new = created
    /\ (created + skipped
        + length (filter isUnitError
                    (snd (generateInvoices invoiceEnvSample [])))
        = 2)%nat
    /\ last (snd (generateInvoices invoiceEnvSample [])) (LineFound 0)
       = LineCompleted created skipped.
Proof.
  apply (generateInvoices_accounting invoiceEnvSample []
           [mkBilledUnit 2 20 "SU-B" 0; mkBilledUnit 1 10 "SU-A" 0]).
  reflexivity.
Defined.

Lemma created_numbers_NoDup (env : InvoiceEnv) (units : list BilledUnit)
    (new : list Invoice) :
  forall count,
    (forall k i,
        nth_error new k = Some i ->
        CreatedInvoice env units (count + k) i) ->
    NoDup (map invoiceNumber new)
    /\ forall i, In i new ->
         exists k, invoiceNumber i = invoiceNumberFor (count + k).
Proof.
  induction new as [| x new IH]; intros count W.
  - split; [constructor | intros i []].
  - destruct (IH (S count)) as (N & B).
    { intros k i H. replace (S count + k)%nat with (count + S k)%nat by lia.
      apply W. exact H. }
    pose proof (W 0%nat x eq_refl) as (_ & _ & _ & _ & _ & X & _).
    split.
    + cbn [map]. constructor; [| exact N].
      intro I. apply in_map_iff in I. destruct I as (y & E & I).
      destruct (B y I) as (k & Y). rewrite Y, X in E.
      apply invoiceNumberFor_inj in E. lia.
    + intros i [<- | I].
      * exists 0%nat. exact X.
      * destruct (B i I) as (k & Y). exists (S k).
        rewrite Y. f_equal. lia.
Qed.

(** X17. Every invoice the job adds is PENDING, for one of the listed
    units and its billing period, for the non-zero energy the aggregation
    returned first, at the default rate, with the amount rounded to
    cents, due fifteen days after the end of the period and numbered by
    the size of the collection when it was created; so the invoices of one
    run have different numbers. *)
Theorem generateInvoices_creates_wellformed (env : InvoiceEnv)
    (invoices : list Invoice) (units : list BilledUnit) :
  SolarUnit_find_billed env = Ok units ->
  exists new,
    snd (fst (generateInvoices env invoices)) = invoices ++ new
    /\ (forall k i,
          nth_error new k = Some i ->
          CreatedInvoice env units (length invoices + k) i)
    /\ NoDup (map invoiceNumber new).
Proof.
  intro U. unfold generateInvoices. rewrite U. cbv zeta.
  set (st0 := {| run_invoices := invoices; invoicesCreated := 0;
                 invoicesSkipped := 0;
                 run_lines := [LineFound (length units)] |}).
  destruct (invoiceLoop_spec env units st0) as (new & I & _ & _ & W & _).
  exists new. cbn [fst snd]. split; [exact I |]. split; [exact W |].
  apply (created_numbers_NoDup env units new (length invoices)). exact W.
Qed.

Lemma generateInvoices_creates_wellformed_witness :
  exists new,
    snd (fst (generateInvoices invoiceEnvSample [])) = [] ++ new
    /\ (forall k i,
          nth_error new k = Some i ->
          CreatedInvoice invoiceEnvSample
            [mkBilledUnit 2 20 "SU-B" 0; mkBilledUnit 1 10 "SU-A" 0]
            (0 + k) i)
    /\ NoDup (map invoiceNumber new).
Proof.
  apply (generateInvoices_creates_wellformed invoiceEnvSample []
           [mkBilledUnit 2 20 "SU-B" 0; mkBilledUnit 1 10 "SU-A" 0]).
  reflexivity.
Defined.

(** X18. The job never stores a second invoice for a unit and a billing
    period: a collection without two invoices of the same unit and period
    is still one after the job, whether it ends normally or not. *)
Theorem generateInvoices_keeps_one_per_period (env : InvoiceEnv)
    (invoices : list Invoice) :
  NoDup (map invoiceKey invoices) ->
  NoDup (map invoiceKey (snd (fst (generateInvoices env invoices)))).
Proof.
  intro N. unfold generateInvoices.
  destruct (SolarUnit_find_billed env) as [units | e]; cbn [fst snd].
  - set (st0 := {| run_invoices := invoices; invoicesCreated := 0;
                   invoicesSkipped := 0;
                   run_lines := [LineFound (length units)] |}).
    destruct (invoiceLoop_spec env units st0) as (new & _ & _ & _ & _ & K).
    apply K. exact N.
  - exact N.
Qed.

Lemma generateInvoices_keeps_one_per_period_witness :
  NoDup (map invoiceKey
           (snd (fst (generateInvoices invoiceEnvSample
                        (snd (fst (generateInvoices invoiceEnvSample
                                     []))))))).
Proof.
  apply (generateInvoices_keeps_one_per_period invoiceEnvSample
           (snd (fst (generateInvoices invoiceEnvSample [])))).
  vm_compute. repeat constructor. intros [].
Defined.

(** ** Running the job again *)

Lemma find_found_iff {A : Type} (f : A -> bool) (l : list A) :
  find f l <> None <-> exists x, In x l /\ f x = true.
Proof.
  split.
  - destruct (find f l) as [x |] eqn:F; [| congruence].
    intros _. exists x. apply (find_some _ _ F).
  - intros (x & I & T) F. rewrite (find_none _ _ F x I) in T. discriminate T.
Qed.

Lemma BillingSettled_grows (env : InvoiceEnv) (invoices more : list Invoice)
    (u : BilledUnit) :
  BillingSettled env invoices u -> BillingSettled env (invoices ++ more) u.
Proof.
  unfold BillingSettled.
  destruct (calculateBillingPeriod env (installationDate u)) as [from to].
  intros (R & [F | Z0]); split; try exact R.
  - left. apply find_found_iff in F. destruct F as (x & I & T).
    apply find_found_iff. exists x. split; [| exact T].
    apply in_or_app. left. exact I.
  - right. exact Z0.
Qed.

(** A unit whose work ends without an error is settled afterwards. *)
Lemma invoiceUnitBody_settles (env : InvoiceEnv) (st st' : InvoiceRun)
    (u : BilledUnit) :
  invoiceUnitBody env u st = Ok st' ->
  BillingSettled env (run_invoices st') u.
Proof.
  unfold invoiceUnitBody, BillingSettled, generateInvoiceNumber.
  destruct (calculateBillingPeriod env (installationDate u)) as [from to].
  destruct (Invoice_findOne_rejects env (bu_id u) from to);
    [discriminate |].
  destruct (find (sameInvoicePeriod (bu_id u) from to) (run_invoices st))
    eqn:F.
  { intro E. injection E as <-. cbn [skipUnit run_invoices].
    split; [reflexivity |]. left. rewrite F. discriminate. }
  destruct (Energy_aggregate env (bu_id u) from to) as [groups |];
    [| discriminate].
  cbv zeta.
  destruct (Qeq_bool _ 0) eqn:Z0.
  { intro E. injection E as <-. cbn [skipUnit run_invoices].
    split; [reflexivity |]. right. exists groups. split; [reflexivity |].
    exact Z0. }
  destruct (Invoice_count_rejects env); [discriminate |].
  destruct (Invoice_save_rejects env _); [discriminate |].
  intro E. injection E as <-. cbn [run_invoices].
  split; [reflexivity |]. left. apply find_found_iff.
  eexists. split; [apply in_or_app; right; left; reflexivity |].
  apply sameInvoicePeriod_key. reflexivity.
Qed.

(** A settled unit is skipped. *)
Lemma invoiceUnit_skips_settled (env : InvoiceEnv) (st : InvoiceRun)
    (u : BilledUnit) :
  BillingSettled env (run_invoices st) u ->
  run_invoices (invoiceUnit env st u) = run_invoices st
  /\ invoicesCreated (invoiceUnit env st u) = invoicesCreated st
  /\ invoicesSkipped (invoiceUnit env st u) = S (invoicesSkipped st).
Proof.
  unfold BillingSettled, invoiceUnit, invoiceUnitBody.
  destruct (calculateBillingPeriod env (installationDate u)) as [from to].
  intros (-> & S0).
  destruct (find (sameInvoicePeriod (bu_id u) from to) (run_invoices st));
    [cbn; tauto |].
  destruct S0 as [F | (groups & -> & Z0)]; [congruence |].
  cbv zeta. rewrite Z0. cbn. tauto.
Qed.

Lemma invoiceLoop_skips_settled (env : InvoiceEnv) (units : list BilledUnit) :
  forall st,
    Forall (BillingSettled env (run_invoices st)) units ->
    run_invoices (invoiceLoop env units st) = run_invoices st
    /\ invoicesCreated (invoiceLoop env units st) = invoicesCreated st
    /\ invoicesSkipped (invoiceLoop env units st)
       = (invoicesSkipped st + length units)%nat.
Proof.
  unfold invoiceLoop. induction units as [| u units IH]; intros st F.
  - cbn. repeat split. lia.
  - cbn [fold_left length]. inversion F as [| ? ? Fu Fus]; subst.
    destruct (invoiceUnit_skips_settled env st u Fu) as (I & C & S0).
    destruct (IH (invoiceUnit env st u)) as (I1 & C1 & S1).
    { rewrite I. exact Fus. }
    rewrite I1, C1, S1, I, C, S0. repeat split. lia.
Qed.

(** After a loop without a unit error every unit is settled. *)
Lemma invoiceLoop_settles (env : InvoiceEnv) (units : list BilledUnit) :
  forall st,
    filter isUnitError (run_lines (invoiceLoop env units st)) = [] ->
    Forall (BillingSettled env (run_invoices (invoiceLoop env units st)))
      units.
Proof.
  induction units as [| u units IH]; intros st E.
  - constructor.
  - change (invoiceLoop env (u :: units) st)
      with (invoiceLoop env units (invoiceUnit env st u)) in *.
    constructor; [| apply IH, E].
    destruct (invoiceLoop_lines env units (invoiceUnit env st u))
      as (more & L).
    rewrite L, filter_app in E. apply app_eq_nil in E. destruct E as (E & _).
    destruct (invoiceLoop_spec env units (invoiceUnit env st u))
      as (new & -> & _).
    apply BillingSettled_grows.
    unfold invoiceUnit in *.
    destruct (invoiceUnitBody env u st) as [st' | e] eqn:B.
    + apply (invoiceUnitBody_settles env st st' u B).
    + cbn [run_lines] in E. rewrite filter_app in E.
      apply app_eq_nil in E. destruct E as (_ & E). discriminate E.
Qed.

(** X19. Running the job again changes nothing: after a run in which no
    unit failed, a second run in the same environment leaves the
    collection as it is, creates no invoice and skips every unit. *)
Theorem generateInvoices_rerun_creates_nothing (env : InvoiceEnv)
    (invoices : list Invoice) :
  filter isUnitError (snd (generateInvoices env invoices)) = [] ->
  snd (fst (generateInvoices env
              (snd (fst (generateInvoices env invoices)))))
  = snd (fst (generateInvoices env invoices))
  /\ forall units,
       SolarUnit_find_billed env = Ok units ->
       fst (fst (generateInvoices env
                   (snd (fst (generateInvoices env invoices)))))
       = Ok (0%nat, length units).
Proof.
  unfold generateInvoices.
  destruct (SolarUnit_find_billed env) as [units | e]; cbn [fst snd].
  2: { intros _. split; [reflexivity | discriminate]. }
  set (st0 := {| run_invoices := invoices; invoicesCreated := 0;
                 invoicesSkipped := 0;
                 run_lines := [LineFound (length units)] |}).
  intro E. rewrite filter_app in E. apply app_eq_nil in E.
  destruct E as (E & _). apply invoiceLoop_settles in E.
  set (st1 := {| run_invoices := run_invoices (invoiceLoop env units st0);
                 invoicesCreated := 0; invoicesSkipped := 0;
                 run_lines := [LineFound (length units)] |}).
  destruct (invoiceLoop_skips_settled env units st1 E) as (I & C & S0).
  split; [exact I |].
  intros units' U. injection U as <-. rewrite C, S0. reflexivity.
Qed.

Lemma generateInvoices_rerun_creates_nothing_witness :
  snd (fst (generateInvoices invoiceEnvQuiet
              (snd (fst (generateInvoices invoiceEnvQuiet [])))))
  = snd (fst (generateInvoices invoiceEnvQuiet [])).
Proof.
  apply (generateInvoices_rerun_creates_nothing invoiceEnvQuiet []).
  reflexivity.
Defined.

(** ** The admin dashboard *)

Lemma status_counts_le (statuses : list string) :
  (length (filter (String.eqb "ACTIVE") statuses)
   + length (filter (String.eqb "MAINTENANCE") statuses)
   + length (filter (String.eqb "INACTIVE") statuses)
   <= length statuses)%nat.
Proof.
  induction statuses as [| x statuses IH]; [reflexivity |].
  cbn [filter].
  destruct (String.eqb_spec "ACTIVE" x) as [A | A];
    destruct (String.eqb_spec "MAINTENANCE" x) as [M | M];
    destruct (String.eqb_spec "INACTIVE" x) as [I | I];
    cbn [length]; try lia; congruence.
Qed.

(** X20. The dashboard is consistent with the collections and with the
    anomaly statistics.  In a 200 reply the numbers of units by status add
    up to at most the number of units, the pending invoices are at most
    the invoices, the CRITICAL and HIGH anomalies together are at most the
    unresolved ones, and the three anomaly numbers are those that
    [getAnomalyStats] reports for the whole collection. *)
Theorem dashboard_consistent (rejected : option Error) (c : Collections)
    (status : Z) (st : DashboardStats) :
  getAdminDashboardStats rejected c = Json status st ->
  status = 200
  /\ (solarUnits_total st <= length (col_solarUnits c))%nat
  /\ (invoices_pending st <= length (col_invoices c))%nat
  /\ (anomalies_critical st + anomalies_high st <= anomalies_total st)%nat
  /\ (anomalies_total st <= length (col_anomalies c))%nat
  /\ forall env status' stats,
       getAnomalyStats env None (col_anomalies c) = Json status' stats ->
       anomalies_total st = stats_total stats
       /\ anomalies_critical st = stats_critical stats
       /\ anomalies_high st = stats_high stats.
Proof.
  unfold getAdminDashboardStats. destruct rejected; [discriminate |].
  intro E. injection E as <- <-.
  cbn [solarUnits_total invoices_pending anomalies_total anomalies_critical
       anomalies_high].
  pose proof (count_by_severity None (col_anomalies c)) as SV.
  destruct (count_split2 None (col_anomalies c)) as (S1 & _).
  split; [reflexivity |]. split; [apply status_counts_le |].
  split; [apply filter_length_le |]. split; [lia |].
  split; [apply filter_length_le |].
  intros env status' stats. unfold getAnomalyStats.
  cbn [solarUnitFilterOf].
  destruct (Anomaly_count_rejects env); [discriminate |].
  intro E. injection E as _ <-.
  cbn [stats_total stats_critical stats_high].
  split; [symmetry; exact S1 |]. split; reflexivity.
Qed.

Lemma dashboard_consistent_witness :
  (anomalies_critical
     (mkDashboardStats 3 2 0 1 2 0 1 1 0)
   + anomalies_high (mkDashboardStats 3 2 0 1 2 0 1 1 0)
   <= anomalies_total (mkDashboardStats 3 2 0 1 2 0 1 1 0))%nat.
Proof.
  apply (dashboard_consistent None collectionsSample 200
           (mkDashboardStats 3 2 0 1 2 0 1 1 0)).
  reflexivity.
Defined.
